(** * A pull-through registry cache (src/registry.ts), embedded in Rocq

    The worker serves manifests and blobs from an object store and, on a
    miss, fetches them from an upstream registry.  The embedding follows
    the source function by function: identifiers ([parseTag],
    [parseDigest]), the response helpers, the pull-through resolver, the
    import engine and the object reader.

    Conventions of the embedding
    - JavaScript strings are [string]s; the character classes of the two
      regular expressions are ASCII classes, so any other code unit is
      simply outside every class.
    - JavaScript numbers that the code computes with (sizes, offsets,
      part indices, status codes) are integers and are modelled by [Z].
    - An [async] function is a state transformer over a [World] (the
      bucket, its multipart uploads, the cached upstream URL and the log
      of what was done) that either completes normally or throws;
      [await] is sequencing.
    - What lies under the worker (the global [fetch], [URL], [Number],
      [JSON], the bucket's checksum and conditional reads) is a
      [Platform], over which every function is parametric.
    - [console.log] has no effect on any modelled value and is left out. *)

From Stdlib Require Import Ascii String QArith.
From stdpp Require Import gmap strings list fin_maps pretty.

Local Open Scope string_scope.
Local Open Scope list_scope.
Local Open Scope Z_scope.

(** ** Regular expressions

    The two zod schemas of the source are regular expressions anchored
    with [^] and [$] (no flags: [$] is the end of the input).  They are
    matched here by Brzozowski derivatives. *)

Module Regex.

Inductive regex : Type :=
| Void
| Eps
| Class (p : ascii → bool)
| Cat (r1 r2 : regex)
| Alt (r1 r2 : regex)
| Star (r : regex).

(** [r+] *)
Definition Plus (r : regex) : regex := Cat r (Star r).

(** [r{0,n}] *)
Fixpoint Upto (n : nat) (r : regex) : regex :=
  match n with
  | O => Eps
  | S n' => Alt Eps (Cat r (Upto n' r))
  end.

Fixpoint nullable (r : regex) : bool :=
  match r with
  | Void => false
  | Eps => true
  | Class _ => false
  | Cat r1 r2 => nullable r1 && nullable r2
  | Alt r1 r2 => nullable r1 || nullable r2
  | Star _ => true
  end.

Fixpoint deriv (c : ascii) (r : regex) : regex :=
  match r with
  | Void => Void
  | Eps => Void
  | Class p => if p c then Eps else Void
  | Cat r1 r2 =>
      if nullable r1
      then Alt (Cat (deriv c r1) r2) (deriv c r2)
      else Cat (deriv c r1) r2
  | Alt r1 r2 => Alt (deriv c r1) (deriv c r2)
  | Star r1 => Cat (deriv c r1) (Star r1)
  end.

(** [/^r$/.test(s)] *)
Fixpoint test (r : regex) (s : string) : bool :=
  match s with
  | EmptyString => nullable r
  | String c s' => test (deriv c r) s'
  end.

(** The language of a regular expression, as a relation. *)
Inductive lang : regex → string → Prop :=
| lang_eps : lang Eps EmptyString
| lang_class p c : p c = true → lang (Class p) (String c EmptyString)
| lang_cat r1 r2 s1 s2 : lang r1 s1 → lang r2 s2 → lang (Cat r1 r2) (s1 +:+ s2)
| lang_alt_l r1 r2 s : lang r1 s → lang (Alt r1 r2) s
| lang_alt_r r1 r2 s : lang r2 s → lang (Alt r1 r2) s
| lang_star_nil r : lang (Star r) EmptyString
| lang_star_cons r s1 s2 : lang r s1 → lang (Star r) s2 → lang (Star r) (s1 +:+ s2).

(** Some character class of [r] accepts [c]. *)
Fixpoint mentions (r : regex) (c : ascii) : bool :=
  match r with
  | Void | Eps => false
  | Class p => p c
  | Cat r1 r2 | Alt r1 r2 => mentions r1 c || mentions r2 c
  | Star r1 => mentions r1 c
  end.

End Regex.

(** ** Character classes *)

Definition in_range (lo hi c : ascii) : bool :=
  (N_of_ascii lo <=? N_of_ascii c)%N && (N_of_ascii c <=? N_of_ascii hi)%N.

Definition is_lower (c : ascii) : bool := in_range "a" "z" c.
Definition is_upper (c : ascii) : bool := in_range "A" "Z" c.
Definition is_digit (c : ascii) : bool := in_range "0" "9" c.

Definition ascii_eqb (a b : ascii) : bool := Ascii.eqb a b.

(** [[a-z0-9]] *)
Definition cls_lower_digit (c : ascii) : bool := is_lower c || is_digit c.
(** [[.+_-]] *)
Definition cls_separator (c : ascii) : bool :=
  ascii_eqb c "." || ascii_eqb c "+" || ascii_eqb c "_" || ascii_eqb c "-".
(** [[a-zA-Z0-9=_-]] *)
Definition cls_hash (c : ascii) : bool :=
  is_lower c || is_upper c || is_digit c
  || ascii_eqb c "=" || ascii_eqb c "_" || ascii_eqb c "-".
(** [[\w]] *)
Definition cls_word (c : ascii) : bool :=
  is_lower c || is_upper c || is_digit c || ascii_eqb c "_".
(** [[\w.-]] *)
Definition cls_word_dot_dash (c : ascii) : bool :=
  cls_word c || ascii_eqb c "." || ascii_eqb c "-".
(** [:] *)
Definition cls_colon (c : ascii) : bool := ascii_eqb c ":".

(** ** Identifier parser *)

(** [const tagSchema = z.string().regex(/^[\w][\w.-]{0,127}$/)] *)
Definition tagSchema : Regex.regex :=
  Regex.Cat (Regex.Class cls_word) (Regex.Upto 127 (Regex.Class cls_word_dot_dash)).

Definition parseTag (candidate : string) : option string :=
  if Regex.test tagSchema candidate then Some candidate else None.

Inductive Algorithm : Type := sha256 | sha384 | sha512.

Definition algorithm_name (a : Algorithm) : string :=
  match a with
  | sha256 => "sha256"
  | sha384 => "sha384"
  | sha512 => "sha512"
  end.

Record Digest : Type := mkDigest {
  algorithm : Algorithm;
  hash : string;
  digest : string;
}.

(** The part of the pattern before the colon: [[a-z0-9]+(?:[.+_-][a-z0-9]+)*] *)
Definition algorithmPattern : Regex.regex :=
  Regex.Cat (Regex.Plus (Regex.Class cls_lower_digit))
    (Regex.Star (Regex.Cat (Regex.Class cls_separator)
                           (Regex.Plus (Regex.Class cls_lower_digit)))).

(** The part after the colon: [[a-zA-Z0-9=_-]+] *)
Definition hashPattern : Regex.regex := Regex.Plus (Regex.Class cls_hash).

(** [const digestSchema =
      z.string().regex(/^[a-z0-9]+(?:[.+_-][a-z0-9]+)*:[a-zA-Z0-9=_-]+$/)] *)
Definition digestSchema : Regex.regex :=
  Regex.Cat algorithmPattern (Regex.Cat (Regex.Class cls_colon) hashPattern).

(** [String.prototype.split] with a one-character separator. *)
Fixpoint split (sep : ascii) (s : string) : list string :=
  match s with
  | EmptyString => [EmptyString]
  | String c s' =>
      if ascii_eqb c sep then EmptyString :: split sep s'
      else match split sep s' with
           | h :: t => String c h :: t
           | [] => [String c EmptyString]
           end
  end.

Definition parseDigest (candidate : string) : option Digest :=
  if negb (Regex.test digestSchema candidate) then None
  else
    let parts := split ":" candidate in
    (* const [algorithm, hash] = result.data.split(':') *)
    let algorithm := parts !! 0%nat in
    let hash := parts !! 1%nat in
    let recognised :=
      match algorithm with
      | Some a =>
          if String.eqb a "sha256" then Some sha256
          else if String.eqb a "sha384" then Some sha384
          else if String.eqb a "sha512" then Some sha512
          else None
      | None => None
      end in
    match recognised with
    | None => None
    | Some alg =>
        match hash with
        | None => None
        | Some EmptyString => None
        | Some h => Some (mkDigest alg h candidate)
        end
    end.

(** ** HTTP values *)

Definition to_lower (c : ascii) : ascii :=
  if is_upper c then ascii_of_N (N_of_ascii c + 32) else c.

Fixpoint lowercase (s : string) : string :=
  match s with
  | EmptyString => EmptyString
  | String c s' => String (to_lower c) (lowercase s')
  end.

(** A [Headers] object: header names are case-insensitive, so the map is
    keyed by the lower-cased name. *)
Abbreviation Headers := (gmap string string).

Definition Headers_set (name value : string) (h : Headers) : Headers :=
  <[lowercase name := value]> h.

Definition Headers_get (h : Headers) (name : string) : option string :=
  h !! lowercase name.

Definition Headers_has (h : Headers) (name : string) : bool :=
  bool_decide (is_Some (h !! lowercase name)).

(** [new Headers({n1: v1, ...})] *)
Definition Headers_of (init : list (string * string)) : Headers :=
  fold_left (λ h nv, Headers_set nv.1 nv.2 h) init ∅.

(** [writeHttpMetadata] / [headers.set] when the value is defined. *)
Definition Headers_set_opt (name : string) (value : option string) (h : Headers) : Headers :=
  match value with
  | Some v => Headers_set name v h
  | None => h
  end.

Record Response : Type := mkResponse {
  status : Z;
  statusText : string;
  headers : Headers;
  body : option string;
}.

(** [res.ok] *)
Definition ok (res : Response) : bool :=
  (200 <=? status res) && (status res <=? 299).

(** [ResponseInit]: the fields the code passes. *)
Record ResponseInit : Type := mkInit {
  init_status : option Z;
  init_statusText : option string;
  init_headers : option Headers;
}.

Definition noInit : ResponseInit := mkInit None None None.

(** [new Response(bodyInit, init)] *)
Definition newResponse (bodyInit : option string) (init : ResponseInit) : Response :=
  {| status := default 200 (init_status init);
     statusText := default EmptyString (init_statusText init);
     headers := default ∅ (init_headers init);
     body := bodyInit |}.

(** [new Response(bodyInit, res)] with a [Response] as the init: status,
    status text and headers are read off [res]. *)
Definition newResponseFrom (bodyInit : option string) (res : Response) : Response :=
  {| status := status res;
     statusText := statusText res;
     headers := headers res;
     body := bodyInit |}.

Record URL : Type := mkURL {
  protocol : string;
  hostname : string;
  port : string;
  pathname : string;
  search : string;
}.

(** An outgoing [fetch(registryURL, {...init, headers})]. *)
Record Request : Type := mkRequest {
  url : URL;
  requestHeaders : Headers;
}.

(** The inbound request as the handlers read it. *)
Record HonoRequest : Type := mkHonoRequest {
  method : string;
  reqHeaders : Headers;
}.

(** [Env['Bindings']] without the bucket, which is part of the [World]. *)
Record Env : Type := mkEnv {
  REGISTRY_TOKEN : string;
  UPSTREAM_REGISTRY : string;
}.

(** ** JSON values and the JavaScript reading of them *)

#[warnings="-register-all"]
Inductive JSON : Type :=
| JNull
| JBool (b : bool)
| JNumber (q : Q)
| JString (s : string)
| JArray (items : list JSON)
| JObject (members : list (string * JSON)).

(** A JavaScript value read out of a parsed document: [None] is
    [undefined]. *)
Definition JSValue : Type := option JSON.

(** Own property of a parsed object; for a repeated name the last member
    wins, as in [JSON.parse]. *)
Fixpoint member (name : string) (members : list (string * JSON)) : JSValue :=
  match members with
  | [] => None
  | (n, v) :: rest =>
      match member name rest with
      | Some v' => Some v'
      | None => if String.eqb n name then Some v else None
      end
  end.

Definition truthy (v : JSValue) : bool :=
  match v with
  | None => false
  | Some JNull => false
  | Some (JBool b) => b
  | Some (JNumber q) => negb (Qeq_bool q 0)
  | Some (JString s) => negb (String.eqb s EmptyString)
  | Some (JArray _) => true
  | Some (JObject _) => true
  end.

(** [v === 'literal'] *)
Definition strict_eq_string (v : JSValue) (literal : string) : bool :=
  match v with
  | Some (JString s) => String.eqb s literal
  | _ => false
  end.

Fixpoint characters (s : string) : list JSON :=
  match s with
  | EmptyString => []
  | String c s' => JString (String c EmptyString) :: characters s'
  end.

(** ** Errors thrown by the worker or by the platform under it *)

Inductive Error : Type :=
| FailedToFetchManifest (st : Z) (text : string)
    (* `failed to fetch manifest: ${res.status} ${res.statusText}` *)
| MissingMediaType
    (* 'missing mediaType' *)
| InvalidManifestDigest (d : JSValue)
    (* `invalid manifest digest: ${descriptor.digest}` *)
| InvalidConfigDigest (d : JSValue)
    (* `invalid config digest: ${content.config.digest}` *)
| InvalidLayerDigest (d : JSValue)
    (* `invalid layer digest: ${layer.digest}` *)
| UnknownContent (content : JSON)
    (* `unknown content: ${JSON.stringify(content)}` *)
| FailedToFetchPart (idx : Z) (st : Z) (text : string)
    (* `failed to fetch blob for part ${idx}: ${res.status} ${res.statusText}` *)
| TypeError (what : string)
    (* property read of null or undefined, iteration of a non-iterable,
       invalid URL *)
| SyntaxError
    (* res.json() on a body that is not JSON *)
| NetworkError (what : string)
    (* fetch rejected *)
| StoreError (what : string).
    (* the bucket rejected an operation *)

Inductive Completion (A : Type) : Type :=
| Normal (a : A)
| Throw (e : Error)
| OutOfFuel.

Arguments Normal {A} a.
Arguments Throw {A} e.
Arguments OutOfFuel {A}.

(** [v.name] on a value read from a parsed document.  None of the names
    the code reads is a property of the array, string, number or boolean
    prototypes, so on those values the read is [undefined]. *)
Definition get_prop (v : JSValue) (name : string) : Completion JSValue :=
  match v with
  | None => Throw (TypeError "cannot read properties of undefined")
  | Some JNull => Throw (TypeError "cannot read properties of null")
  | Some (JObject members) => Normal (member name members)
  | Some _ => Normal None
  end.

(** The values a [for (const x of v)] loop visits. *)
Definition iterate (v : JSValue) : Completion (list JSON) :=
  match v with
  | Some (JArray items) => Normal items
  | Some (JString s) => Normal (characters s)
  | _ => Throw (TypeError "not iterable")
  end.

(** [parseDigest] on a value of a parsed document: [z.string()] rejects
    everything that is not a string. *)
Definition parseDigest_value (v : JSValue) : option Digest :=
  match v with
  | Some (JString s) => parseDigest s
  | _ => None
  end.

(** ** The object store *)

Record R2HTTPMetadata : Type := mkMeta {
  contentEncoding : option string;
  contentType : option string;
}.

Record R2PutOptions : Type := mkPutOptions {
  opt_sha256 : string;
  opt_httpMetadata : R2HTTPMetadata;
}.

(** What the bucket keeps under a key. *)
Record StoredObject : Type := mkStored {
  stored_body : string;
  stored_metadata : R2HTTPMetadata;
}.

(** [R2Range]: each field may be missing. *)
Record R2Range : Type := mkRange {
  rangeOffset : option Z;
  rangeLength : option Z;
  rangeSuffix : option Z;
}.

(** [R2Object | R2ObjectBody]: the result of [head] and [get].  An
    [R2Object] (from [head], or from a [get] whose [onlyIf] condition
    failed) has no body. *)
Record R2Object : Type := mkObject {
  objectSize : Z;
  httpEtag : string;
  httpMetadata : R2HTTPMetadata;
  range : option R2Range;
  objectBody : option string;
}.

Record R2UploadedPart : Type := mkPart {
  partNumber : Z;
  etag : string;
}.

Inductive UploadState : Type := Open | Completed | Aborted.

(** A multipart upload held by the bucket. *)
Record Upload : Type := mkUpload {
  upload_key : string;
  upload_metadata : R2HTTPMetadata;
  upload_parts : list (Z * string);
  upload_state : UploadState;
}.

(** What the worker did to the outside, in order. *)
Inductive Event : Type :=
| Fetched (req : Request)
| StorageGet (key : string)
| StorageHead (key : string)
| StoragePut (key : string)
| StorageCreateMultipartUpload (key : string) (id : nat)
| UploadPart (id : nat) (n : Z)
| UploadComplete (id : nat)
| UploadAbort (id : nat).

(** The value of [Number(s)]: not a number, or an integer.  A header
    whose numeric value is fractional or infinite is outside the
    embedding. *)
Inductive JSNumber : Type :=
| NaN
| Num (n : Z).

(** ** The platform under the worker

    The JavaScript built-ins, the bucket's own rules and the upstream
    registry are not part of the repository; the worker is embedded over
    an arbitrary platform. *)
Class Platform : Type := {
  (** the global [fetch]: the answer may depend on the requests made so
      far; a rejected promise is a [Throw] *)
  fetch : list Request → Request → Completion Response;
  (** [new URL(s)] *)
  URL_parse : string → option URL;
  (** [Number(s)] for a header value *)
  Number : string → JSNumber;
  (** [JSON.parse] and [JSON.stringify] *)
  JSON_parse : string → option JSON;
  JSON_stringify : JSON → string;
  (** the bucket's check of a body against the [sha256] put option *)
  sha256_matches : string → string → bool;
  (** the quoted entity tag the bucket derives for a body *)
  etag_of : string → string;
  (** a [get] with [{onlyIf, range}] on a stored object: the range the
      bucket reports and the body it hands out, if any *)
  conditional_read : Headers → StoredObject → option R2Range * option string;
  (** [err.message], with the values of the template literal rendered *)
  message : Error → string;
}.

(** ** Worlds and asynchronous computations *)

Record World : Type := mkWorld {
  storage : gmap string StoredObject;
  uploads : list Upload;
  upstreamURL : option URL;   (* let upstreamURL: URL | undefined *)
  events : list Event;
}.

Definition M (S A : Type) : Type := S → Completion A * S.

Definition ret {S A} (a : A) : M S A := λ s, (Normal a, s).

Definition throw {S A} (e : Error) : M S A := λ s, (Throw e, s).

Definition bind {S A B} (m : M S A) (k : A → M S B) : M S B :=
  λ s, match m s with
       | (Normal a, s') => k a s'
       | (Throw e, s') => (Throw e, s')
       | (OutOfFuel, s') => (OutOfFuel, s')
       end.

(** [try { m } catch (err) { handler(err) }] *)
Definition try_catch {S A} (m : M S A) (handler : Error → M S A) : M S A :=
  λ s, match m s with
       | (Throw e, s') => handler e s'
       | r => r
       end.

Definition lift {S A} (c : Completion A) : M S A := λ s, (c, s).

Notation "x <- m ;; k" := (bind m (λ x, k))
  (at level 100, m at next level, right associativity).
Notation "m ;;; k" := (bind m (λ _, k))
  (at level 100, right associativity).

(** An [async] function of the worker. *)
Abbreviation Async := (M World).

(** The world after one more event. *)
Definition log (e : Event) (w : World) : World :=
  mkWorld (storage w) (uploads w) (upstreamURL w) (events w ++ [e]).

Definition record (e : Event) : Async unit := λ w, (Normal tt, log e w).

Definition set_storage (s : gmap string StoredObject) : Async unit :=
  λ w, (Normal tt, mkWorld s (uploads w) (upstreamURL w) (events w)).

Definition set_uploads (u : list Upload) : Async unit :=
  λ w, (Normal tt, mkWorld (storage w) u (upstreamURL w) (events w)).

Definition set_upstreamURL (u : URL) : Async unit :=
  λ w, (Normal tt, mkWorld (storage w) (uploads w) (Some u) (events w)).

Definition get_world : Async World := λ w, (Normal w, w).

(** Run [f] on each element in order; the first throw ends the loop. *)
Fixpoint for_each {S A} (f : A → M S unit) (l : list A) : M S unit :=
  match l with
  | [] => ret tt
  | x :: rest => f x ;;; for_each f rest
  end.

Fixpoint requests_of (l : list Event) : list Request :=
  match l with
  | [] => []
  | Fetched r :: rest => r :: requests_of rest
  | _ :: rest => requests_of rest
  end.

Section Worker.

Context {P : Platform}.

(** *** Bucket operations ([env.storage]) *)

Definition view (o : StoredObject) (rng : option R2Range) (b : option string) : R2Object :=
  {| objectSize := Z.of_nat (String.length (stored_body o));
     httpEtag := etag_of (stored_body o);
     httpMetadata := stored_metadata o;
     range := rng;
     objectBody := b |}.

(** [env.storage.head(key)] *)
Definition storage_head (key : string) : Async (option R2Object) :=
  record (StorageHead key) ;;;
  w <- get_world ;;
  ret (match storage w !! key with
       | Some o => Some (view o None None)
       | None => None
       end).

(** [env.storage.get(key)] *)
Definition storage_get (key : string) : Async (option R2Object) :=
  record (StorageGet key) ;;;
  w <- get_world ;;
  ret (match storage w !! key with
       | Some o => Some (view o None (Some (stored_body o)))
       | None => None
       end).

(** [env.storage.get(key, {onlyIf: h, range: h})] *)
Definition storage_get_with (key : string) (h : Headers) : Async (option R2Object) :=
  record (StorageGet key) ;;;
  w <- get_world ;;
  ret (match storage w !! key with
       | Some o => let '(rng, b) := conditional_read h o in Some (view o rng b)
       | None => None
       end).

(** [env.storage.put(key, body, options)]: the bucket checks the body
    against the [sha256] option before the object becomes visible. *)
Definition storage_put (key : string) (content : string) (options : R2PutOptions) : Async unit :=
  record (StoragePut key) ;;;
  if sha256_matches (opt_sha256 options) content then
    w <- get_world ;;
    set_storage (<[key := mkStored content (opt_httpMetadata options)]> (storage w))
  else throw (StoreError "checksum mismatch").

(** [env.storage.put(key, text)] without options. *)
Definition storage_put_text (key : string) (content : string) : Async unit :=
  record (StoragePut key) ;;;
  w <- get_world ;;
  set_storage (<[key := mkStored content (mkMeta None None)]> (storage w)).

(** [env.storage.createMultipartUpload(key, options)]; the handle is the
    index of the upload. *)
Definition storage_createMultipartUpload (key : string) (options : R2PutOptions) : Async nat :=
  w <- get_world ;;
  let id := List.length (uploads w) in
  record (StorageCreateMultipartUpload key id) ;;;
  set_uploads (uploads w ++ [mkUpload key (opt_httpMetadata options) [] Open]) ;;;
  ret id.

Definition open_upload (id : nat) : Async Upload :=
  w <- get_world ;;
  match uploads w !! id with
  | Some u =>
      match upload_state u with
      | Open => ret u
      | _ => throw (StoreError "upload is not open")
      end
  | None => throw (StoreError "no such upload")
  end.

(** [upload.uploadPart(n, body)] *)
Definition upload_uploadPart (id : nat) (n : Z) (content : string) : Async R2UploadedPart :=
  record (UploadPart id n) ;;;
  u <- open_upload id ;;
  w <- get_world ;;
  set_uploads (<[id := mkUpload (upload_key u) (upload_metadata u)
                         (upload_parts u ++ [(n, content)]) Open]> (uploads w)) ;;;
  ret (mkPart n (etag_of content)).

Fixpoint part_body (n : Z) (parts : list (Z * string)) : option string :=
  match parts with
  | [] => None
  | (m, b) :: rest =>
      match part_body n rest with
      | Some b' => Some b'
      | None => if m =? n then Some b else None
      end
  end.

(** The object made of the listed parts, when each was uploaded. *)
Fixpoint assemble (uploaded : list (Z * string)) (parts : list R2UploadedPart) : option string :=
  match parts with
  | [] => Some EmptyString
  | p :: rest =>
      match part_body (partNumber p) uploaded, assemble uploaded rest with
      | Some b, Some bs => Some (b +:+ bs)
      | _, _ => None
      end
  end.

(** [upload.complete(parts)]: only now does an object appear under the key. *)
Definition upload_complete (id : nat) (parts : list R2UploadedPart) : Async unit :=
  record (UploadComplete id) ;;;
  u <- open_upload id ;;
  match assemble (upload_parts u) parts with
  | Some content =>
      w <- get_world ;;
      set_uploads (<[id := mkUpload (upload_key u) (upload_metadata u)
                             (upload_parts u) Completed]> (uploads w)) ;;;
      set_storage (<[upload_key u := mkStored content (upload_metadata u)]> (storage w))
  | None => throw (StoreError "invalid part")
  end.

(** [upload.abort()] *)
Definition upload_abort (id : nat) : Async unit :=
  record (UploadAbort id) ;;;
  u <- open_upload id ;;
  w <- get_world ;;
  set_uploads (<[id := mkUpload (upload_key u) (upload_metadata u)
                         (upload_parts u) Aborted]> (uploads w)).

(** *** Utils *)

(** [function response(bodyInit, init = {})] *)
Definition response (bodyInit : option string) (init : ResponseInit) : Response :=
  let headers := default ∅ (init_headers init) in
  let headers := Headers_set "Docker-Distribution-API-Version" "registry/2.0" headers in
  newResponse bodyInit (mkInit (init_status init) (init_statusText init) (Some headers)).

(** [function emptyResponse(responseInit)] *)
Definition emptyResponse (responseInit : ResponseInit) : Response :=
  response None responseInit.

(** [function json(data, responseInit = {})] *)
Definition json (data : JSON) (responseInit : ResponseInit) : Response :=
  let headers := default ∅ (init_headers responseInit) in
  let headers := Headers_set "Content-Type" "application/json" headers in
  response (Some (JSON_stringify data))
    (mkInit (init_status responseInit) (init_statusText responseInit) (Some headers)).

(** [{errors: [{code}]}] *)
Definition errors (code : string) : JSON :=
  JObject [("errors", JArray [JObject [("code", JString code)]])].

(** [{errors: [{code, message}]}] *)
Definition errors_with_message (code message : string) : JSON :=
  JObject [("errors", JArray [JObject [("code", JString code);
                                        ("message", JString message)]])].

(** *** The upstream client *)

Fixpoint strip_prefix (prefix s : string) : option string :=
  match prefix, s with
  | EmptyString, _ => Some s
  | String p prefix', String c s' =>
      if ascii_eqb p c then strip_prefix prefix' s' else None
  | String _ _, EmptyString => None
  end.

(** The replacement string of [String.prototype.replace] expanded for a
    match [matched] with [before] and [after] around it: [$$] is a
    dollar, [$&] the match, [$`] what precedes it and [$'] what follows
    it.  The pattern replaced here has no capture group, so [$1], [$<]
    and any other dollar stand for themselves. *)
Fixpoint expand_replacement (matched before after template : string) : string :=
  match template with
  | EmptyString => EmptyString
  | String c tail =>
      if ascii_eqb c "$" then
        match tail with
        | EmptyString => String c EmptyString
        | String c' rest =>
            if ascii_eqb c' "$" then String "$" (expand_replacement matched before after rest)
            else if ascii_eqb c' "&" then
              matched +:+ expand_replacement matched before after rest
            else if ascii_eqb c' "`" then
              before +:+ expand_replacement matched before after rest
            else if ascii_eqb c' "'" then
              after +:+ expand_replacement matched before after rest
            else String c (expand_replacement matched before after tail)
        end
      else String c (expand_replacement matched before after tail)
  end.

(** [pathname.replace(/^\/v2\//, `/v2/${prefix}/`)]: the pattern matches
    at the start only, so nothing precedes the match. *)
Definition replace_v2 (pathname prefix : string) : string :=
  match strip_prefix "/v2/" pathname with
  | Some rest =>
      expand_replacement "/v2/" EmptyString rest ("/v2/" +:+ prefix +:+ "/") +:+ rest
  | None => pathname
  end.

Definition new_URL (s : string) : Async URL :=
  match URL_parse s with
  | Some u => ret u
  | None => throw (TypeError "Invalid URL")
  end.

(** The request sent for the internal URL [registryURL] once the upstream
    base is known: protocol and host of the upstream, the path prefixed,
    and the two headers set. *)
Definition upstream_request (env : Env) (upstream registryURL : URL)
    (init : list (string * string)) : Request :=
  let registryURL :=
    {| protocol := protocol upstream;
       hostname := hostname upstream;
       port := port registryURL;
       pathname := replace_v2 (pathname registryURL) (pathname upstream);
       search := search registryURL |} in
  let headers := Headers_of init in
  let headers := Headers_set "accept" "*/*" headers in
  let headers := Headers_set "authorization" ("Basic " +:+ REGISTRY_TOKEN env) headers in
  mkRequest registryURL headers.

(** [async function fetchFromRegistry(env, url, init = {})]; [init] only
    ever carries headers. *)
Definition fetchFromRegistry (env : Env) (url : string)
    (init : list (string * string)) : Async Response :=
  w <- get_world ;;
  (* upstreamURL = upstreamURL ?? new URL(env.UPSTREAM_REGISTRY) *)
  upstream <- match upstreamURL w with
              | Some u => ret u
              | None => u <- new_URL (UPSTREAM_REGISTRY env) ;;
                        set_upstreamURL u ;;; ret u
              end ;;
  registryURL <- new_URL url ;;
  let request := upstream_request env upstream registryURL init in
  w <- get_world ;;
  record (Fetched request) ;;;
  lift (fetch (requests_of (events w)) request).

(** *** The pull-through resolver *)

Definition BLOB_UNKNOWN_response : Response :=
  json (errors "BLOB_UNKNOWN") (mkInit (Some 404) None None).

(** [async function pullThroughRegistry(req, fromR2, fromRegistry)].  The
    two callbacks are arbitrary asynchronous actions, over any state. *)
Definition pullThroughRegistry {S} (req : HonoRequest)
    (fromR2 : M S (option Response)) (fromRegistry : M S Response) : M S Response :=
  if String.eqb (method req) "HEAD" then
    object <- fromR2 ;;
    match object with
    | Some o => ret o
    | None =>
        res <- fromRegistry ;;
        if negb (ok res) then ret res
        else
          object <- fromR2 ;;
          match object with
          | None => ret BLOB_UNKNOWN_response
          | Some o => ret o
          end
    end
  else
    object <- fromR2 ;;
    match object with
    | None => fromRegistry
    | Some o => ret o
    end.

(** *** The import engine *)

Definition manifest_url (name reference : string) : string :=
  "https://registry/v2/" +:+ name +:+ "/manifests/" +:+ reference.

Definition blob_url (name : string) (d : Digest) : string :=
  "https://registry/v2/" +:+ name +:+ "/blobs/" +:+ digest d.

Definition manifest_key (name : string) (d : Digest) : string :=
  name +:+ "/manifests/" +:+ digest d.

Definition blob_key (name : string) (d : Digest) : string :=
  name +:+ "/blobs/" +:+ digest d.

Definition tag_key (name tag : string) : string :=
  name +:+ "/tags/" +:+ tag.

(** [{sha256: digest.hash, httpMetadata: {contentEncoding, contentType}}] *)
Definition put_options (d : Digest) (res : Response) : R2PutOptions :=
  {| opt_sha256 := hash d;
     opt_httpMetadata :=
       {| contentEncoding := Headers_get (headers res) "content-encoding";
          contentType := Headers_get (headers res) "content-type" |} |}.

Definition not_found : Response := newResponse None (mkInit (Some 404) None None).

(** The common tail of [importManifest] and [importBlob]: re-read the
    object and wrap it with the upstream response. *)
Definition reread (key : string) (res : Response) : Async Response :=
  obj <- storage_get key ;;
  match obj with
  | None => ret not_found
  | Some o => ret (newResponseFrom (objectBody o) res)
  end.

(** [async function importManifest(env, name, digest)] *)
Definition importManifest (env : Env) (name : string) (d : Digest) : Async Response :=
  res <- fetchFromRegistry env (manifest_url name (digest d)) [] ;;
  match ok res, body res with
  | true, Some content =>
      storage_put (manifest_key name d) content (put_options d res) ;;;
      reread (manifest_key name d) res
  | _, _ => ret res   (* if (!res.ok || !res.body) return res *)
  end.

(** [const partSize = 1024 * 1024 * 250] *)
Definition partSize : Z := 1024 * 1024 * 250.

(** [Number(res.headers.get('content-length') ?? 0)] *)
Definition contentLength_of (res : Response) : JSNumber :=
  match Headers_get (headers res) "content-length" with
  | Some v => Number v
  | None => Num 0
  end.

(** [Math.ceil(contentLength / partSize)] *)
Definition part_count (contentLength : Z) : Z := - ((- contentLength) / partSize).

(** [`bytes=${idx * partSize}-${(idx + 1) * partSize - 1}`] *)
Definition part_range (idx : Z) : string :=
  "bytes=" +:+ pretty (idx * partSize) +:+ "-" +:+ pretty ((idx + 1) * partSize - 1).

(** The body of the [for] loop of [importBlob], over the indices still to
    do; [parts] is the array filled so far. *)
Fixpoint import_parts (env : Env) (name : string) (d : Digest) (upload : nat)
    (indices : list Z) (parts : list R2UploadedPart) : Async (list R2UploadedPart) :=
  match indices with
  | [] => ret parts
  | idx :: rest =>
      res <- fetchFromRegistry env (blob_url name d) [("Range", part_range idx)] ;;
      match ok res, body res with
      | true, Some content =>
          part <- upload_uploadPart upload (idx + 1) content ;;
          import_parts env name d upload rest (parts ++ [part])
      | _, _ => throw (FailedToFetchPart idx (status res) (statusText res))
      end
  end.

(** The indices [0, 1, ..., Math.ceil(contentLength / partSize) - 1]. *)
Definition part_indices (contentLength : Z) : list Z :=
  seqZ 0 (part_count contentLength).

(** The [try { ... } catch (err) { await upload.abort(); throw err }] block. *)
Definition import_multipart (env : Env) (name : string) (d : Digest)
    (upload : nat) (contentLength : Z) : Async unit :=
  try_catch
    (parts <- import_parts env name d upload (part_indices contentLength) [] ;;
     upload_complete upload parts)
    (λ err, upload_abort upload ;;; throw err).

(** [async function importBlob(env, name, digest)] *)
Definition importBlob (env : Env) (name : string) (d : Digest) : Async Response :=
  res <- fetchFromRegistry env (blob_url name d) [] ;;
  match ok res, body res with
  | true, Some content =>
      let key := blob_key name d in
      let options := put_options d res in
      (* if (contentLength > partSize) { ... } else { ... }; a comparison
         with NaN is false *)
      match contentLength_of res with
      | Num contentLength =>
          if partSize <? contentLength then
            upload <- storage_createMultipartUpload key options ;;
            import_multipart env name d upload contentLength
          else storage_put key content options
      | NaN => storage_put key content options
      end ;;;
      reread key res
  | _, _ => ret res   (* if (!res.ok || !res.body) return res *)
  end.

(** [await res.json()] *)
Definition Response_json (res : Response) : Async JSON :=
  match body res with
  | Some text =>
      match JSON_parse text with
      | Some v => ret v
      | None => throw SyntaxError
      end
  | None => throw SyntaxError
  end.

Definition is_index_mediaType (mediaType : JSValue) : bool :=
  strict_eq_string mediaType "application/vnd.docker.distribution.manifest.list.v2+json"
  || strict_eq_string mediaType "application/vnd.oci.image.index.v1+json".

Definition is_image_mediaType (mediaType : JSValue) : bool :=
  strict_eq_string mediaType "application/vnd.docker.distribution.manifest.v2+json"
  || strict_eq_string mediaType "application/vnd.oci.image.manifest.v1+json".

(** [if (await env.storage.head(key)) { } else { await importBlob(...) }] *)
Definition import_blob_unless_stored (env : Env) (name : string) (d : Digest) : Async unit :=
  existing <- storage_head (blob_key name d) ;;
  match existing with
  | Some _ => ret tt
  | None => importBlob env name d ;;; ret tt
  end.

(** One turn of [for (const layer of content.layers)]. *)
Definition import_layer (env : Env) (name : string) (layer : JSON) : Async unit :=
  layerDigest <- lift (get_prop (Some layer) "digest") ;;
  match parseDigest_value layerDigest with
  | None => throw (InvalidLayerDigest layerDigest)
  | Some d => import_blob_unless_stored env name d
  end.

(** The [case] of the two single-image media types. *)
Definition import_image (env : Env) (name : string) (content : JSON) : Async unit :=
  config <- lift (get_prop (Some content) "config") ;;
  configDigest <- lift (get_prop config "digest") ;;
  match parseDigest_value configDigest with
  | None => throw (InvalidConfigDigest configDigest)
  | Some d =>
      import_blob_unless_stored env name d ;;;
      layers <- lift (get_prop (Some content) "layers") ;;
      layers <- lift (iterate layers) ;;
      for_each (import_layer env name) layers
  end.

(** [async function importAll(env, name, digest)].  The recursion follows
    documents served by the upstream registry, so it is bounded by
    [fuel]; running out of it is the distinct outcome [OutOfFuel]. *)
Fixpoint importAll (fuel : nat) (env : Env) (name : string) (d : Digest) : Async unit :=
  match fuel with
  | O => lift OutOfFuel
  | S fuel' =>
      res <- importManifest env name d ;;
      if negb (ok res) then throw (FailedToFetchManifest (status res) (statusText res))
      else
        content <- Response_json res ;;
        mediaType <- lift (get_prop (Some content) "mediaType") ;;
        if negb (truthy mediaType) then throw MissingMediaType
        else if is_index_mediaType mediaType then
          manifests <- lift (get_prop (Some content) "manifests") ;;
          manifests <- lift (iterate manifests) ;;
          for_each
            (λ descriptor,
               descriptorDigest <- lift (get_prop (Some descriptor) "digest") ;;
               match parseDigest_value descriptorDigest with
               | None => throw (InvalidManifestDigest descriptorDigest)
               | Some d' => importAll fuel' env name d'
               end)
            manifests
        else if is_image_mediaType mediaType then import_image env name content
        else throw (UnknownContent content)
  end.

(** *** The tag resolver *)

(** [await obj.text()] *)
Definition text (obj : R2Object) : string := default EmptyString (objectBody obj).

(** [async function resolveTagToDigest(env, name, tag)] *)
Definition resolveTagToDigest (env : Env) (name tag : string) : Async (option Digest) :=
  obj <- storage_get (tag_key name tag) ;;
  match obj with
  | Some o => ret (parseDigest (text o))
  | None =>
      res <- fetchFromRegistry env (manifest_url name tag) [] ;;
      if negb (ok res) then ret None
      else
        match Headers_get (headers res) "Docker-Content-Digest" with
        | None => ret None
        | Some EmptyString => ret None   (* if (!digest) return null *)
        | Some headerDigest =>
            storage_put_text (tag_key name tag) headerDigest ;;;
            ret (parseDigest headerDigest)
        end
  end.

(** *** The HTTP response adapter *)

(** [obj.writeHttpMetadata(headers)] *)
Definition writeHttpMetadata (obj : R2Object) (headers : Headers) : Headers :=
  Headers_set_opt "content-encoding" (contentEncoding (httpMetadata obj))
    (Headers_set_opt "content-type" (contentType (httpMetadata obj)) headers).

(** [`bytes ${offset}-${offset + length - 1}/${size}`] *)
Definition content_range (off len total : Z) : string :=
  "bytes " +:+ pretty off +:+ "-" +:+ pretty (off + len - 1) +:+ "/" +:+ pretty total.

(** [async function getObject(req, env, key, headers)]; of [env] only the
    bucket is used, which is the [World]'s.  The [Headers] object is
    updated in place in the source; every response copies it, and a call
    that returns [null] has not touched it. *)
Definition getObject (req : HonoRequest) (key : string) (headers : Headers)
    : Async (option Response) :=
  if String.eqb (method req) "HEAD" then
    obj <- storage_head key ;;
    match obj with
    | None => ret None
    | Some obj =>
        let headers := writeHttpMetadata obj headers in
        let headers := Headers_set "accept-ranges" "bytes" headers in
        let headers := Headers_set "etag" (httpEtag obj) headers in
        let headers := Headers_set "content-length" (pretty (objectSize obj)) headers in
        ret (Some (emptyResponse (mkInit None None (Some headers))))
    end
  else
    obj <- storage_get_with key (reqHeaders req) ;;
    match obj with
    | None => ret None
    | Some obj =>
        let headers := writeHttpMetadata obj headers in
        let headers := Headers_set "etag" (httpEtag obj) headers in
        let headers := Headers_set "accept-ranges" "bytes" headers in
        let headers :=
          match Headers_has (reqHeaders req) "range", range obj with
          | true, Some {| rangeOffset := Some off; rangeLength := Some len |} =>
              Headers_set "content-length" (pretty len)
                (Headers_set "content-range" (content_range off len (objectSize obj)) headers)
          | _, _ => Headers_set "content-length" (pretty (objectSize obj)) headers
          end in
        let status :=
          match objectBody obj with
          | Some _ => if Headers_has (reqHeaders req) "range" then 206 else 200
          | None => 304
          end in
        ret (Some (newResponse (objectBody obj) (mkInit (Some status) None (Some headers))))
    end.

(** *** Routes *)

(** [new Headers({'Docker-Content-Digest': digest.digest,
                  'Docker-Distribution-Api-Version': 'registry/2.0'})] *)
Definition route_headers (d : Digest) : Headers :=
  Headers_of [("Docker-Content-Digest", digest d);
              ("Docker-Distribution-Api-Version", "registry/2.0")].

(** [app.get('/v2/:name{.*}/manifests/:reference', ...)] *)
Definition manifests_route (req : HonoRequest) (env : Env) (name reference : string)
    : Async Response :=
  d <- match parseTag reference with
       | Some tag => resolveTagToDigest env name tag
       | None => ret (parseDigest reference)
       end ;;
  match d with
  | None => ret (json (errors "MANIFEST_UNKNOWN") (mkInit (Some 404) None None))
  | Some d =>
      pullThroughRegistry req
        (getObject req (manifest_key name d) (route_headers d))
        (importManifest env name d)
  end.

(** [app.get('/v2/:name{.*}/blobs/:digest', ...)] *)
Definition blobs_route (req : HonoRequest) (env : Env) (name digestParam : string)
    : Async Response :=
  match parseDigest digestParam with
  | None => ret (json (errors "BLOB_UNKNOWN") (mkInit (Some 404) None None))
  | Some d =>
      pullThroughRegistry req
        (getObject req (blob_key name d) (route_headers d))
        (importBlob env name d)
  end.

(** [app.post('/v2/:name{.*}/manifests/:reference/_import', ...)] *)
Definition import_route (fuel : nat) (env : Env) (name reference : string)
    : Async Response :=
  match parseTag reference with
  | None => ret (json (errors "MANIFEST_INVALID") (mkInit (Some 400) None None))
  | Some tag =>
      res <- fetchFromRegistry env (manifest_url name tag) [] ;;
      if negb (ok res) then ret res
      else
        try_catch
          (match parseDigest
                   (default EmptyString (Headers_get (headers res) "Docker-Content-Digest")) with
           | None => ret (json (errors "MANIFEST_INVALID") (mkInit (Some 400) None None))
           | Some d =>
               importAll fuel env name d ;;;
               storage_put_text (tag_key name tag) (digest d) ;;;
               ret res
           end)
          (λ err, ret (json (errors_with_message "INTERNAL_ERROR" (message err))
                            (mkInit (Some 500) None None)))
  end.

(** *** The application around the handlers

    The handlers below are given the helpers of the framework's context,
    [({text}) => ...] and [({json}) => ...], not the [json] of this
    module: their answers are built by the framework and do not go
    through [response]. *)

(** The framework's [c.text(text)]. *)
Definition context_text (content : string) : Response :=
  newResponse (Some content)
    (mkInit None None (Some (Headers_of [("Content-Type", "text/plain; charset=UTF-8")]))).

(** The framework's [c.json(data, status)]. *)
Definition context_json (data : JSON) (st : Z) : Response :=
  newResponse (Some (JSON_stringify data))
    (mkInit (Some st) None
       (Some (Headers_of [("Content-Type", "application/json; charset=UTF-8")]))).

(** [app.notFound(({json}) => json({errors: [{code: 'NOT_FOUND', message: 'not found'}]}, 404))] *)
Definition notFound : Response :=
  context_json (errors_with_message "NOT_FOUND" "not found") 404.

(** [app.onError((err, {json}) => json({errors: [{code: 'INTERNAL_ERROR',
    message: err.message}]}, 500))] *)
Definition onError (err : Error) : Response :=
  context_json (errors_with_message "INTERNAL_ERROR" (message err)) 500.

(** The route a request is matched to, with its path parameters. *)
Inductive Route : Type :=
| Root                                       (* GET / *)
| V2                                         (* GET /v2/ *)
| Manifests (name reference : string)        (* GET /v2/:name/manifests/:reference *)
| Blobs (name digestParam : string)          (* GET /v2/:name/blobs/:digest *)
| Import (name reference : string)           (* POST /v2/:name/manifests/:reference/_import *)
| Unmatched.

(** The handler registered for the route. *)
Definition handler (fuel : nat) (route : Route) (req : HonoRequest) (env : Env)
    : Async Response :=
  match route with
  | Root | V2 => ret (context_text "🔮")
  | Manifests name reference => manifests_route req env name reference
  | Blobs name digestParam => blobs_route req env name digestParam
  | Import name reference => import_route fuel env name reference
  | Unmatched => ret notFound
  end.

(** The answer of the application: that of the handler, or that of
    [onError] when the handler throws.  (The two [app.use] middlewares
    only log; what the framework does to the body of the answer to a
    HEAD is left out: it keeps status and headers.) *)
Definition app (fuel : nat) (route : Route) (req : HonoRequest) (env : Env)
    : Async Response :=
  try_catch (handler fuel route req env) (λ err, ret (onError err)).

End Worker.
(** ** A small concrete platform

    Used to run the worker on explicit inputs. *)

Module Demo.

Fixpoint digits_value (acc : Z) (s : string) : JSNumber :=
  match s with
  | EmptyString => Num acc
  | String c s' =>
      if is_digit c
      then digits_value (10 * acc + Z.of_N (N_of_ascii c - 48)) s'
      else NaN
  end.

(** [Number] on the decimal strings of a [Content-Length] header. *)
Definition number (s : string) : JSNumber := digits_value 0 s.

Fixpoint find_first (c : ascii) (s : string) : option (string * string) :=
  match s with
  | EmptyString => None
  | String x s' =>
      if ascii_eqb x c then Some (EmptyString, s')
      else match find_first c s' with
           | Some (before, after) => Some (String x before, after)
           | None => None
           end
  end.

(** URLs of the shape [https://host/path]. *)
Definition url_parse (s : string) : option URL :=
  match strip_prefix "https://" s with
  | None => None
  | Some rest =>
      match find_first "/" rest with
      | Some (host, path) => Some (mkURL "https:" host EmptyString (String "/" path) EmptyString)
      | None => Some (mkURL "https:" rest EmptyString "/" EmptyString)
      end
  end.

Fixpoint lookup_document (documents : list (string * JSON)) (text : string) : option JSON :=
  match documents with
  | [] => None
  | (t, v) :: rest => if String.eqb t text then Some v else lookup_document rest text
  end.

Definition error_message (e : Error) : string :=
  match e with
  | FailedToFetchManifest st text =>
      "failed to fetch manifest: " +:+ pretty st +:+ " " +:+ text
  | MissingMediaType => "missing mediaType"
  | InvalidManifestDigest _ => "invalid manifest digest"
  | InvalidConfigDigest _ => "invalid config digest"
  | InvalidLayerDigest _ => "invalid layer digest"
  | UnknownContent _ => "unknown content"
  | FailedToFetchPart idx st text =>
      "failed to fetch blob for part " +:+ pretty idx +:+ ": " +:+ pretty st +:+ " " +:+ text
  | TypeError what => what
  | SyntaxError => "Unexpected token"
  | NetworkError what => what
  | StoreError what => what
  end.

(** The bucket hands out the whole object whatever the request says. *)
Definition read_whole (h : Headers) (o : StoredObject) : option R2Range * option string :=
  (None, Some (stored_body o)).

(** The bucket honours a range of the first [n] bytes when a [Range]
    header is present. *)
Definition read_first (n : nat) (h : Headers) (o : StoredObject)
    : option R2Range * option string :=
  if Headers_has h "range"
  then (Some (mkRange (Some 0) (Some (Z.of_nat n)) None),
        Some (String.substring 0 n (stored_body o)))
  else (None, Some (stored_body o)).

(** The bucket finds the [onlyIf] condition failed: no body, no range. *)
Definition read_not_modified (h : Headers) (o : StoredObject)
    : option R2Range * option string :=
  (None, None).

(** The platform with an upstream [server], the JSON [documents] it
    knows, and a bucket that reads with [reader]. *)
Definition platform
    (server : list Request → Request → Completion Response)
    (documents : list (string * JSON))
    (reader : Headers → StoredObject → option R2Range * option string) : Platform :=
  {| fetch := server;
     URL_parse := url_parse;
     Number := number;
     JSON_parse := lookup_document documents;
     JSON_stringify := λ v, match v with
                            | JObject (("errors", JArray [JObject (("code", JString c) :: _)]) :: _) =>
                                "errors: " +:+ c
                            | _ => "json"
                            end;
     sha256_matches := λ sum content, negb (String.eqb sum "deadbeef");
     etag_of := λ content, "etag-" +:+ pretty (String.length content);
     conditional_read := reader;
     message := error_message |}.

Definition env : Env := mkEnv "token" "https://upstream.example/mirror".

Definition empty_world : World := mkWorld ∅ [] None [].

Definition world_with (key content : string) : World :=
  mkWorld {[key := mkStored content (mkMeta None None)]} [] None [].

Definition plain (st : Z) (hs : list (string * string)) (content : option string) : Response :=
  mkResponse st EmptyString (Headers_of hs) content.

(** An upstream that answers every request with the same response. *)
Definition always (res : Response) : list Request → Request → Completion Response :=
  λ _ _, Normal res.

(** An upstream serving a blob in parts: a request without a range gets
    [first]; a ranged request gets [part], unless its range is [failing],
    which gets a 503 without body. *)
Definition ranged (first part : Response) (failing : string)
    : list Request → Request → Completion Response :=
  λ _ req,
    match requestHeaders req !! "range" with
    | None => Normal first
    | Some r => if String.eqb r failing
                then Normal (mkResponse 503 "Service Unavailable" ∅ None)
                else Normal part
    end.

End Demo.

(** An upstream with an index of two platform images that share their
    layer. *)
Module IndexExample.

Definition index_doc : JSON :=
  JObject [("mediaType", JString "application/vnd.oci.image.index.v1+json");
           ("manifests", JArray [JObject [("digest", JString "sha256:m1")];
                                 JObject [("digest", JString "sha256:m2")]])].

Definition image_doc (config : string) : JSON :=
  JObject [("mediaType", JString "application/vnd.oci.image.manifest.v1+json");
           ("config", JObject [("digest", JString config)]);
           ("layers", JArray [JObject [("digest", JString "sha256:layer")]])].

(** The upstream: each manifest path serves its document, every other
    path a blob. *)
Definition server : list Request → Request → Completion Response :=
  λ _ req,
    let path := pathname (url req) in
    if String.eqb path "/v2//mirror/app/manifests/sha256:idx" then
      Normal (Demo.plain 200 [] (Some "index"))
    else if String.eqb path "/v2//mirror/app/manifests/sha256:m1" then
      Normal (Demo.plain 200 [] (Some "image1"))
    else if String.eqb path "/v2//mirror/app/manifests/sha256:m2" then
      Normal (Demo.plain 200 [] (Some "image2"))
    else Normal (Demo.plain 200 [("Content-Length", "4")] (Some "blob")).

Definition platform : Platform :=
  Demo.platform server
    [("index", index_doc); ("image1", image_doc "sha256:c1"); ("image2", image_doc "sha256:c2")]
    Demo.read_whole.

Definition run : Completion unit * World :=
  @importAll platform 3 Demo.env "app" (mkDigest sha256 "idx" "sha256:idx") Demo.empty_world.

Definition blob_fetches (w : World) : list string :=
  omap (λ r, if String.eqb (String.substring 0 20 (pathname r)) "/v2//mirror/app/blob"
             then Some (pathname r) else None)
       (map url (requests_of (events w))).

End IndexExample.

(** ** Vocabulary of the properties *)

(** Every character of [s] satisfies [p]. *)
Fixpoint all_chars (p : ascii → bool) (s : string) : bool :=
  match s with
  | EmptyString => true
  | String c s' => p c && all_chars p s'
  end.

(** [h] is non-empty and made of [[a-zA-Z0-9=_-]]. *)
Definition valid_hash (h : string) : Prop :=
  h ≠ EmptyString ∧ all_chars cls_hash h = true.

(** [s] is [algorithm:hash] for one of the three algorithms. *)
Definition canonical (s : string) (a : Algorithm) (h : string) : Prop :=
  s = algorithm_name a +:+ ":" +:+ h ∧ valid_hash h.


(** Run [m] [n] times in a row and collect the results. *)
Fixpoint repeatedly {S A} (n : nat) (m : M S A) : M S (list A) :=
  match n with
  | O => ret []
  | Datatypes.S n' => a <- m ;; rest <- repeatedly n' m ;; ret (a :: rest)
  end.

(** How often the two callbacks of [pullThroughRegistry] were invoked. *)
Record Tally : Type := mkTally {
  reads : nat;
  populates : nat;
}.

(** [m] as a store read that counts itself. *)
Definition counted_read {S A} (m : M S A) : M (Tally * S) A :=
  λ '(t, s), let '(r, s') := m s in (r, (mkTally (Datatypes.S (reads t)) (populates t), s')).

(** [m] as a populate action that counts itself. *)
Definition counted_populate {S A} (m : M S A) : M (Tally * S) A :=
  λ '(t, s), let '(r, s') := m s in (r, (mkTally (reads t) (Datatypes.S (populates t)), s')).

(** The store honoured the [Range] header of [req]: the request carries
    the header and the result reports an offset and a length. *)
Definition honoured (req : HonoRequest) (rng : option R2Range) (off len : Z) : Prop :=
  Headers_has (reqHeaders req) "Range" = true
  ∧ ∃ r, rng = Some r ∧ rangeOffset r = Some off ∧ rangeLength r = Some len.

(** The size the bucket reports for a stored object. *)
Definition stored_size (o : StoredObject) : Z := Z.of_nat (String.length (stored_body o)).

(** The headers of a non-HEAD answer, by what the bucket reported. *)
Definition read_headers (req : HonoRequest) (obj : R2Object) (hs : Headers) : Headers :=
  let hs := Headers_set "accept-ranges" "bytes"
              (Headers_set "etag" (httpEtag obj) (writeHttpMetadata obj hs)) in
  match Headers_has (reqHeaders req) "range", range obj with
  | true, Some {| rangeOffset := Some off; rangeLength := Some len |} =>
      Headers_set "content-length" (pretty len)
        (Headers_set "content-range" (content_range off len (objectSize obj)) hs)
  | _, _ => Headers_set "content-length" (pretty (objectSize obj)) hs
  end.


(** The ranged request for part [idx], with the upstream base [up] and
    the parsed blob URL [u]. *)
Definition part_request (env : Env) (up u : URL) (idx : Z) : Request :=
  upstream_request env up u [("Range", part_range idx)].

(** What a run of parts that all succeed leaves in the log: for each
    index, in order, the ranged fetch and the upload of part [idx + 1]. *)
Definition part_events (id : nat) (reqs : Z → Request) (indices : list Z) : list Event :=
  flat_map (λ idx, [Fetched (reqs idx); UploadPart id (idx + 1)]) indices.

(** Each ranged request of [indices], sent after the requests [before]
    and after the ranged requests that precede it, is answered 2xx with
    a body. *)
Fixpoint parts_succeed {P : Platform} (before : list Request) (reqs : Z → Request)
    (indices : list Z) : Prop :=
  match indices with
  | [] => True
  | idx :: rest =>
      (∃ r content, fetch before (reqs idx) = Normal r
                    ∧ ok r = true ∧ body r = Some content)
      ∧ parts_succeed (before ++ [reqs idx]) reqs rest
  end.

(** The same with the bodies named: the ranged request of the i-th index
    is answered 2xx with the i-th of [bodies]. *)
Fixpoint parts_answered {P : Platform} (before : list Request) (reqs : Z → Request)
    (indices : list Z) (bodies : list string) : Prop :=
  match indices, bodies with
  | [], [] => True
  | idx :: rest, content :: others =>
      (∃ r, fetch before (reqs idx) = Normal r ∧ ok r = true ∧ body r = Some content)
      ∧ parts_answered (before ++ [reqs idx]) reqs rest others
  | _, _ => False
  end.

(** What the bucket has received once the loop is through [indices]:
    part [idx + 1] with the body of the answer to the request for [idx]. *)
Definition uploaded_parts (indices : list Z) (bodies : list string) : list (Z * string) :=
  zip ((λ idx, idx + 1) <$> indices) bodies.

(** The tokens [uploadPart] handed back for these parts, in order. *)
Definition part_tokens {P : Platform} (received : list (Z * string)) : list R2UploadedPart :=
  (λ p, mkPart p.1 (etag_of p.2)) <$> received.

(** The bodies one after the other. *)
Definition concatenated (bodies : list string) : string :=
  foldr String.append EmptyString bodies.

(** The [Content-Length] of [res] is missing, or is a number no larger
    than [limit]. *)
Definition length_at_most {P : Platform} (res : Response) (limit : Z) : Prop :=
  Headers_get (headers res) "Content-Length" = None
  ∨ ∃ v n, Headers_get (headers res) "Content-Length" = Some v
           ∧ Number v = Num n ∧ n ≤ limit.

(** The digest a descriptor of a parsed manifest carries, when it reads
    as one. *)
Definition descriptor_digest (descriptor : JSON) : option Digest :=
  match get_prop (Some descriptor) "digest" with
  | Normal v => parseDigest_value v
  | _ => None
  end.






(** One turn of a loop over descriptors: read the digest, fail with
    [invalid] when it does not parse, go on with [k] otherwise. *)
Definition descriptor_step {S} (invalid : JSValue → Error) (k : Digest → M S unit)
    (descriptor : JSON) : M S unit :=
  v <- lift (get_prop (Some descriptor) "digest") ;;
  match parseDigest_value v with
  | None => throw (invalid v)
  | Some d => k d
  end.

(** [content.name], then the values a [for ... of] loop over it visits. *)
Definition listed (content : JSON) (name : string) : Completion (list JSON) :=
  match get_prop (Some content) name with
  | Normal v => iterate v
  | Throw e => Throw e
  | OutOfFuel => OutOfFuel
  end.

(** [content.config.digest] *)
Definition config_digest_value (content : JSON) : Completion JSValue :=
  match get_prop (Some content) "config" with
  | Normal config => get_prop config "digest"
  | Throw e => Throw e
  | OutOfFuel => OutOfFuel
  end.

(** The response was built by the framework's [c.text] or [c.json]. *)
Definition from_framework {P : Platform} (r : Response) : Prop :=
  (∃ content, r = context_text content) ∨ (∃ data st, r = context_json data st).

(** The response carries [Docker-Distribution-API-Version: registry/2.0]. *)
Definition api_version (r : Response) : Prop :=
  Headers_get (headers r) "Docker-Distribution-API-Version" = Some "registry/2.0".

(** The response has the status and the headers of an answer of the
    upstream registry. *)
Definition from_upstream {P : Platform} (r : Response) : Prop :=
  ∃ history request res,
    fetch history request = Normal res
    ∧ status r = status res
    ∧ headers r = headers res.

(** The tag pattern read directly: one word character, then at most 127
    characters of [[\w.-]]. *)
Definition is_tag (s : string) : bool :=
  match s with
  | EmptyString => false
  | String c rest =>
      cls_word c && all_chars cls_word_dot_dash rest
      && (String.length rest <=? 127)%nat
  end.

(** [contentLength > partSize] for the length read off [res]; a
    comparison with [NaN] is false. *)
Definition exceeds_part_size {P : Platform} (res : Response) : bool :=
  match contentLength_of res with
  | Num n => partSize <? n
  | NaN => false
  end.

(** Every key of the store of [w] is still a key of the store of [w']. *)
Definition keeps_keys (w w' : World) : Prop :=
  dom (storage w) ⊆ dom (storage w').

(** However [m] ends, it has removed no object from the store. *)
Definition never_deletes {A} (m : Async A) : Prop :=
  ∀ w outcome w', m w = (outcome, w') → keeps_keys w w'.
(** * Properties *)

Local Arguments String.append !_ _ / : simpl nomatch.

(** ** Strings *)

Lemma append_eq_nil (s1 s2 : string) :
  s1 +:+ s2 = EmptyString → s1 = EmptyString ∧ s2 = EmptyString.
Proof. destruct s1; simpl; [auto | discriminate]. Qed.

Lemma append_eq_cons (s1 s2 : string) c s :
  s1 +:+ s2 = String c s →
  (s1 = EmptyString ∧ s2 = String c s) ∨ (∃ s1', s1 = String c s1' ∧ s = s1' +:+ s2).
Proof.
  destruct s1 as [|c1 s1]; simpl; intros E.
  - now left.
  - injection E as -> <-. right. now exists s1.
Qed.

Lemma all_chars_app p s1 s2 :
  all_chars p (s1 +:+ s2) = all_chars p s1 && all_chars p s2.
Proof.
  induction s1 as [|c s1 IH]; simpl; [reflexivity |].
  rewrite IH. now rewrite andb_assoc.
Qed.

Lemma all_chars_weaken (p q : ascii → bool) s :
  (∀ c, p c = true → q c = true) → all_chars p s = true → all_chars q s = true.
Proof.
  intros Hpq. induction s as [|c s IH]; simpl; [reflexivity |].
  intros [Hc Hs]%andb_true_iff. rewrite (Hpq _ Hc), (IH Hs). reflexivity.
Qed.

(** ** Derivatives decide the language *)

Module RegexFacts.
Import Regex.

Lemma nullable_sound r : nullable r = true → lang r EmptyString.
Proof.
  induction r; simpl; intros Hn; try discriminate.
  - constructor.
  - apply andb_true_iff in Hn as [H1 H2].
    change EmptyString with (EmptyString +:+ EmptyString). constructor; auto.
  - apply orb_true_iff in Hn as [H1 | H2]; [apply lang_alt_l | apply lang_alt_r]; auto.
  - constructor.
Qed.

Lemma nullable_complete r s : lang r s → s = EmptyString → nullable r = true.
Proof.
  induction 1; simpl; intros E; try reflexivity; try discriminate.
  - apply append_eq_nil in E as [-> ->]. rewrite IHlang1, IHlang2; reflexivity.
  - rewrite IHlang by assumption. reflexivity.
  - rewrite IHlang by assumption. apply orb_true_r.
Qed.

Lemma deriv_complete r s0 :
  lang r s0 → ∀ c s, s0 = String c s → lang (deriv c r) s.
Proof.
  induction 1 as [ | p c' Hp | r1 r2 s1 s2 H1 IH1 H2 IH2 | r1 r2 s0 H1 IH1
                 | r1 r2 s0 H2 IH2 | r | r s1 s2 H1 IH1 H2 IH2 ];
    intros c s E; simpl.
  - discriminate.
  - injection E as -> <-. rewrite Hp. constructor.
  - apply append_eq_cons in E as [[-> ->] | (s1' & -> & ->)].
    + rewrite (nullable_complete _ _ H1 eq_refl). apply lang_alt_r. now apply IH2.
    + destruct (nullable r1).
      * apply lang_alt_l. constructor; [now apply IH1 | assumption].
      * constructor; [now apply IH1 | assumption].
  - apply lang_alt_l. now apply IH1.
  - apply lang_alt_r. now apply IH2.
  - discriminate.
  - apply append_eq_cons in E as [[-> ->] | (s1' & -> & ->)].
    + now apply IH2.
    + constructor; [now apply IH1 | assumption].
Qed.

Lemma deriv_sound r : ∀ c s, lang (deriv c r) s → lang r (String c s).
Proof.
  induction r as [ | | p | r1 IH1 r2 IH2 | r1 IH1 r2 IH2 | r IH ];
    intros c s Hd; simpl in Hd.
  - inversion Hd.
  - inversion Hd.
  - destruct (p c) eqn:Hp; inversion Hd; subst. now constructor.
  - destruct (nullable r1) eqn:Hn.
    + inversion Hd as [ | | | ? ? ? Hl | ? ? ? Hr | | ]; subst.
      * inversion Hl; subst.
        change (String c (?a +:+ ?b)) with (String c a +:+ b).
        constructor; [now apply IH1 | assumption].
      * change (String c s) with (EmptyString +:+ String c s).
        constructor; [now apply nullable_sound | now apply IH2].
    + inversion Hd; subst.
      change (String c (?a +:+ ?b)) with (String c a +:+ b).
      constructor; [now apply IH1 | assumption].
  - inversion Hd; subst; [apply lang_alt_l | apply lang_alt_r]; auto.
  - inversion Hd; subst.
    change (String c (?a +:+ ?b)) with (String c a +:+ b).
    constructor; [now apply IH | assumption].
Qed.

Lemma test_lang r s : test r s = true ↔ lang r s.
Proof.
  revert r. induction s as [|c s IH]; intros r; simpl.
  - split; [apply nullable_sound | intros Hl; now apply (nullable_complete r EmptyString)].
  - rewrite IH. split; [apply deriv_sound | intros Hl; now apply (deriv_complete r (String c s))].
Qed.

(** A matched string uses only characters of the classes of the
    expression. *)
Lemma lang_mentions r s : lang r s → all_chars (mentions r) s = true.
Proof.
  induction 1; simpl; try reflexivity.
  - now rewrite H.
  - rewrite all_chars_app. apply andb_true_iff. split.
    + eapply all_chars_weaken; [|exact IHlang1]. intros c ->. reflexivity.
    + eapply all_chars_weaken; [|exact IHlang2]. intros c ->. apply orb_true_r.
  - eapply all_chars_weaken; [|exact IHlang]. intros c ->. reflexivity.
  - eapply all_chars_weaken; [|exact IHlang]. intros c ->. apply orb_true_r.
  - rewrite all_chars_app. apply andb_true_iff. split; [|exact IHlang2].
    eapply all_chars_weaken; [|exact IHlang1]. intros c Hc. exact Hc.
Qed.

Lemma lang_star_class p s : all_chars p s = true → lang (Star (Class p)) s.
Proof.
  induction s as [|c s IH]; simpl; intros Hs.
  - constructor.
  - apply andb_true_iff in Hs as [Hc Hs].
    change (String c s) with (String c EmptyString +:+ s).
    constructor; [now constructor | auto].
Qed.

Lemma lang_plus_class p s :
  s ≠ EmptyString → all_chars p s = true → lang (Plus (Class p)) s.
Proof.
  destruct s as [|c s]; [congruence |]. simpl. intros _ [Hc Hs]%andb_true_iff.
  change (String c s) with (String c EmptyString +:+ s).
  constructor; [now constructor | now apply lang_star_class].
Qed.

Lemma lang_plus_nonempty p s : lang (Plus (Class p)) s → s ≠ EmptyString.
Proof.
  intros Hl. inversion Hl as [ | | ? ? s1 s2 H1 H2 | | | | ]; subst.
  inversion H1; subst. discriminate.
Qed.

End RegexFacts.

(** ** [split] *)

Lemma split_no_separator sep s :
  all_chars (λ c, negb (ascii_eqb c sep)) s = true → split sep s = [s].
Proof.
  induction s as [|c s IH]; simpl; [reflexivity |].
  intros [Hc Hs]%andb_true_iff. apply negb_true_iff in Hc. rewrite Hc, (IH Hs). reflexivity.
Qed.

Lemma split_at_separator sep s t :
  all_chars (λ c, negb (ascii_eqb c sep)) s = true →
  split sep (s +:+ String sep t) = s :: split sep t.
Proof.
  induction s as [|c s IH]; simpl.
  - intros _. unfold ascii_eqb. now rewrite Ascii.eqb_refl.
  - intros [Hc Hs]%andb_true_iff. apply negb_true_iff in Hc. rewrite Hc, (IH Hs). reflexivity.
Qed.

(** ** [parseDigest] *)

Lemma no_colon_in_hash h :
  all_chars cls_hash h = true → all_chars (λ c, negb (ascii_eqb c ":")) h = true.
Proof.
  apply all_chars_weaken. intros c Hc.
  destruct (ascii_eqb c ":") eqn:E; [|reflexivity].
  apply Ascii.eqb_eq in E. subst c. discriminate Hc.
Qed.

Lemma no_colon_in_algorithm s :
  Regex.lang algorithmPattern s → all_chars (λ c, negb (ascii_eqb c ":")) s = true.
Proof.
  intros Hl. apply RegexFacts.lang_mentions in Hl.
  revert Hl. apply all_chars_weaken. intros c Hc.
  destruct (ascii_eqb c ":") eqn:E; [|reflexivity].
  apply Ascii.eqb_eq in E. subst c. discriminate Hc.
Qed.

Lemma algorithm_name_matches a : Regex.lang algorithmPattern (algorithm_name a).
Proof. apply RegexFacts.test_lang. destruct a; reflexivity. Qed.

Lemma digestSchema_inv s :
  Regex.test digestSchema s = true →
  ∃ tok h, s = tok +:+ ":" +:+ h ∧ Regex.lang algorithmPattern tok ∧ valid_hash h.
Proof.
  intros Ht. apply RegexFacts.test_lang in Ht.
  inversion Ht as [ | | ? ? tok rest Htok Hrest | | | | ]; subst.
  inversion Hrest as [ | | ? ? colon h Hcolon Hh | | | | ]; subst.
  inversion Hcolon as [ | p c Hc | | | | | ]; subst.
  apply Ascii.eqb_eq in Hc. subst c.
  exists tok, h. split; [reflexivity |]. split; [assumption |].
  split; [now apply RegexFacts.lang_plus_nonempty in Hh |].
  apply RegexFacts.lang_mentions in Hh. revert Hh. apply all_chars_weaken.
  intros c Hc. simpl in Hc. now rewrite orb_diag in Hc.
Qed.

Lemma digestSchema_intro tok h :
  Regex.lang algorithmPattern tok → valid_hash h →
  Regex.test digestSchema (tok +:+ ":" +:+ h) = true.
Proof.
  intros Htok [Hne Hh]. apply RegexFacts.test_lang.
  constructor; [assumption |].
  change (":" +:+ h) with (String ":" EmptyString +:+ h).
  constructor; [now constructor | now apply RegexFacts.lang_plus_class].
Qed.

Lemma split_digest tok h :
  Regex.lang algorithmPattern tok → valid_hash h →
  split ":" (tok +:+ ":" +:+ h) = [tok; h].
Proof.
  intros Htok [_ Hh].
  change (":" +:+ h) with (String ":" h).
  rewrite split_at_separator by now apply no_colon_in_algorithm.
  rewrite split_no_separator by now apply no_colon_in_hash.
  reflexivity.
Qed.

(** What [parseDigest] answers on a string that matches the pattern. *)
Lemma parseDigest_matching tok h :
  Regex.lang algorithmPattern tok → valid_hash h →
  parseDigest (tok +:+ ":" +:+ h) =
    if String.eqb tok "sha256" then Some (mkDigest sha256 h (tok +:+ ":" +:+ h))
    else if String.eqb tok "sha384" then Some (mkDigest sha384 h (tok +:+ ":" +:+ h))
    else if String.eqb tok "sha512" then Some (mkDigest sha512 h (tok +:+ ":" +:+ h))
    else None.
Proof.
  intros Htok Hh. unfold parseDigest.
  rewrite digestSchema_intro, split_digest by assumption. simpl.
  destruct Hh as [Hne _]. destruct h as [|c h]; [congruence |].
  destruct (String.eqb tok "sha256"); [reflexivity |].
  destruct (String.eqb tok "sha384"); [reflexivity |].
  destruct (String.eqb tok "sha512"); reflexivity.
Qed.

Lemma parseDigest_Some_inv s d :
  parseDigest s = Some d → canonical s (algorithm d) (hash d) ∧ digest d = s.
Proof.
  unfold parseDigest. destruct (Regex.test digestSchema s) eqn:Ht; simpl; [|discriminate].
  destruct (digestSchema_inv s Ht) as (tok & h & -> & Htok & Hh).
  rewrite split_digest by assumption. simpl.
  destruct Hh as [Hne Hh]. destruct h as [|c h]; [congruence |].
  destruct (String.eqb tok "sha256") eqn:E1;
    [ apply String.eqb_eq in E1; subst tok; intros [= <-]; simpl;
      repeat split; (assumption || reflexivity || discriminate) |].
  destruct (String.eqb tok "sha384") eqn:E2;
    [ apply String.eqb_eq in E2; subst tok; intros [= <-]; simpl;
      repeat split; (assumption || reflexivity || discriminate) |].
  destruct (String.eqb tok "sha512") eqn:E3;
    [ apply String.eqb_eq in E3; subst tok; intros [= <-]; simpl;
      repeat split; (assumption || reflexivity || discriminate) |].
  discriminate.
Qed.

(** C7: for every string [algorithm:hash] with [algorithm] one of sha256,
    sha384, sha512 and [hash] a non-empty string over [[A-Za-z0-9=_-]],
    [parseDigest] returns [{algorithm, hash, digest: input}]; for every
    other string it returns null, and in particular for a string that
    matches the general digest pattern with another algorithm token. *)
Theorem parseDigest_canonical_or_null :
  (∀ s a h, canonical s a h → parseDigest s = Some (mkDigest a h s))
  ∧ (∀ s, (¬ ∃ a h, canonical s a h) → parseDigest s = None)
  ∧ (∀ tok h,
       Regex.test algorithmPattern tok = true → valid_hash h →
       tok ≠ "sha256" → tok ≠ "sha384" → tok ≠ "sha512" →
       Regex.test digestSchema (tok +:+ ":" +:+ h) = true
       ∧ parseDigest (tok +:+ ":" +:+ h) = None).
Proof.
  split; [|split].
  - intros s a h [-> Hh].
    rewrite parseDigest_matching by (apply algorithm_name_matches || assumption).
    destruct a; reflexivity.
  - intros s Hnot. destruct (parseDigest s) as [d|] eqn:E; [|reflexivity].
    exfalso. apply Hnot. exists (algorithm d), (hash d).
    now apply parseDigest_Some_inv in E as [? _].
  - intros tok h Htok%RegexFacts.test_lang Hh N1 N2 N3.
    split; [now apply digestSchema_intro |].
    rewrite parseDigest_matching by assumption.
    apply String.eqb_neq in N1, N2, N3. now rewrite N1, N2, N3.
Qed.

Lemma parseDigest_canonical_or_null_witness :
  parseDigest "sha512:Zm9v_-=" = Some (mkDigest sha512 "Zm9v_-=" "sha512:Zm9v_-=")
  ∧ parseDigest "sha256:" = None
  ∧ parseDigest "md5:abc" = None.
Proof.
  destruct parseDigest_canonical_or_null as (Hyes & Hno & Hother).
  split; [|split].
  - apply (Hyes "sha512:Zm9v_-=" sha512 "Zm9v_-=").
    split; [reflexivity | split; [discriminate | reflexivity]].
  - apply (Hno "sha256:"). intros (a & h & E & Hne & _).
    destruct a; simpl in E; injection E as <-; congruence.
  - apply (Hother "md5" "abc"); try discriminate; try reflexivity.
    split; [discriminate | reflexivity].
Defined.
Example parseDigest_sha256 :
  parseDigest "sha256:abc123" = Some (mkDigest sha256 "abc123" "sha256:abc123").
Proof. reflexivity. Qed.

Example parseDigest_md5 : parseDigest "md5:abc123" = None.
Proof. reflexivity. Qed.

Example parseDigest_trailing_newline :
  parseDigest ("sha256:abc" +:+ String "010" EmptyString) = None.
Proof. reflexivity. Qed.

Example parseTag_latest : parseTag "latest" = Some "latest".
Proof. vm_compute. reflexivity. Qed.

Example parseTag_digest : parseTag "sha256:abc" = None.
Proof. vm_compute. reflexivity. Qed.

(** ** Sequencing *)

Lemma bind_run {S A B} (m : M S A) (k : A → M S B) s :
  bind m k s = match m s with
               | (Normal a, s') => k a s'
               | (Throw e, s') => (Throw e, s')
               | (OutOfFuel, s') => (OutOfFuel, s')
               end.
Proof. reflexivity. Qed.

(** ** The bucket and the upstream client *)

Section WorkerFacts.

Context {P : Platform}.

Lemma storage_get_run key w :
  storage_get key w =
    (Normal (match storage w !! key with
             | Some o => Some (view o None (Some (stored_body o)))
             | None => None
             end), log (StorageGet key) w).
Proof. reflexivity. Qed.

Lemma storage_head_run key w :
  storage_head key w =
    (Normal (match storage w !! key with
             | Some o => Some (view o None None)
             | None => None
             end), log (StorageHead key) w).
Proof. reflexivity. Qed.

Lemma storage_put_text_run key content w :
  storage_put_text key content w =
    (Normal tt,
     mkWorld (<[key := mkStored content (mkMeta None None)]> (storage w))
             (uploads w) (upstreamURL w) (events w ++ [StoragePut key])).
Proof. reflexivity. Qed.

Lemma storage_put_run key content options w :
  storage_put key content options w =
    if sha256_matches (opt_sha256 options) content
    then (Normal tt,
          mkWorld (<[key := mkStored content (opt_httpMetadata options)]> (storage w))
                  (uploads w) (upstreamURL w) (events w ++ [StoragePut key]))
    else (Throw (StoreError "checksum mismatch"), log (StoragePut key) w).
Proof.
  unfold storage_put, bind, record. simpl.
  destruct (sha256_matches _ _); reflexivity.
Qed.

Lemma requests_of_app l1 l2 :
  requests_of (l1 ++ l2) = (requests_of l1 ++ requests_of l2)%list.
Proof.
  induction l1 as [|e l1 IH]; simpl; [reflexivity |].
  destruct e; simpl; rewrite ?IH; reflexivity.
Qed.

(** With the upstream base already cached, a fetch is one call of the
    global [fetch], logged. *)
Lemma fetchFromRegistry_cached env url init w up u :
  upstreamURL w = Some up → URL_parse url = Some u →
  fetchFromRegistry env url init w =
    (fetch (requests_of (events w)) (upstream_request env up u init),
     log (Fetched (upstream_request env up u init)) w).
Proof.
  intros Hup Hu. unfold fetchFromRegistry, bind, get_world, new_URL, record, lift.
  simpl. rewrite Hup. simpl. rewrite Hu. reflexivity.
Qed.

(** A fetch never touches the bucket. *)
Lemma fetchFromRegistry_frame env url init w r w1 :
  fetchFromRegistry env url init w = (r, w1) →
  storage w1 = storage w ∧ uploads w1 = uploads w.
Proof.
  unfold fetchFromRegistry, bind, get_world, new_URL, record, lift, set_upstreamURL,
    ret, throw. simpl.
  destruct (upstreamURL w) as [up|]; simpl.
  - destruct (URL_parse url); simpl; intros [= <- <-]; auto.
  - destruct (URL_parse (UPSTREAM_REGISTRY env)); simpl.
    + destruct (URL_parse url); simpl; intros [= <- <-]; auto.
    + intros [= <- <-]; auto.
Qed.

(** A fetch that answered went through the global [fetch] exactly once,
    and left the upstream base cached. *)
Lemma fetchFromRegistry_Normal env url init w res w1 :
  fetchFromRegistry env url init w = (Normal res, w1) →
  ∃ up u,
    URL_parse url = Some u
    ∧ fetch (requests_of (events w)) (upstream_request env up u init) = Normal res
    ∧ w1 = mkWorld (storage w) (uploads w) (Some up)
                   (events w ++ [Fetched (upstream_request env up u init)]).
Proof.
  unfold fetchFromRegistry, bind, get_world, new_URL, record, lift, set_upstreamURL,
    ret, throw, log. simpl.
  destruct (upstreamURL w) as [up|] eqn:Hup; simpl.
  - destruct (URL_parse url) as [u|]; simpl; [|discriminate].
    intros [= Hf <-]. exists up, u. rewrite Hup. auto.
  - destruct (URL_parse (UPSTREAM_REGISTRY env)) as [up|]; simpl; [|discriminate].
    destruct (URL_parse url) as [u|]; simpl; [|discriminate].
    intros [= Hf <-]. exists up, u. auto.
Qed.

End WorkerFacts.

(** ** The tag resolver *)

Section TagResolver.

Context {P : Platform}.

Lemma resolveTagToDigest_cached env name tag w o :
  storage w !! tag_key name tag = Some o →
  resolveTagToDigest env name tag w =
    (Normal (parseDigest (stored_body o)), log (StorageGet (tag_key name tag)) w).
Proof.
  intros Ho. unfold resolveTagToDigest, bind. rewrite storage_get_run, Ho. reflexivity.
Qed.

(** On a miss with a successful upstream answer whose digest header is a
    non-empty string, the header is stored as it came and parsed only
    afterwards. *)
Lemma resolveTagToDigest_miss env name tag w res w1 v :
  storage w !! tag_key name tag = None →
  fetchFromRegistry env (manifest_url name tag) [] (log (StorageGet (tag_key name tag)) w)
    = (Normal res, w1) →
  ok res = true →
  Headers_get (headers res) "Docker-Content-Digest" = Some v →
  v ≠ EmptyString →
  resolveTagToDigest env name tag w =
    (Normal (parseDigest v),
     mkWorld (<[tag_key name tag := mkStored v (mkMeta None None)]> (storage w1))
             (uploads w1) (upstreamURL w1) (events w1 ++ [StoragePut (tag_key name tag)])).
Proof.
  intros Hmiss Hf Hok Hv Hne. unfold resolveTagToDigest, bind.
  rewrite storage_get_run, Hmiss, Hf, Hok. simpl. rewrite Hv.
  destruct v as [|c v]; [congruence |]. reflexivity.
Qed.

(** C9: when the store holds, under [<repository>/tags/<tag>], a text
    that does not parse as a digest, [resolveTagToDigest] returns null
    after one read of the store: no upstream fetch, no write, no delete.
    The store is left as it was, so the entry persists, and every later
    resolution of the tag fails in the same way. *)
Theorem resolveTagToDigest_invalid_cached env name tag w o :
  storage w !! tag_key name tag = Some o →
  parseDigest (stored_body o) = None →
  (∃ w1, resolveTagToDigest env name tag w = (Normal None, w1)
         ∧ storage w1 = storage w
         ∧ uploads w1 = uploads w
         ∧ events w1 = (events w ++ [StorageGet (tag_key name tag)])%list)
  ∧ ∀ n, ∃ wn,
      repeatedly n (resolveTagToDigest env name tag) w = (Normal (replicate n None), wn)
      ∧ storage wn = storage w
      ∧ uploads wn = uploads w
      ∧ events wn = (events w ++ replicate n (StorageGet (tag_key name tag)))%list.
Proof.
  intros Ho Hbad. split.
  - eexists. rewrite (resolveTagToDigest_cached _ _ _ _ _ Ho), Hbad. repeat split.
  - intros n. revert w Ho. induction n as [|n IH]; intros w Ho.
    + exists w. simpl. rewrite app_nil_r. repeat split.
    + destruct (IH (log (StorageGet (tag_key name tag)) w) Ho) as (wn & Hrun & Hs & Hu & He).
      exists wn. simpl. unfold bind.
      rewrite (resolveTagToDigest_cached _ _ _ _ _ Ho), Hbad, Hrun. simpl.
      rewrite Hs, Hu, He. simpl. rewrite <- app_assoc. repeat split.
Qed.

End TagResolver.

Lemma resolveTagToDigest_invalid_cached_witness :
  let P := Demo.platform (Demo.always (Demo.plain 200 [] None)) [] Demo.read_whole in
  let w := Demo.world_with "library/alpine/tags/latest" "not a digest" in
  (∃ w1, resolveTagToDigest Demo.env "library/alpine" "latest" w = (Normal None, w1)
         ∧ storage w1 = storage w
         ∧ uploads w1 = uploads w
         ∧ events w1 = (events w ++ [StorageGet (tag_key "library/alpine" "latest")])%list)
  ∧ ∀ n, ∃ wn,
      repeatedly n (resolveTagToDigest Demo.env "library/alpine" "latest") w
        = (Normal (replicate n None), wn)
      ∧ storage wn = storage w
      ∧ uploads wn = uploads w
      ∧ events wn = (events w ++ replicate n (StorageGet (tag_key "library/alpine" "latest")))%list.
Proof.
  intros P w.
  apply (resolveTagToDigest_invalid_cached Demo.env "library/alpine" "latest" w
           (mkStored "not a digest" (mkMeta None None))).
  - reflexivity.
  - reflexivity.
Defined.

(** C1, where the code differs: on a miss, with an upstream answer 200
    whose [Docker-Content-Digest] header is [md5:zzz], which does not
    parse as a digest, [resolveTagToDigest] returns null, as C1 says, but
    the header value has been written under [<repository>/tags/<tag>],
    which C1 excludes: the last thing done is that put. *)
Theorem resolveTagToDigest_stores_unparsable_header :
  let P := Demo.platform
             (Demo.always (Demo.plain 200 [("Docker-Content-Digest", "md5:zzz")] (Some "{}")))
             [] Demo.read_whole in
  let run := resolveTagToDigest Demo.env "library/alpine" "latest" Demo.empty_world in
  parseDigest "md5:zzz" = None
  ∧ run.1 = Normal None
  ∧ storage run.2 !! "library/alpine/tags/latest"
      = Some (mkStored "md5:zzz" (mkMeta None None))
  ∧ List.last (events run.2) (StorageGet EmptyString) = StoragePut "library/alpine/tags/latest".
Proof. vm_compute. repeat split. Qed.

(** ** The pull-through resolver *)

Section PullThrough.

Context {P : Platform}.


End PullThrough.


(** ** Headers *)

Lemma Headers_get_set_eq name name' value (h : Headers) :
  lowercase name = lowercase name' →
  Headers_get (Headers_set name value h) name' = Some value.
Proof. intros E. unfold Headers_get, Headers_set. rewrite E. apply lookup_insert_eq. Qed.

Lemma Headers_get_set_ne name name' value (h : Headers) :
  lowercase name ≠ lowercase name' →
  Headers_get (Headers_set name value h) name' = Headers_get h name'.
Proof. intros E. unfold Headers_get, Headers_set. now apply lookup_insert_ne. Qed.

Lemma Headers_get_set_opt_ne name name' value (h : Headers) :
  lowercase name ≠ lowercase name' →
  Headers_get (Headers_set_opt name value h) name' = Headers_get h name'.
Proof. destruct value; simpl; [apply Headers_get_set_ne | reflexivity]. Qed.

Ltac headers_get :=
  repeat first
    [ rewrite Headers_get_set_eq by reflexivity
    | rewrite Headers_get_set_ne by (vm_compute; discriminate)
    | rewrite Headers_get_set_opt_ne by (vm_compute; discriminate) ].

Lemma route_headers_content_range d :
  Headers_get (route_headers d) "Content-Range" = None.
Proof. unfold route_headers, Headers_of. simpl. headers_get. reflexivity. Qed.

Lemma route_headers_api_version d :
  Headers_get (route_headers d) "Docker-Distribution-API-Version" = Some "registry/2.0".
Proof. unfold route_headers, Headers_of. simpl. headers_get. reflexivity. Qed.

(** ** The HTTP response adapter *)

Section Adapter.

Context {P : Platform}.

Lemma storage_get_with_run key h w :
  storage_get_with key h w =
    (Normal (match storage w !! key with
             | Some o => let '(rng, b) := conditional_read h o in Some (view o rng b)
             | None => None
             end), log (StorageGet key) w).
Proof. reflexivity. Qed.

Lemma getObject_read_run req key hs w o rng b :
  method req ≠ "HEAD" →
  storage w !! key = Some o →
  conditional_read (reqHeaders req) o = (rng, b) →
  getObject req key hs w =
    (Normal (Some (newResponse b
       (mkInit (Some (match b with
                      | Some _ => if Headers_has (reqHeaders req) "range" then 206 else 200
                      | None => 304
                      end))
               None (Some (read_headers req (view o rng b) hs))))),
     log (StorageGet key) w).
Proof.
  intros Hm Ho Hr. unfold getObject.
  apply String.eqb_neq in Hm. rewrite Hm.
  unfold bind. rewrite storage_get_with_run, Ho, Hr. reflexivity.
Qed.

(** C5: for a read that is not a HEAD, of an object present in the
    store, the status is 206 when the request has a Range header and
    the store hands out a body, 200 when it hands out a body and there is
    no Range header, and 304 with no body when the store hands out none
    (the condition of the request did not hold).  When the store
    honoured the range, the answer has [Content-Range: bytes
    <offset>-<offset+length-1>/<total>] and a Content-Length equal to the
    length of the part; in every other case the Content-Length is the
    size of the whole object. *)
Theorem getObject_read_status_and_length req key hs w o rng b :
  method req ≠ "HEAD" →
  storage w !! key = Some o →
  conditional_read (reqHeaders req) o = (rng, b) →
  ∃ r, getObject req key hs w = (Normal (Some r), log (StorageGet key) w)
       ∧ body r = b
       ∧ (is_Some b → Headers_has (reqHeaders req) "Range" = true → status r = 206)
       ∧ (is_Some b → Headers_has (reqHeaders req) "Range" = false → status r = 200)
       ∧ (b = None → status r = 304)
       ∧ (∀ off len, honoured req rng off len →
            Headers_get (headers r) "Content-Range"
              = Some (content_range off len (stored_size o))
            ∧ Headers_get (headers r) "Content-Length" = Some (pretty len))
       ∧ ((¬ ∃ off len, honoured req rng off len) →
            Headers_get (headers r) "Content-Length" = Some (pretty (stored_size o))).
Proof.
  intros Hm Ho Hr. eexists. split; [exact (getObject_read_run _ _ _ _ _ _ _ Hm Ho Hr) |].
  change (Headers_has (reqHeaders req) "Range") with (Headers_has (reqHeaders req) "range").
  unfold honoured.
  change (Headers_has (reqHeaders req) "Range") with (Headers_has (reqHeaders req) "range").
  cbn [body status headers newResponse default from_option id init_status init_headers].
  split; [reflexivity |].
  split; [|split; [|split; [|split]]].
  - intros [c ->] ->. reflexivity.
  - intros [c ->] ->. reflexivity.
  - intros ->. reflexivity.
  - intros off len [Hh (r0 & -> & Hoff & Hlen)]. unfold read_headers.
    cbn [range view objectSize]. rewrite Hh. destruct r0 as [o' l' s']. simpl in Hoff, Hlen. subst o' l'.
    split; headers_get; reflexivity.
  - intros Hnot. unfold read_headers. cbn [range view objectSize].
    destruct (Headers_has (reqHeaders req) "range") eqn:Hh;
      [|headers_get; reflexivity].
    destruct rng as [[[off|] [len|] sfx]|]; try (headers_get; reflexivity).
    exfalso. apply Hnot. exists off, len. split; [reflexivity |].
    eexists. split; [reflexivity |]. split; reflexivity.
Qed.

(** C10, as amended: for a read that is not a HEAD, with a Range header,
    of an object present in the store, when the store reports no range:
    the status is still 206 if the store hands out a body, and 304 if it
    hands out none; the Content-Length is the size of the whole object;
    and the answer has a Content-Range only if the headers given to
    [getObject] had one, which the headers built by the routes do not. *)
Theorem getObject_range_not_reported req key hs w o b :
  method req ≠ "HEAD" →
  storage w !! key = Some o →
  Headers_has (reqHeaders req) "Range" = true →
  conditional_read (reqHeaders req) o = (None, b) →
  ∃ r, getObject req key hs w = (Normal (Some r), log (StorageGet key) w)
       ∧ (is_Some b → status r = 206)
       ∧ (b = None → status r = 304)
       ∧ Headers_get (headers r) "Content-Range" = Headers_get hs "Content-Range"
       ∧ (∀ d, hs = route_headers d → Headers_get (headers r) "Content-Range" = None)
       ∧ Headers_get (headers r) "Content-Length" = Some (pretty (stored_size o)).
Proof.
  intros Hm Ho Hh Hr. eexists. split; [exact (getObject_read_run _ _ _ _ _ _ _ Hm Ho Hr) |].
  change (Headers_has (reqHeaders req) "Range") with (Headers_has (reqHeaders req) "range") in Hh.
  cbn [body status headers newResponse default from_option id init_status init_headers].
  rewrite Hh.
  assert (Hcr : Headers_get (read_headers req (view o None b) hs) "Content-Range"
                = Headers_get hs "Content-Range").
  { unfold read_headers, writeHttpMetadata. cbn [range view objectSize]. rewrite Hh.
    headers_get. reflexivity. }
  split; [intros [content ->]; reflexivity |].
  split; [intros ->; reflexivity |].
  split; [exact Hcr |]. split.
  - intros d ->. rewrite Hcr. apply route_headers_content_range.
  - unfold read_headers. cbn [range view objectSize]. rewrite Hh. headers_get. reflexivity.
Qed.

End Adapter.

Lemma getObject_read_status_and_length_witness :
  let P := Demo.platform (Demo.always (Demo.plain 200 [] None)) [] (Demo.read_first 4) in
  let req := mkHonoRequest "GET" (Headers_of [("Range", "bytes=0-3")]) in
  let d := mkDigest sha256 "abc" "sha256:abc" in
  let w := Demo.world_with "library/alpine/blobs/sha256:abc" "hello world" in
  ∃ r, (getObject req "library/alpine/blobs/sha256:abc" (route_headers d) w).1
         = Normal (Some r)
       ∧ status r = 206
       ∧ body r = Some "hell"
       ∧ Headers_get (headers r) "Content-Range" = Some "bytes 0-3/11"
       ∧ Headers_get (headers r) "Content-Length" = Some "4".
Proof.
  intros P req d w.
  destruct (getObject_read_status_and_length req "library/alpine/blobs/sha256:abc"
              (route_headers d) w (mkStored "hello world" (mkMeta None None))
              (Some (mkRange (Some 0) (Some 4) None)) (Some "hell"))
    as (r & Hrun & Hbody & H206 & _ & _ & Hrange & _).
  - discriminate.
  - reflexivity.
  - reflexivity.
  - exists r. rewrite Hrun. split; [reflexivity |].
    split; [apply H206; [eexists; reflexivity | reflexivity] |].
    split; [exact Hbody |].
    apply (Hrange 0 4). split; [reflexivity |].
    eexists. split; [reflexivity |]. split; reflexivity.
Defined.

Lemma getObject_range_not_reported_witness :
  let P := Demo.platform (Demo.always (Demo.plain 200 [] None)) [] Demo.read_whole in
  let req := mkHonoRequest "GET" (Headers_of [("Range", "bytes=0-3")]) in
  let d := mkDigest sha256 "abc" "sha256:abc" in
  let w := Demo.world_with "library/alpine/blobs/sha256:abc" "hello world" in
  ∃ r, (getObject req "library/alpine/blobs/sha256:abc" (route_headers d) w).1
         = Normal (Some r)
       ∧ status r = 206
       ∧ Headers_get (headers r) "Content-Range" = None
       ∧ Headers_get (headers r) "Content-Length" = Some "11".
Proof.
  intros P req d w.
  destruct (getObject_range_not_reported req "library/alpine/blobs/sha256:abc"
              (route_headers d) w (mkStored "hello world" (mkMeta None None))
              (Some "hello world"))
    as (r & Hrun & H206 & _ & _ & Hnone & Hlen).
  - discriminate.
  - reflexivity.
  - reflexivity.
  - reflexivity.
  - exists r. rewrite Hrun. split; [reflexivity |].
    split; [apply H206; eexists; reflexivity |].
    split; [exact (Hnone d eq_refl) | exact Hlen].
Defined.

(** C10 as stated fails when the store hands out no body: a request with
    a Range header whose condition does not hold gets an object without
    body and without range, and the status is 304, not 206. *)
Lemma getObject_range_not_reported_no_body :
  let P := Demo.platform (Demo.always (Demo.plain 200 [] None)) [] Demo.read_not_modified in
  let req := mkHonoRequest "GET"
               (Headers_of [("Range", "bytes=0-3"); ("If-None-Match", "etag-11")]) in
  let d := mkDigest sha256 "abc" "sha256:abc" in
  let key := "library/alpine/blobs/sha256:abc" in
  let o := mkStored "hello world" (mkMeta None None) in
  let w := Demo.world_with key "hello world" in
  method req ≠ "HEAD"
  ∧ Headers_has (reqHeaders req) "Range" = true
  ∧ storage w !! key = Some o
  ∧ (conditional_read (reqHeaders req) o).1 = None
  ∧ ∃ r, (getObject req key (route_headers d) w).1 = Normal (Some r)
         ∧ status r = 304
         ∧ status r ≠ 206.
Proof.
  intros P req d key o w.
  split; [discriminate |]. split; [reflexivity |]. split; [reflexivity |].
  split; [reflexivity |].
  eexists. split; [vm_compute; reflexivity |]. split; [reflexivity | discriminate].
Qed.

(** ** The import engine: blobs *)

Section BlobImport.

Context {P : Platform}.

Lemma reread_present key res w o :
  storage w !! key = Some o →
  reread key res w =
    (Normal (newResponseFrom (Some (stored_body o)) res), log (StorageGet key) w).
Proof. intros Ho. unfold reread, bind. rewrite storage_get_run, Ho. reflexivity. Qed.

Lemma storage_createMultipartUpload_run key options w :
  storage_createMultipartUpload key options w =
    (Normal (List.length (uploads w)),
     mkWorld (storage w)
             (uploads w ++ [mkUpload key (opt_httpMetadata options) [] Open])
             (upstreamURL w)
             (events w ++ [StorageCreateMultipartUpload key (List.length (uploads w))])).
Proof. reflexivity. Qed.

Lemma upload_uploadPart_run id n content w u :
  uploads w !! id = Some u → upload_state u = Open →
  upload_uploadPart id n content w =
    (Normal (mkPart n (etag_of content)),
     mkWorld (storage w)
             (<[id := mkUpload (upload_key u) (upload_metadata u)
                        (upload_parts u ++ [(n, content)]) Open]> (uploads w))
             (upstreamURL w)
             (events w ++ [UploadPart id n])).
Proof.
  intros Hu Hs. unfold upload_uploadPart, open_upload, bind, record, get_world. simpl.
  rewrite Hu, Hs. reflexivity.
Qed.

Lemma upload_complete_run id parts w u content :
  uploads w !! id = Some u → upload_state u = Open →
  assemble (upload_parts u) parts = Some content →
  upload_complete id parts w =
    (Normal tt,
     mkWorld (<[upload_key u := mkStored content (upload_metadata u)]> (storage w))
             (<[id := mkUpload (upload_key u) (upload_metadata u)
                        (upload_parts u) Completed]> (uploads w))
             (upstreamURL w)
             (events w ++ [UploadComplete id])).
Proof.
  intros Hu Hs Ha. unfold upload_complete, open_upload, bind, record, get_world. simpl.
  rewrite Hu, Hs. simpl. rewrite Ha. reflexivity.
Qed.

Lemma upload_abort_run id w u :
  uploads w !! id = Some u → upload_state u = Open →
  upload_abort id w =
    (Normal tt,
     mkWorld (storage w)
             (<[id := mkUpload (upload_key u) (upload_metadata u)
                        (upload_parts u) Aborted]> (uploads w))
             (upstreamURL w)
             (events w ++ [UploadAbort id])).
Proof.
  intros Hu Hs. unfold upload_abort, open_upload, bind, record, get_world. simpl.
  rewrite Hu, Hs. reflexivity.
Qed.

Lemma part_body_snoc_eq n content uploaded :
  part_body n (uploaded ++ [(n, content)]) = Some content.
Proof.
  induction uploaded as [|[m b] rest IH]; simpl.
  - now rewrite Z.eqb_refl.
  - now rewrite IH.
Qed.

Lemma part_body_snoc_is_Some n m content uploaded :
  is_Some (part_body n uploaded) → is_Some (part_body n (uploaded ++ [(m, content)])).
Proof.
  induction uploaded as [|[m' b] rest IH]; simpl.
  - intros [? [=]].
  - destruct (part_body n rest) eqn:E.
    + intros _. destruct (IH (ltac:(eauto))) as [x ->]. eauto.
    + destruct (m' =? n); [|intros [? [=]]]. intros _.
      destruct (part_body n (rest ++ [(m, content)])); eauto.
Qed.

Lemma part_body_app n l1 l2 :
  part_body n (l1 ++ l2) =
    match part_body n l2 with
    | Some b => Some b
    | None => part_body n l1
    end.
Proof.
  induction l1 as [|[m b] l1 IH]; simpl.
  - destruct (part_body n l2); reflexivity.
  - rewrite IH. destruct (part_body n l2); reflexivity.
Qed.

Lemma part_body_absent n received : n ∉ received.*1 → part_body n received = None.
Proof.
  induction received as [|[m b] rest IH]; simpl; [reflexivity |].
  intros [Hne Hrest]%not_elem_of_cons. rewrite (IH Hrest).
  destruct (m =? n) eqn:E; [|reflexivity]. apply Z.eqb_eq in E. congruence.
Qed.

(** Completing with the tokens of parts whose numbers are distinct puts
    their bodies together in the order of the tokens. *)
Lemma assemble_uploaded received : ∀ earlier,
  NoDup received.*1 →
  assemble (earlier ++ received) (part_tokens received) = Some (concatenated received.*2).
Proof.
  induction received as [|[n b] rest IH]; intros earlier Hnd; [reflexivity |].
  apply NoDup_cons in Hnd as [Hn Hnd]. cbn [fst] in Hn.
  change (assemble (earlier ++ (n, b) :: rest) (part_tokens ((n, b) :: rest)))
    with (match part_body n (earlier ++ (n, b) :: rest),
                assemble (earlier ++ (n, b) :: rest) (part_tokens rest) with
          | Some b', Some bs => Some (b' +:+ bs)
          | _, _ => None
          end).
  rewrite part_body_app. cbn [part_body]. rewrite (part_body_absent _ _ Hn), Z.eqb_refl.
  replace (earlier ++ (n, b) :: rest) with ((earlier ++ [(n, b)]) ++ rest)
    by (rewrite <- app_assoc; reflexivity).
  rewrite (IH _ Hnd). reflexivity.
Qed.

Lemma parts_answered_length reqs indices : ∀ bodies before,
  parts_answered before reqs indices bodies →
  List.length bodies = List.length indices.
Proof.
  induction indices as [|idx rest IH]; intros [|b bodies] before; simpl; try tauto.
  intros [_ H]. f_equal. exact (IH _ _ H).
Qed.

Lemma parts_answered_succeed reqs indices : ∀ bodies before,
  parts_answered before reqs indices bodies → parts_succeed before reqs indices.
Proof.
  induction indices as [|idx rest IH]; intros [|b bodies] before; simpl; try tauto.
  intros [(r & Hf & Hok & Hb) H]. split; [eauto | eauto].
Qed.

(** The parts loop over [l1 ++ l2] is the loop over [l1] followed by the
    loop over [l2]. *)
Lemma import_parts_app env name d id l1 l2 : ∀ parts w,
  import_parts env name d id (l1 ++ l2) parts w =
    bind (import_parts env name d id l1 parts) (import_parts env name d id l2) w.
Proof.
  induction l1 as [|i l1 IH]; intros parts w; simpl.
  - reflexivity.
  - unfold bind.
    destruct (fetchFromRegistry _ _ _ w) as [[r|e|] w1]; try reflexivity.
    destruct (ok r), (body r); try reflexivity.
    destruct (upload_uploadPart _ _ _ w1) as [[p|e|] w2]; try reflexivity.
    rewrite IH. reflexivity.
Qed.

Section Parts.

Variables (env : Env) (name : string) (d : Digest) (id : nat) (up u0 : URL).
Hypothesis Hu0 : URL_parse (blob_url name d) = Some u0.

Let reqs : Z → Request := part_request env up u0.

Lemma import_parts_step idx rest parts w r :
  upstreamURL w = Some up →
  fetch (requests_of (events w)) (reqs idx) = Normal r →
  import_parts env name d id (idx :: rest) parts w =
    match ok r, body r with
    | true, Some content =>
        bind (upload_uploadPart id (idx + 1) content)
             (λ part, import_parts env name d id rest (parts ++ [part]))
             (log (Fetched (reqs idx)) w)
    | _, _ => (Throw (FailedToFetchPart idx (status r) (statusText r)),
               log (Fetched (reqs idx)) w)
    end.
Proof.
  intros Hup Hf. simpl. unfold bind at 1.
  rewrite (fetchFromRegistry_cached _ _ _ _ _ _ Hup Hu0).
  fold (part_request env up u0 idx). fold reqs. rewrite Hf.
  destruct (ok r), (body r); reflexivity.
Qed.

(** The parts loop when every part succeeds. *)
Lemma import_parts_success l : ∀ w parts upl before,
  upstreamURL w = Some up →
  uploads w !! id = Some upl → upload_state upl = Open →
  requests_of (events w) = before →
  parts_succeed before reqs l →
  Forall (λ p, is_Some (part_body (partNumber p) (upload_parts upl))) parts →
  ∃ parts' upl' w',
    import_parts env name d id l parts w = (Normal parts', w')
    ∧ storage w' = storage w
    ∧ upstreamURL w' = Some up
    ∧ uploads w' = <[id := upl']> (uploads w)
    ∧ upload_state upl' = Open
    ∧ upload_key upl' = upload_key upl
    ∧ upload_metadata upl' = upload_metadata upl
    ∧ Forall (λ p, is_Some (part_body (partNumber p) (upload_parts upl'))) parts'
    ∧ events w' = (events w ++ part_events id reqs l)%list
    ∧ requests_of (events w') = (before ++ map reqs l)%list.
Proof.
  induction l as [|idx rest IH]; intros w parts upl before Hup Hupl Hopen Hbefore Hok Hparts.
  - exists parts, upl, w. simpl. rewrite !app_nil_r, list_insert_id by assumption.
    repeat split; auto.
  - destruct Hok as [(r & content & Hf & Hr & Hb) Hrest].
    rewrite <- Hbefore in Hf.
    rewrite (import_parts_step _ _ _ _ _ Hup Hf), Hr, Hb.
    unfold bind. rewrite (upload_uploadPart_run _ _ _ _ upl) by assumption.
    set (upl2 := mkUpload (upload_key upl) (upload_metadata upl)
                   (upload_parts upl ++ [(idx + 1, content)]) Open).
    set (w2 := mkWorld _ _ _ _).
    pose proof (lookup_lt_Some _ _ _ Hupl) as Hlt.
    destruct (IH w2 (parts ++ [mkPart (idx + 1) (etag_of content)]) upl2
                (before ++ [reqs idx])%list)
      as (parts' & upl' & w' & Hrun & Hs & Hup' & Hups & Hst & Hk & Hm & Hall & Hev & Hreq).
    + exact Hup.
    + subst w2. simpl. now apply list_lookup_insert_eq.
    + reflexivity.
    + subst w2. simpl. rewrite <- app_assoc, requests_of_app, requests_of_app. simpl.
      now rewrite Hbefore.
    + exact Hrest.
    + apply Forall_app. split.
      * eapply Forall_impl; [exact Hparts |]. intros p Hp. simpl.
        now apply part_body_snoc_is_Some.
      * constructor; [|constructor]. simpl. rewrite part_body_snoc_eq. eauto.
    + exists parts', upl', w'. rewrite Hrun.
      split; [reflexivity |]. split; [exact Hs |]. split; [exact Hup' |].
      split; [rewrite Hups; subst w2; simpl; now rewrite list_insert_insert_eq |].
      split; [exact Hst |]. split; [exact Hk |]. split; [exact Hm |].
      split; [exact Hall |].
      split; [rewrite Hev; subst w2; simpl; now rewrite <- !app_assoc |].
      rewrite Hreq. simpl. now rewrite <- app_assoc.
Qed.

(** The parts loop when every part is answered: what the bucket has
    received and the tokens collected. *)
Lemma import_parts_answered l : ∀ bodies w parts upl before,
  upstreamURL w = Some up →
  uploads w !! id = Some upl → upload_state upl = Open →
  requests_of (events w) = before →
  parts_answered before reqs l bodies →
  ∃ w',
    import_parts env name d id l parts w
      = (Normal (parts ++ part_tokens (uploaded_parts l bodies)), w')
    ∧ storage w' = storage w
    ∧ upstreamURL w' = Some up
    ∧ uploads w' = <[id := mkUpload (upload_key upl) (upload_metadata upl)
                             (upload_parts upl ++ uploaded_parts l bodies) Open]> (uploads w)
    ∧ events w' = (events w ++ part_events id reqs l)%list.
Proof.
  induction l as [|idx rest IH]; intros [|content bodies] w parts upl before
    Hup Hupl Hopen Hbefore Hok; try (simpl in Hok; tauto).
  - exists w. simpl. rewrite !app_nil_r. split; [reflexivity |].
    split; [reflexivity |]. split; [exact Hup |]. split; [|reflexivity].
    symmetry. apply list_insert_id. rewrite Hupl. f_equal.
    destruct upl; simpl in *; congruence.
  - destruct Hok as [(r & Hf & Hr & Hb) Hrest].
    rewrite <- Hbefore in Hf.
    rewrite (import_parts_step _ _ _ _ _ Hup Hf), Hr, Hb.
    unfold bind. rewrite (upload_uploadPart_run _ _ _ _ upl) by assumption.
    set (upl2 := mkUpload (upload_key upl) (upload_metadata upl)
                   (upload_parts upl ++ [(idx + 1, content)]) Open).
    set (w2 := mkWorld _ _ _ _).
    pose proof (lookup_lt_Some _ _ _ Hupl) as Hlt.
    destruct (IH bodies w2 (parts ++ [mkPart (idx + 1) (etag_of content)]) upl2
                (before ++ [reqs idx])%list)
      as (w' & Hrun & Hs & Hup' & Hups & Hev).
    + exact Hup.
    + subst w2. simpl. now apply list_lookup_insert_eq.
    + reflexivity.
    + subst w2. simpl. rewrite <- app_assoc, requests_of_app, requests_of_app. simpl.
      now rewrite Hbefore.
    + exact Hrest.
    + exists w'. rewrite Hrun.
      split; [rewrite <- app_assoc; reflexivity |]. split; [exact Hs |].
      split; [exact Hup' |].
      split; [rewrite Hups; subst w2 upl2; simpl; rewrite list_insert_insert_eq, <- app_assoc;
              reflexivity |].
      rewrite Hev. subst w2. simpl. now rewrite <- !app_assoc.
Qed.

(** The parts loop when part [j] is the first to fail. *)
Lemma import_parts_failure l j rest r : ∀ w parts upl before,
  upstreamURL w = Some up →
  uploads w !! id = Some upl → upload_state upl = Open →
  requests_of (events w) = before →
  parts_succeed before reqs l →
  fetch (before ++ map reqs l) (reqs j) = Normal r →
  ok r = false ∨ body r = None →
  Forall (λ p, is_Some (part_body (partNumber p) (upload_parts upl))) parts →
  ∃ upl' w',
    import_parts env name d id (l ++ j :: rest) parts w
      = (Throw (FailedToFetchPart j (status r) (statusText r)), w')
    ∧ storage w' = storage w
    ∧ upstreamURL w' = Some up
    ∧ uploads w' = <[id := upl']> (uploads w)
    ∧ upload_state upl' = Open
    ∧ events w' = (events w ++ part_events id reqs l ++ [Fetched (reqs j)])%list.
Proof.
  intros w parts upl before Hup Hupl Hopen Hbefore Hok Hf Hbad Hparts.
  destruct (import_parts_success l w parts upl before Hup Hupl Hopen Hbefore Hok Hparts)
    as (parts' & upl' & w' & Hrun & Hs & Hup' & Hups & Hst & _ & _ & _ & Hev & Hreq).
  rewrite import_parts_app. unfold bind at 1. rewrite Hrun.
  rewrite <- Hreq in Hf.
  rewrite (import_parts_step _ _ _ _ _ Hup' Hf).
  exists upl'. eexists. split.
  - destruct Hbad as [-> | ->]; [reflexivity | destruct (ok r); reflexivity].
  - simpl. rewrite Hs, Hup', Hups, Hev, <- app_assoc. repeat split; auto.
Qed.

End Parts.

End BlobImport.

Lemma part_count_is_ceiling n :
  (part_count n - 1) * partSize < n ≤ part_count n * partSize.
Proof.
  unfold part_count.
  assert (Hps : 0 < partSize) by reflexivity.
  pose proof (Z.mul_div_le (- n) partSize Hps) as Hle.
  pose proof (Z.mul_succ_div_gt (- n) partSize Hps) as Hgt.
  generalize dependent partSize. intros ps. generalize ((- n) `div` ps). intros q. nia.
Qed.

Lemma seqZ_snoc_cons k j :
  0 ≤ j < k → seqZ 0 k = seqZ 0 j ++ j :: seqZ (j + 1) (k - j - 1).
Proof.
  intros Hj. replace k with (j + (k - j)) at 1 by lia.
  rewrite seqZ_app by lia. f_equal.
  rewrite seqZ_cons by lia. replace (0 + j) with j by lia.
  replace (Z.succ j) with (j + 1) by lia. replace (Z.pred (k - j)) with (k - j - 1) by lia.
  reflexivity.
Qed.

Section BlobImportTheorems.

Context {P : Platform}.

(** C8: when the upstream answers the blob request 2xx with a body, and
    the Content-Length header is missing (read as 0) or is a number at
    most 262144000 (250 MiB itself included: the test is a strict
    [>]), [importBlob] writes the blob with one [put] and starts no
    multipart upload: the uploads of the bucket are as before, and the
    only things done after the fetch are the put and, when the bucket
    accepted it, the re-read. *)
Theorem importBlob_single_put env name d w res content w1 :
  fetchFromRegistry env (blob_url name d) [] w = (Normal res, w1) →
  ok res = true →
  body res = Some content →
  length_at_most res 262144000 →
  let key := blob_key name d in
  importBlob env name d w =
    if sha256_matches (hash d) content
    then (Normal (newResponseFrom (Some content) res),
          mkWorld (<[key := mkStored content (opt_httpMetadata (put_options d res))]> (storage w))
                  (uploads w) (upstreamURL w1)
                  (events w1 ++ [StoragePut key; StorageGet key]))
    else (Throw (StoreError "checksum mismatch"),
          mkWorld (storage w) (uploads w) (upstreamURL w1) (events w1 ++ [StoragePut key])).
Proof.
  intros Hf Hok Hbody Hlen key.
  destruct (fetchFromRegistry_frame _ _ _ _ _ _ Hf) as [Hs Hu].
  unfold importBlob, bind at 1. rewrite Hf, Hok, Hbody. fold key.
  assert (Hput :
    match contentLength_of res with
    | Num contentLength =>
        if partSize <? contentLength
        then upload <- storage_createMultipartUpload key (put_options d res) ;;
             import_multipart env name d upload contentLength
        else storage_put key content (put_options d res)
    | NaN => storage_put key content (put_options d res)
    end = storage_put key content (put_options d res)).
  { unfold contentLength_of.
    change (Headers_get (headers res) "content-length")
      with (Headers_get (headers res) "Content-Length").
    destruct Hlen as [-> | (v & n & -> & -> & Hn)].
    - reflexivity.
    - replace (partSize <? n) with false; [reflexivity |].
      symmetry. apply Z.ltb_ge. unfold partSize. lia. }
  rewrite Hput. unfold bind. rewrite storage_put_run. simpl.
  destruct (sha256_matches (hash d) content).
  - erewrite reread_present by (simpl; apply lookup_insert_eq).
    unfold log. simpl. rewrite Hs, Hu, <- app_assoc. reflexivity.
  - unfold log. simpl. rewrite Hs, Hu. reflexivity.
Qed.

(** [importBlob] is entered only after a miss: [getObject] answers null
    exactly when nothing is stored under the key (the other caller,
    [import_blob_unless_stored], tests the key with [head]). *)
Lemma getObject_null req key hs w w' :
  getObject req key hs w = (Normal None, w') →
  storage w' !! key = None ∧ storage w' = storage w.
Proof.
  unfold getObject. destruct (String.eqb (method req) "HEAD").
  - rewrite bind_run, storage_head_run.
    destruct (storage w !! key) eqn:Hk; [discriminate |]. intros [= <-]. auto.
  - rewrite bind_run, storage_get_with_run.
    destruct (storage w !! key) as [o|] eqn:Hk.
    + destruct (conditional_read (reqHeaders req) o). discriminate.
    + intros [= <-]. auto.
Qed.

(** C2: when the upstream answers the blob request 2xx with a body and a
    Content-Length [n] above the part size of 250 MiB, [importBlob]
    starts a multipart upload and fetches the parts in ascending order,
    part [i] with the range [bytes=i*partSize-((i+1)*partSize-1)].  The
    number [k] of parts is the ceiling of [n / partSize].  When all [k]
    ranged requests are answered 2xx with a body, each part is uploaded
    after its fetch, as part [i + 1] with the body of the answer to the
    request for [i]; the upload is completed after the last part with
    the tokens of all [k] parts, so that the object stored under the
    blob key is the bodies of the parts one after the other, with the
    metadata of the first answer, and the result is that object with the
    status and headers of the first answer.  When part [j] is the first whose
    answer is not 2xx or has no body, the import throws after the upload
    has been aborted: no completion was attempted, and the store holds
    exactly the objects it held before, so that no object is visible
    under the blob key, which was free when [importBlob] was entered. *)
Theorem importBlob_multipart env name d w res content w1 v n :
  fetchFromRegistry env (blob_url name d) [] w = (Normal res, w1) →
  ok res = true →
  body res = Some content →
  Headers_get (headers res) "Content-Length" = Some v →
  Number v = Num n →
  partSize < n →
  let key := blob_key name d in
  let id := List.length (uploads w) in
  let k := part_count n in
  let before := requests_of (events w1) in
  ∃ up u,
    URL_parse (blob_url name d) = Some u
    ∧ upstreamURL w1 = Some up
    ∧ let reqs := part_request env up u in
      (∀ i, Headers_get (requestHeaders (reqs i)) "Range" = Some (part_range i))
      ∧ (k - 1) * partSize < n ≤ k * partSize
      ∧ (∀ bodies,
           parts_answered before reqs (seqZ 0 k) bodies →
           let metadata := opt_httpMetadata (put_options d res) in
           ∃ w',
             importBlob env name d w
               = (Normal (newResponseFrom (Some (concatenated bodies)) res), w')
             ∧ events w' =
                 events w1 ++ [StorageCreateMultipartUpload key id]
                   ++ part_events id reqs (seqZ 0 k)
                   ++ [UploadComplete id; StorageGet key]
             ∧ uploads w' !! id
                 = Some (mkUpload key metadata (uploaded_parts (seqZ 0 k) bodies) Completed)
             ∧ storage w' = <[key := mkStored (concatenated bodies) metadata]> (storage w))
      ∧ (∀ j r,
           0 ≤ j < k →
           parts_succeed before reqs (seqZ 0 j) →
           fetch (before ++ map reqs (seqZ 0 j)) (reqs j) = Normal r →
           ok r = false ∨ body r = None →
           ∃ w',
             importBlob env name d w
               = (Throw (FailedToFetchPart j (status r) (statusText r)), w')
             ∧ events w' =
                 events w1 ++ [StorageCreateMultipartUpload key id]
                   ++ part_events id reqs (seqZ 0 j)
                   ++ [Fetched (reqs j); UploadAbort id]
             ∧ (∃ upl, uploads w' !! id = Some upl ∧ upload_state upl = Aborted)
             ∧ storage w' = storage w
             ∧ (storage w !! key = None → storage w' !! key = None)).
Proof.
  intros Hf Hok Hbody Hv Hn Hbig key id k before.
  destruct (fetchFromRegistry_frame _ _ _ _ _ _ Hf) as [Hs Hu].
  destruct (fetchFromRegistry_Normal _ _ _ _ _ _ Hf) as (up & u & Hparse & _ & Hw1).
  assert (Hup : upstreamURL w1 = Some up) by (rewrite Hw1; reflexivity).
  exists up, u. split; [exact Hparse |]. split; [exact Hup |]. intros reqs.
  split; [intros i; reflexivity |].
  split; [apply part_count_is_ceiling |].
  (* the world once the multipart upload is created *)
  set (options := put_options d res).
  set (upl0 := mkUpload key (opt_httpMetadata options) [] Open).
  set (w2 := mkWorld (storage w1) (uploads w1 ++ [upl0]) (upstreamURL w1)
               (events w1 ++ [StorageCreateMultipartUpload key (List.length (uploads w1))])).
  assert (Hid : List.length (uploads w1) = id) by (unfold id; now rewrite Hu).
  assert (Hstart : importBlob env name d w =
            bind (import_multipart env name d id n) (λ _, reread key res) w2).
  { unfold importBlob, bind at 1. rewrite Hf, Hok, Hbody. fold key. fold options.
    unfold contentLength_of.
    change (Headers_get (headers res) "content-length")
      with (Headers_get (headers res) "Content-Length").
    rewrite Hv, Hn. apply Z.ltb_lt in Hbig. rewrite Hbig.
    unfold bind. rewrite storage_createMultipartUpload_run. fold upl0. fold w2.
    rewrite Hid. reflexivity. }
  assert (Hup2 : upstreamURL w2 = Some up) by exact Hup.
  assert (Hupl2 : uploads w2 !! id = Some upl0).
  { subst w2. simpl. rewrite <- Hid. apply list_lookup_middle. reflexivity. }
  assert (Hbefore2 : requests_of (events w2) = before).
  { subst w2. simpl. rewrite requests_of_app. simpl. apply app_nil_r. }
  assert (Hlt : (id < List.length (uploads w2))%nat) by (eapply lookup_lt_Some; eauto).
  split.
  - (* every part succeeds *)
    intros bodies Hall metadata.
    destruct (import_parts_answered env name d id up u Hparse (seqZ 0 k) bodies w2 [] upl0
                before Hup2 Hupl2 eq_refl Hbefore2 Hall)
      as (w3 & Hrun & Hs3 & Hup3 & Hups3 & Hev3).
    set (received := uploaded_parts (seqZ 0 k) bodies) in *.
    pose proof (parts_answered_length _ _ _ _ Hall) as Hlen.
    assert (Hnumbers : received.*1 = (λ idx, idx + 1) <$> seqZ 0 k).
    { apply fst_zip. rewrite length_fmap. lia. }
    assert (Hbodies : received.*2 = bodies).
    { apply snd_zip. rewrite length_fmap. lia. }
    assert (Hwhole : assemble received (part_tokens received) = Some (concatenated bodies)).
    { rewrite <- Hbodies. apply (assemble_uploaded received []).
      rewrite Hnumbers. apply NoDup_fmap_2; [intros x y; lia | apply NoDup_seqZ]. }
    set (upl3 := mkUpload key (opt_httpMetadata options) received Open).
    assert (Hupl3 : uploads w3 !! id = Some upl3).
    { rewrite Hups3. now apply list_lookup_insert_eq. }
    rewrite Hstart. unfold bind, import_multipart, try_catch, bind.
    fold (part_indices n). unfold part_indices. fold k. rewrite Hrun.
    change ([] ++ part_tokens received) with (part_tokens received).
    rewrite (upload_complete_run id _ w3 upl3 (concatenated bodies) Hupl3 eq_refl Hwhole).
    cbn [upload_key upload_metadata upload_parts upl3].
    erewrite reread_present by (simpl; apply lookup_insert_eq).
    eexists. split; [reflexivity |]. simpl.
    split; [rewrite Hev3; subst w2; simpl; fold reqs; rewrite Hid, <- !app_assoc; reflexivity |].
    split.
    + apply list_lookup_insert_eq. rewrite Hups3, length_insert. exact Hlt.
    + rewrite Hs3. subst w2. simpl. rewrite Hs. reflexivity.
  - (* part j is the first to fail *)
    intros j r Hj Hprefix Hfj Hbad.
    destruct (import_parts_failure env name d id up u Hparse (seqZ 0 j) j
                (seqZ (j + 1) (k - j - 1)) r w2 [] upl0 before
                Hup2 Hupl2 eq_refl Hbefore2 Hprefix Hfj Hbad (List.Forall_nil _))
      as (upl & w3 & Hrun & Hs3 & Hup3 & Hups3 & Hst3 & Hev3).
    assert (Hupl3 : uploads w3 !! id = Some upl).
    { rewrite Hups3. now apply list_lookup_insert_eq. }
    rewrite Hstart. unfold bind, import_multipart, try_catch, bind.
    unfold part_indices. fold k. rewrite (seqZ_snoc_cons k j Hj), Hrun.
    rewrite (upload_abort_run _ _ _ Hupl3 Hst3). unfold throw.
    eexists. split; [reflexivity |]. simpl.
    split; [rewrite Hev3; subst w2; simpl; fold reqs; rewrite Hid, <- !app_assoc; reflexivity |].
    split.
    + eexists. split; [apply list_lookup_insert_eq; rewrite Hups3, length_insert; exact Hlt |].
      reflexivity.
    + assert (Hsame : storage w3 = storage w) by (rewrite Hs3; subst w2; simpl; exact Hs).
      split; [exact Hsame |]. intros Hnone. now rewrite Hsame.
Qed.

End BlobImportTheorems.

Lemma importBlob_single_put_witness :
  let P := Demo.platform
             (Demo.always (Demo.plain 200 [("Content-Length", "262144000")] (Some "layer")))
             [] Demo.read_whole in
  let d := mkDigest sha256 "abc" "sha256:abc" in
  let run := importBlob Demo.env "library/alpine" d Demo.empty_world in
  uploads run.2 = []
  ∧ storage run.2 !! "library/alpine/blobs/sha256:abc" = Some (mkStored "layer" (mkMeta None None))
  ∧ List.tail (events run.2)
      = [StoragePut "library/alpine/blobs/sha256:abc";
         StorageGet "library/alpine/blobs/sha256:abc"].
Proof.
  intros P d run. subst run.
  set (first := Demo.plain 200 [("Content-Length", "262144000")] (Some "layer")).
  set (w1 := (fetchFromRegistry Demo.env (blob_url "library/alpine" d) [] Demo.empty_world).2).
  rewrite (importBlob_single_put Demo.env "library/alpine" d Demo.empty_world first "layer" w1).
  - vm_compute. repeat split.
  - vm_compute. reflexivity.
  - reflexivity.
  - reflexivity.
  - right. exists "262144000", 262144000.
    split; [vm_compute; reflexivity | split; [vm_compute; reflexivity | lia]].
Defined.

Lemma importBlob_multipart_witness :
  let first := Demo.plain 200 [("Content-Length", "300000000")] (Some "layer") in
  let d := mkDigest sha256 "abc" "sha256:abc" in
  (let P := Demo.platform (Demo.ranged first (Demo.plain 206 [] (Some "chunk")) EmptyString)
              [] Demo.read_whole in
   ∃ w', importBlob Demo.env "library/alpine" d Demo.empty_world
           = (Normal (newResponseFrom (Some "chunkchunk") first), w')
         ∧ uploads w' !! 0%nat
             = Some (mkUpload "library/alpine/blobs/sha256:abc" (mkMeta None None)
                       [(1, "chunk"); (2, "chunk")] Completed)
         ∧ storage w' !! "library/alpine/blobs/sha256:abc"
             = Some (mkStored "chunkchunk" (mkMeta None None)))
  ∧ (let P := Demo.platform
                (Demo.ranged first (Demo.plain 206 [] (Some "chunk")) "bytes=262144000-524287999")
                [] Demo.read_whole in
     ∃ w', importBlob Demo.env "library/alpine" d Demo.empty_world
             = (Throw (FailedToFetchPart 1 503 "Service Unavailable"), w')
           ∧ (∃ upl, uploads w' !! 0%nat = Some upl ∧ upload_state upl = Aborted)
           ∧ storage w' = ∅
           ∧ storage w' !! "library/alpine/blobs/sha256:abc" = None).
Proof.
  intros first d. split; intros P.
  - set (w1 := (fetchFromRegistry Demo.env (blob_url "library/alpine" d) []
                  Demo.empty_world).2).
    destruct (importBlob_multipart Demo.env "library/alpine" d Demo.empty_world first "layer" w1
                "300000000" 300000000)
      as (up & u & Hparse & Hup & _ & _ & Hdone & _).
    + vm_compute. reflexivity.
    + reflexivity.
    + reflexivity.
    + reflexivity.
    + vm_compute. reflexivity.
    + reflexivity.
    + vm_compute in Hparse. injection Hparse as <-.
      vm_compute in Hup. injection Hup as <-.
      destruct (Hdone ["chunk"; "chunk"]) as (w' & Hrun & _ & Hupl & Hstore).
      * split; [exists (Demo.plain 206 [] (Some "chunk")); repeat split |].
        split; [exists (Demo.plain 206 [] (Some "chunk")); repeat split | exact I].
      * exists w'. split; [exact Hrun |]. split; [exact Hupl |].
        rewrite Hstore. reflexivity.
  - set (w1 := (fetchFromRegistry Demo.env (blob_url "library/alpine" d) []
                  Demo.empty_world).2).
    destruct (importBlob_multipart Demo.env "library/alpine" d Demo.empty_world first "layer" w1
                "300000000" 300000000)
      as (up & u & Hparse & Hup & _ & _ & _ & Hfail).
    + vm_compute. reflexivity.
    + reflexivity.
    + reflexivity.
    + reflexivity.
    + vm_compute. reflexivity.
    + reflexivity.
    + vm_compute in Hparse. injection Hparse as <-.
      vm_compute in Hup. injection Hup as <-.
      destruct (Hfail 1 (mkResponse 503 "Service Unavailable" ∅ None))
        as (w' & Hrun & _ & Hupl & Hstore & Hkey).
      * split; [lia | vm_compute; reflexivity].
      * split; [|exact I]. exists (Demo.plain 206 [] (Some "chunk")), "chunk".
        repeat split.
      * vm_compute. reflexivity.
      * right. reflexivity.
      * exists w'. split; [exact Hrun |]. split; [exact Hupl |]. split; [exact Hstore |].
        apply Hkey. reflexivity.
Defined.

Example importBlob_two_parts :
  let P := Demo.platform
             (Demo.ranged (Demo.plain 200 [("Content-Length", "300000000")] (Some "layer"))
                          (Demo.plain 206 [] (Some "chunk"))
                          EmptyString)
             [] Demo.read_whole in
  let d := mkDigest sha256 "abc" "sha256:abc" in
  let run := importBlob Demo.env "library/alpine" d Demo.empty_world in
  storage run.2 !! "library/alpine/blobs/sha256:abc"
    = Some (mkStored "chunkchunk" (mkMeta None None))
  ∧ List.tail (events run.2)
      = [StorageCreateMultipartUpload "library/alpine/blobs/sha256:abc" 0;
         Fetched (part_request Demo.env
                    (mkURL "https:" "upstream.example" EmptyString "/mirror" EmptyString)
                    (mkURL "https:" "registry" EmptyString
                           "/v2/library/alpine/blobs/sha256:abc" EmptyString) 0);
         UploadPart 0 1;
         Fetched (part_request Demo.env
                    (mkURL "https:" "upstream.example" EmptyString "/mirror" EmptyString)
                    (mkURL "https:" "registry" EmptyString
                           "/v2/library/alpine/blobs/sha256:abc" EmptyString) 1);
         UploadPart 0 2;
         UploadComplete 0;
         StorageGet "library/alpine/blobs/sha256:abc"].
Proof. vm_compute. repeat split. Qed.

(** ** The import engine: manifests *)


(** A loop over descriptors that all carry a valid digest is the loop
    over their digests. *)
Lemma for_each_descriptors {S} invalid (k : Digest → M S unit) items ds :
  Forall2 (λ item d, descriptor_digest item = Some d) items ds →
  ∀ s, for_each (descriptor_step invalid k) items s = for_each k ds s.
Proof.
  induction 1 as [|item d items ds Hd _ IH]; intros s; simpl; [reflexivity |].
  rewrite !bind_run. unfold descriptor_step at 1. rewrite bind_run. unfold lift.
  unfold descriptor_digest in Hd.
  destruct (get_prop (Some item) "digest") as [v| |]; try discriminate.
  rewrite Hd. destruct (k d s) as [[[]|e|] s1]; try reflexivity. apply IH.
Qed.



Lemma is_index_truthy v : is_index_mediaType v = true → truthy v = true.
Proof.
  unfold is_index_mediaType, strict_eq_string.
  destruct v as [[| | |s| |]|]; try discriminate.
  intros [E|E]%orb_true_iff; apply String.eqb_eq in E; subst s; reflexivity.
Qed.

Lemma is_image_truthy v : is_image_mediaType v = true → truthy v = true.
Proof.
  unfold is_image_mediaType, strict_eq_string.
  destruct v as [[| | |s| |]|]; try discriminate.
  intros [E|E]%orb_true_iff; apply String.eqb_eq in E; subst s; reflexivity.
Qed.

Lemma is_image_not_index v : is_image_mediaType v = true → is_index_mediaType v = false.
Proof.
  unfold is_image_mediaType, is_index_mediaType, strict_eq_string.
  destruct v as [[| | |s| |]|]; try discriminate.
  intros [E|E]%orb_true_iff; apply String.eqb_eq in E; subst s; reflexivity.
Qed.

Section ManifestImport.

Context {P : Platform}.

(** The existence check of a blob: a stored blob is skipped after one
    [head], with no read, no fetch and no write. *)
Lemma import_blob_unless_stored_skip env name d w o :
  storage w !! blob_key name d = Some o →
  import_blob_unless_stored env name d w = (Normal tt, log (StorageHead (blob_key name d)) w).
Proof.
  intros Ho. unfold import_blob_unless_stored, bind. rewrite storage_head_run, Ho. reflexivity.
Qed.



(** [importAll] up to the dispatch on the media type. *)
Lemma importAll_parsed fuel env name d w res w1 text content mediaType :
  importManifest env name d w = (Normal res, w1) →
  ok res = true → body res = Some text → JSON_parse text = Some content →
  get_prop (Some content) "mediaType" = Normal mediaType →
  importAll (S fuel) env name d w =
    (if negb (truthy mediaType) then throw MissingMediaType
     else if is_index_mediaType mediaType then
       bind (lift (listed content "manifests"))
            (for_each (descriptor_step InvalidManifestDigest (importAll fuel env name)))
     else if is_image_mediaType mediaType then import_image env name content
     else throw (UnknownContent content)) w1.
Proof.
  intros Hm Hok Hb Hj Hmt. cbn [importAll]. rewrite bind_run, Hm, Hok. cbn [negb].
  rewrite bind_run. unfold Response_json. rewrite Hb, Hj. unfold ret at 1.
  rewrite bind_run. unfold lift at 1. rewrite Hmt.
  destruct (negb (truthy mediaType)); [reflexivity |].
  destruct (is_index_mediaType mediaType); [|reflexivity].
  rewrite !bind_run. unfold listed, lift.
  destruct (get_prop (Some content) "manifests") as [v|e|]; reflexivity.
Qed.

Lemma import_image_run env name content w cd :
  config_digest_value content = Normal cd →
  import_image env name content w =
    match parseDigest_value cd with
    | None => (Throw (InvalidConfigDigest cd), w)
    | Some d =>
        bind (import_blob_unless_stored env name d)
             (λ _, bind (lift (listed content "layers"))
                        (for_each (descriptor_step InvalidLayerDigest
                                     (import_blob_unless_stored env name))))
             w
    end.
Proof.
  unfold config_digest_value, import_image. intros Hc.
  rewrite bind_run. unfold lift at 1.
  destruct (get_prop (Some content) "config") as [config| |] eqn:Hconfig; try discriminate.
  rewrite bind_run. unfold lift at 1. rewrite Hc.
  destruct (parseDigest_value cd) as [d|]; [|reflexivity].
  rewrite !bind_run.
  destruct (import_blob_unless_stored env name d w) as [[[]|e|] w2]; try reflexivity.
  rewrite !bind_run. unfold listed, lift.
  destruct (get_prop (Some content) "layers") as [v|e|]; reflexivity.
Qed.

End ManifestImport.







Section ManifestImportTheorem.

Context {P : Platform}.


End ManifestImportTheorem.


(** An index with two platform manifests: both manifests, both config
    blobs and the layer end up in the store; the layer shared by the two
    images is fetched once, the second image finding it by the existence
    check. *)
Example importAll_index_example :
  IndexExample.run.1 = Normal tt
  ∧ dom (storage IndexExample.run.2)
      = list_to_set ["app/manifests/sha256:idx"; "app/manifests/sha256:m1";
                     "app/manifests/sha256:m2"; "app/blobs/sha256:c1";
                     "app/blobs/sha256:c2"; "app/blobs/sha256:layer"]
  ∧ IndexExample.blob_fetches IndexExample.run.2
      = ["/v2//mirror/app/blobs/sha256:c1"; "/v2//mirror/app/blobs/sha256:layer";
         "/v2//mirror/app/blobs/sha256:c2"].
Proof.
  split; [vm_compute; reflexivity |].
  split; [refine (bool_decide_eq_true_1 _ _) |]; vm_compute; reflexivity.
Qed.

(** Without enough fuel for the depth of the graph the run says so. *)
Example importAll_index_out_of_fuel :
  (@importAll IndexExample.platform 1 Demo.env "app" (mkDigest sha256 "idx" "sha256:idx")
     Demo.empty_world).1 = OutOfFuel.
Proof. vm_compute. reflexivity. Qed.

(** ** The API version header *)

Section ApiVersion.

Context {P : Platform}.

Lemma response_api_version bodyInit init : api_version (response bodyInit init).
Proof. unfold api_version, response. simpl. headers_get. reflexivity. Qed.

Lemma emptyResponse_api_version init : api_version (emptyResponse init).
Proof. apply response_api_version. Qed.

Lemma json_api_version data init : api_version (json data init).
Proof. apply response_api_version. Qed.

Lemma writeHttpMetadata_api_version obj hs :
  Headers_get (writeHttpMetadata obj hs) "Docker-Distribution-API-Version"
    = Headers_get hs "Docker-Distribution-API-Version".
Proof. unfold writeHttpMetadata. headers_get. reflexivity. Qed.

(** What [getObject] serves from the store on the two routes has the
    header, written by the route itself. *)
Lemma getObject_api_version req key d w r w' :
  getObject req key (route_headers d) w = (Normal (Some r), w') → api_version r.
Proof.
  unfold getObject. destruct (String.eqb (method req) "HEAD").
  - rewrite bind_run, storage_head_run.
    destruct (storage w !! key); [|discriminate]. intros [= <- _].
    apply emptyResponse_api_version.
  - rewrite bind_run, storage_get_with_run.
    destruct (storage w !! key) as [o|]; [|discriminate].
    destruct (conditional_read (reqHeaders req) o) as [rng b]. intros [= <- _].
    unfold api_version.
    cbn [body status headers newResponse default from_option id init_status init_headers].
    destruct (Headers_has (reqHeaders req) "range"), rng as [[[off|] [len|] sfx]|];
      cbn [range view objectSize]; headers_get;
      rewrite writeHttpMetadata_api_version; apply route_headers_api_version.
Qed.

Lemma fetchFromRegistry_from_upstream env url init w res w1 :
  fetchFromRegistry env url init w = (Normal res, w1) → from_upstream res.
Proof.
  intros (up & u & _ & Hf & _)%fetchFromRegistry_Normal.
  eexists _, _, res. split; [exact Hf |]. split; reflexivity.
Qed.

Lemma from_upstream_wrap bodyInit res :
  from_upstream res → from_upstream (newResponseFrom bodyInit res).
Proof. intros (h & q & x & Hf & Hs & Hh). exists h, q, x. auto. Qed.

(** The re-read that ends an import, whatever the bucket holds: the
    object wrapped with the status and headers of the upstream answer,
    or the bare 404 when nothing is found. *)
Lemma reread_kinds key res w r w' :
  reread key res w = (Normal r, w') → from_upstream res →
  from_upstream r ∨ r = not_found.
Proof.
  unfold reread. rewrite bind_run, storage_get_run.
  destruct (storage w !! key) as [o|]; intros [= <- _] Hres.
  - left. now apply from_upstream_wrap.
  - right. reflexivity.
Qed.

Lemma reread_absent key res w :
  storage w !! key = None → reread key res w = (Normal not_found, log (StorageGet key) w).
Proof. intros Hk. unfold reread. rewrite bind_run, storage_get_run, Hk. reflexivity. Qed.

Lemma bind_Normal_inv {S A B} (m : M S A) (k : A → M S B) s r s' :
  bind m k s = (Normal r, s') → ∃ a s1, m s = (Normal a, s1) ∧ k a s1 = (Normal r, s').
Proof.
  rewrite bind_run. destruct (m s) as [[a|e|] s1]; try discriminate. eauto.
Qed.

Lemma importManifest_kinds env name d w r w' :
  importManifest env name d w = (Normal r, w') → from_upstream r ∨ r = not_found.
Proof.
  unfold importManifest. intros (res & w1 & Hf & Hr)%bind_Normal_inv.
  apply fetchFromRegistry_from_upstream in Hf.
  destruct (ok res), (body res) as [content|]; try (injection Hr as <- _; now left).
  apply bind_Normal_inv in Hr as (? & w2 & _ & Hr). eapply reread_kinds; eauto.
Qed.

Lemma importBlob_kinds env name d w r w' :
  importBlob env name d w = (Normal r, w') → from_upstream r ∨ r = not_found.
Proof.
  unfold importBlob. intros (res & w1 & Hf & Hr)%bind_Normal_inv.
  apply fetchFromRegistry_from_upstream in Hf.
  destruct (ok res), (body res) as [content|]; try (injection Hr as <- _; now left).
  apply bind_Normal_inv in Hr as (? & w2 & _ & Hr). eapply reread_kinds; eauto.
Qed.

Lemma pullThroughRegistry_result {S} req
    (fromR2 : M S (option Response)) (fromRegistry : M S Response)
    (A B : Response → Prop) s r s' :
  (∀ s0 o s1, fromR2 s0 = (Normal (Some o), s1) → A o) →
  (∀ s0 x s1, fromRegistry s0 = (Normal x, s1) → B x) →
  pullThroughRegistry req fromR2 fromRegistry s = (Normal r, s') →
  A r ∨ B r ∨ r = BLOB_UNKNOWN_response.
Proof.
  intros HA HB. unfold pullThroughRegistry.
  destruct (String.eqb (method req) "HEAD"); rewrite bind_run;
    destruct (fromR2 s) as [[[o|]|e|] s1] eqn:H1; try discriminate;
    try (intros [= <- _]; left; eauto).
  - rewrite bind_run. destruct (fromRegistry s1) as [[x|e|] s2] eqn:H2; try discriminate.
    destruct (negb (ok x)); [intros [= <- _]; right; left; eauto |].
    rewrite bind_run. destruct (fromR2 s2) as [[[o|]|e|] s3] eqn:H3; try discriminate.
    + intros [= <- _]. left. eauto.
    + intros [= <- _]. right. right. reflexivity.
  - intros Hr. right. left. eauto.
Qed.

(** C6, as amended: every response the application returns is of one of
    four kinds.  It carries [Docker-Distribution-API-Version:
    registry/2.0], as do the JSON error answers of the three routes and
    every answer served from the store; or it has the status and headers
    of an answer of the upstream registry, passed through or wrapped
    around the object just stored; or it is the bare 404 that an import
    returns when its re-read finds nothing; or it was built by the
    framework, for [/], [/v2/], an unmatched route, and for an exception
    that escapes a handler, which [onError] answers.  The last two kinds
    do not carry the header, and the second carries it only when the
    upstream sent it. *)
Theorem app_response_kinds fuel route req env w :
  (∀ r w', app fuel route req env w = (Normal r, w') →
     api_version r ∨ from_upstream r ∨ r = not_found ∨ from_framework r)
  ∧ (∀ name reference r w',
       manifests_route req env name reference w = (Normal r, w')
       ∨ blobs_route req env name reference w = (Normal r, w')
       ∨ import_route fuel env name reference w = (Normal r, w') →
       api_version r ∨ from_upstream r ∨ r = not_found)
  ∧ (∀ e w', handler fuel route req env w = (Throw e, w') →
       app fuel route req env w = (Normal (onError e), w'))
  ∧ (∀ key res, storage w !! key = None →
       reread key res w = (Normal not_found, log (StorageGet key) w))
  ∧ (∀ r, r = not_found ∨ from_framework r →
       Headers_get (headers r) "Docker-Distribution-API-Version" = None)
  ∧ ((∀ history request res, fetch history request = Normal res → api_version res) →
     ∀ r w', app fuel route req env w = (Normal r, w') →
       api_version r ∨ r = not_found ∨ from_framework r).
Proof.
  assert (Hroutes : ∀ name reference r w',
    manifests_route req env name reference w = (Normal r, w')
    ∨ blobs_route req env name reference w = (Normal r, w')
    ∨ import_route fuel env name reference w = (Normal r, w') →
    api_version r ∨ from_upstream r ∨ r = not_found).
  { intros name reference r w' [Hr | [Hr | Hr]].
    - unfold manifests_route in Hr. rewrite bind_run in Hr.
      destruct (match parseTag reference with
                | Some tag => resolveTagToDigest env name tag
                | None => ret (parseDigest reference)
                end w) as [[[d|]|e|] w1]; try discriminate.
      + apply (pullThroughRegistry_result _ _ _ api_version
                 (λ x, from_upstream x ∨ x = not_found)) in Hr as [H | [H | ->]].
        * now left.
        * now right.
        * left. apply json_api_version.
        * intros s0 o s1. apply getObject_api_version.
        * intros s0 x s1. apply importManifest_kinds.
      + injection Hr as <- _. left. apply json_api_version.
    - unfold blobs_route in Hr. destruct (parseDigest reference) as [d|].
      + apply (pullThroughRegistry_result _ _ _ api_version
                 (λ x, from_upstream x ∨ x = not_found)) in Hr as [H | [H | ->]].
        * now left.
        * now right.
        * left. apply json_api_version.
        * intros s0 o s1. apply getObject_api_version.
        * intros s0 x s1. apply importBlob_kinds.
      + injection Hr as <- _. left. apply json_api_version.
    - unfold import_route in Hr. destruct (parseTag reference) as [tag|].
      + rewrite bind_run in Hr.
        destruct (fetchFromRegistry _ _ _ w) as [[res|e|] w1] eqn:Hf; try discriminate.
        apply fetchFromRegistry_from_upstream in Hf.
        destruct (negb (ok res)); [injection Hr as <- _; right; now left |].
        unfold try_catch in Hr.
        destruct (parseDigest _) as [d|].
        * rewrite bind_run in Hr.
          destruct (importAll fuel env name d w1) as [[[]|e|] w2].
          -- rewrite bind_run, storage_put_text_run in Hr. injection Hr as <- _.
             right. now left.
          -- injection Hr as <- _. left. apply json_api_version.
          -- discriminate.
        * injection Hr as <- _. left. apply json_api_version.
      + injection Hr as <- _. left. apply json_api_version. }
  assert (Hkinds : ∀ r w', app fuel route req env w = (Normal r, w') →
    api_version r ∨ from_upstream r ∨ r = not_found ∨ from_framework r).
  { intros r w'. unfold app, try_catch.
    destruct (handler fuel route req env w) as [[x|e|] w1] eqn:Hh.
    - intros [= <- <-]. destruct route as [| |name reference|name reference|name reference|];
        cbn [handler] in Hh.
      + injection Hh as <- _. do 3 right. left. eauto.
      + injection Hh as <- _. do 3 right. left. eauto.
      + destruct (Hroutes name reference x w1) as [H | [H | H]]; auto.
      + destruct (Hroutes name reference x w1) as [H | [H | H]]; auto.
      + destruct (Hroutes name reference x w1) as [H | [H | H]]; auto.
      + injection Hh as <- _. do 3 right. right. unfold notFound. eauto.
    - intros [= <- <-]. do 3 right. right. unfold onError. eauto.
    - discriminate. }
  split; [exact Hkinds |]. split; [exact Hroutes |]. split; [|split; [|split]].
  - intros e w' Hh. unfold app, try_catch. rewrite Hh. reflexivity.
  - intros key res. apply reread_absent.
  - intros r [-> | [[content ->] | (data & st & ->)]]; reflexivity.
  - intros Hup r w' Hr.
    destruct (Hkinds r w' Hr) as [H | [(h & q & x & Hf & _ & Hh) | [H | H]]]; auto.
    left. unfold api_version. rewrite Hh. exact (Hup h q x Hf).
Qed.

End ApiVersion.

Lemma app_response_kinds_witness :
  let P := Demo.platform (Demo.always (Demo.plain 404 [("Content-Type", "text/plain")] None))
             [] Demo.read_whole in
  let req := mkHonoRequest "GET" ∅ in
  let r := Demo.plain 404 [("Content-Type", "text/plain")] None in
  (app 0 (Blobs "library/alpine" "sha256:abc") req Demo.env Demo.empty_world).1 = Normal r
  ∧ (api_version r ∨ from_upstream r ∨ r = not_found ∨ from_framework r).
Proof.
  intros P req r.
  destruct (app_response_kinds 0 (Blobs "library/alpine" "sha256:abc") req Demo.env
              Demo.empty_world) as (Hkinds & _).
  split; [vm_compute; reflexivity |].
  apply (Hkinds r (app 0 (Blobs "library/alpine" "sha256:abc") req Demo.env
                     Demo.empty_world).2).
  vm_compute. reflexivity.
Defined.

(** C6 as stated fails in three ways.  A response passed through from
    the upstream: a GET of a blob that is not in the store, answered 404
    by an upstream that does not send the header, is answered with that
    404, which has no [Docker-Distribution-API-Version] header.  An
    exception that escapes a handler: when the fetch of the blob is
    rejected, [onError] answers 500 through the framework, without the
    header.  The routes [/] and [/v2/] and an unmatched route are
    answered by the framework as well, without the header. *)
Lemma responses_without_api_version :
  let req := mkHonoRequest "GET" ∅ in
  let unversioned (run : Completion Response * World) (st : Z) :=
    ∃ r, run.1 = Normal r
         ∧ status r = st
         ∧ Headers_get (headers r) "Docker-Distribution-API-Version" = None
         ∧ ¬ api_version r in
  (let P := Demo.platform (Demo.always (Demo.plain 404 [("Content-Type", "text/plain")] None))
              [] Demo.read_whole in
   unversioned (blobs_route req Demo.env "library/alpine" "sha256:abc" Demo.empty_world) 404
   ∧ unversioned (app 0 (Blobs "library/alpine" "sha256:abc") req Demo.env Demo.empty_world)
       404
   ∧ unversioned (app 0 Root req Demo.env Demo.empty_world) 200
   ∧ unversioned (app 0 V2 req Demo.env Demo.empty_world) 200
   ∧ unversioned (app 0 Unmatched req Demo.env Demo.empty_world) 404)
  ∧ (let P := Demo.platform (λ _ _, Throw (NetworkError "connection reset"))
                [] Demo.read_whole in
     (blobs_route req Demo.env "library/alpine" "sha256:abc" Demo.empty_world).1
       = Throw (NetworkError "connection reset")
     ∧ unversioned (app 0 (Blobs "library/alpine" "sha256:abc") req Demo.env Demo.empty_world)
         500
     ∧ unversioned (app 0 (Manifests "library/alpine" "latest") req Demo.env
                      Demo.empty_world) 500).
Proof.
  intros req unversioned.
  assert (Hrun : ∀ (run : Completion Response * World) r st,
    run.1 = Normal r → status r = st →
    Headers_get (headers r) "Docker-Distribution-API-Version" = None →
    unversioned run st).
  { intros run r st H1 H2 H3. exists r. repeat split; try assumption.
    unfold api_version. rewrite H3. discriminate. }
  split; intros P.
  - repeat split; (eapply Hrun; [vm_compute; reflexivity | reflexivity | reflexivity]).
  - split; [vm_compute; reflexivity |].
    split; (eapply Hrun; [vm_compute; reflexivity | reflexivity | reflexivity]).
Qed.

(** The import route, for comparison with [resolveTagToDigest]: it parses
    the digest header before anything is stored, and an unparsable header
    ends the import with a 400 and no tag entry. *)
Example import_route_rejects_unparsable_header :
  let P := Demo.platform
             (Demo.always (Demo.plain 200 [("Docker-Content-Digest", "md5:zzz")] (Some "{}")))
             [] Demo.read_whole in
  let run := import_route 1 Demo.env "library/alpine" "latest" Demo.empty_world in
  (∃ r, run.1 = Normal r ∧ status r = 400)
  ∧ storage run.2 !! "library/alpine/tags/latest" = None.
Proof. split; [eexists; split; vm_compute; reflexivity | vm_compute; reflexivity]. Qed.

(** The replacement patterns of [String.prototype.replace] in the path of
    the upstream base: [$&] stands for the matched [/v2/], [$$] for a
    dollar, [$'] for what follows the match; without a capture group
    [$1] is kept; a path without dollar is inserted as it is. *)
Example replace_v2_replacement_patterns :
  replace_v2 "/v2/x/y" "/a$&b" = "/v2//a/v2/b/x/y"
  ∧ replace_v2 "/v2/x/y" "/a$$b" = "/v2//a$b/x/y"
  ∧ replace_v2 "/v2/x/y" "/a$'b" = "/v2//ax/yb/x/y"
  ∧ replace_v2 "/v2/x/y" "/a$`b" = "/v2//ab/x/y"
  ∧ replace_v2 "/v2/x/y" "/a$1b" = "/v2//a$1b/x/y"
  ∧ replace_v2 "/v2/x/y" "/mirror" = "/v2//mirror/x/y"
  ∧ replace_v2 "/other" "/mirror" = "/other".
Proof. repeat split. Qed.

(** * Further properties *)

(** ** Tags *)

Lemma lang_upto_class p n : ∀ s,
  Regex.lang (Regex.Upto n (Regex.Class p)) s
  ↔ all_chars p s = true ∧ (String.length s ≤ n)%nat.
Proof.
  induction n as [|n IH]; intros s; simpl.
  - split.
    + intros Hl. inversion Hl; subst. simpl. split; [reflexivity | lia].
    + intros [_ Hlen]. destruct s; simpl in Hlen; [constructor | lia].
  - split.
    + intros Hl. inversion Hl as [ | | | ? ? ? He | ? ? ? Hc | | ]; subst.
      * inversion He; subst. simpl. split; [reflexivity | lia].
      * inversion Hc as [ | | ? ? s1 s2 H1 H2 | | | | ]; subst.
        inversion H1 as [ | ? c Hp | | | | | ]; subst.
        apply IH in H2 as [Hall Hlen]. simpl. rewrite Hp, Hall. split; [reflexivity | lia].
    + intros [Hall Hlen]. destruct s as [|c s]; simpl in *.
      * apply Regex.lang_alt_l. constructor.
      * apply andb_true_iff in Hall as [Hc Hs]. apply Regex.lang_alt_r.
        change (String c s) with (String c EmptyString +:+ s).
        constructor; [now constructor |]. apply IH. split; [assumption | lia].
Qed.

Lemma tagSchema_is_tag s : Regex.test tagSchema s = is_tag s.
Proof.
  apply eq_true_iff_eq. rewrite RegexFacts.test_lang. unfold tagSchema, is_tag. split.
  - intros Hl. inversion Hl as [ | | ? ? s1 s2 H1 H2 | | | | ]; subst.
    inversion H1 as [ | ? c Hc | | | | | ]; subst. simpl.
    apply (lang_upto_class cls_word_dot_dash 127) in H2 as [Hall Hlen].
    rewrite Hc, Hall. simpl. apply Nat.leb_le. exact Hlen.
  - destruct s as [|c s]; [discriminate |].
    intros [[Hc Hall]%andb_true_iff Hlen%Nat.leb_le]%andb_true_iff.
    change (String c s) with (String c EmptyString +:+ s).
    constructor; [now constructor |].
    apply (lang_upto_class cls_word_dot_dash 127). auto.
Qed.

Lemma parseTag_characterised_aux (s : string) :
  parseTag s = if is_tag s then Some s else None.
Proof. unfold parseTag. now rewrite tagSchema_is_tag. Qed.

(** X1: [parseTag] returns its argument unchanged when the argument is a
    word character followed by at most 127 characters of [[\w.-]] (so 1
    to 128 characters in all), and null for every other string, the
    empty string included. *)
Theorem parseTag_characterised (s : string) :
  parseTag s = if is_tag s then Some s else None.
Proof. apply parseTag_characterised_aux. Qed.

Lemma is_tag_all_chars s : is_tag s = true → all_chars cls_word_dot_dash s = true.
Proof.
  destruct s as [|c s]; [discriminate |]. simpl.
  intros [[Hc Hall]%andb_true_iff _]%andb_true_iff.
  unfold cls_word_dot_dash at 1. now rewrite Hc, Hall.
Qed.

Lemma parseDigest_not_tag s d : parseDigest s = Some d → parseTag s = None.
Proof.
  intros [[-> _] _]%parseDigest_Some_inv. rewrite parseTag_characterised_aux.
  destruct (is_tag _) eqn:E; [|reflexivity].
  apply is_tag_all_chars in E. rewrite all_chars_app in E.
  apply andb_true_iff in E as [_ E]. discriminate E.
Qed.

(** X2: no string is both a tag and a digest: what [parseDigest] accepts
    [parseTag] rejects (a digest has a colon, a tag has none), and the
    other way round.  So on the manifest route a reference that is a
    digest is never resolved as a tag. *)
Theorem tag_and_digest_disjoint (s : string) :
  (∀ d, parseDigest s = Some d → parseTag s = None)
  ∧ (∀ t, parseTag s = Some t → parseDigest s = None).
Proof.
  split.
  - apply parseDigest_not_tag.
  - intros t Ht. destruct (parseDigest s) as [d|] eqn:Hd; [|reflexivity].
    rewrite (parseDigest_not_tag _ _ Hd) in Ht. discriminate.
Qed.

Lemma tag_and_digest_disjoint_witness :
  parseTag "sha256:abc" = None ∧ parseDigest "v1.2-rc_3" = None.
Proof.
  split.
  - apply (proj1 (tag_and_digest_disjoint "sha256:abc") (mkDigest sha256 "abc" "sha256:abc")).
    reflexivity.
  - apply (proj2 (tag_and_digest_disjoint "v1.2-rc_3") "v1.2-rc_3"). vm_compute. reflexivity.
Defined.

(** ** The pull-through resolver, other methods *)

Section PullThroughOther.

Context {P : Platform}.

(** X3: for a request that is not a HEAD, [pullThroughRegistry] reads the
    store once.  A hit is returned and the populate action is not
    invoked.  On a miss the populate action is invoked once and whatever
    it produces, a response of any status or an exception, is the
    outcome: the store is not read again. *)
Theorem pullThroughRegistry_other_methods {S} (req : HonoRequest)
    (fromR2 : M S (option Response)) (fromRegistry : M S Response) (s : S) :
  method req ≠ "HEAD" →
  let run := pullThroughRegistry req (counted_read fromR2) (counted_populate fromRegistry)
               (mkTally 0 0, s) in
  (∀ o s1, fromR2 s = (Normal (Some o), s1) → run = (Normal o, (mkTally 1 0, s1)))
  ∧ (∀ s1 outcome s2,
       fromR2 s = (Normal None, s1) → fromRegistry s1 = (outcome, s2) →
       run = (outcome, (mkTally 1 1, s2))).
Proof.
  intros Hm%String.eqb_neq run. subst run. unfold pullThroughRegistry. rewrite Hm.
  rewrite bind_run. unfold counted_read, counted_populate. split.
  - intros o s1 ->. reflexivity.
  - intros s1 outcome s2 -> ->. reflexivity.
Qed.

End PullThroughOther.

Lemma pullThroughRegistry_other_methods_witness :
  let P := Demo.platform (Demo.always (Demo.plain 200 [] None)) [] Demo.read_whole in
  let req := mkHonoRequest "GET" ∅ in
  let miss : M nat (option Response) := λ n, (Normal None, Datatypes.S n) in
  let populate : M nat Response := λ n, (Throw (NetworkError "reset"), Datatypes.S n) in
  pullThroughRegistry req (counted_read miss) (counted_populate populate) (mkTally 0 0, 0%nat)
    = (Throw (NetworkError "reset"), (mkTally 1 1, 2%nat)).
Proof.
  intros P req miss populate.
  apply (proj2 (pullThroughRegistry_other_methods req miss populate 0%nat
                  ltac:(discriminate))
           1%nat (Throw (NetworkError "reset")) 2%nat eq_refl eq_refl).
Defined.

(** ** The upstream client *)

Section UpstreamClient.

Context {P : Platform}.

Lemma fetchFromRegistry_cases env url init w :
  fetchFromRegistry env url init w =
    match (match upstreamURL w with
           | Some up => Some up
           | None => URL_parse (UPSTREAM_REGISTRY env)
           end) with
    | None => (Throw (TypeError "Invalid URL"), w)
    | Some up =>
        let w0 := mkWorld (storage w) (uploads w) (Some up) (events w) in
        match URL_parse url with
        | None => (Throw (TypeError "Invalid URL"),
                   match upstreamURL w with Some _ => w | None => w0 end)
        | Some u =>
            (fetch (requests_of (events w)) (upstream_request env up u init),
             mkWorld (storage w) (uploads w) (Some up)
                     (events w ++ [Fetched (upstream_request env up u init)]))
        end
    end.
Proof.
  unfold fetchFromRegistry, bind, get_world, new_URL, record, lift, set_upstreamURL,
    ret, throw, log. simpl.
  destruct (upstreamURL w) as [up|] eqn:Hup; simpl.
  - destruct (URL_parse url); simpl; rewrite ?Hup; reflexivity.
  - destruct (URL_parse (UPSTREAM_REGISTRY env)); simpl; [|reflexivity].
    destruct (URL_parse url); reflexivity.
Qed.

(** X4: [fetchFromRegistry] either throws a type error for a URL that
    does not parse, without any request, or sends exactly one request
    and hands back whatever the global [fetch] produced.  The request
    goes to the protocol and host of the upstream base, and carries
    [accept: */*] and [authorization: Basic <REGISTRY_TOKEN>] whatever
    the caller passed under these names; every other header of the
    caller (such as [Range]) is sent as given.  The bucket is not
    touched. *)
Theorem fetchFromRegistry_one_request env target init w outcome w' :
  fetchFromRegistry env target init w = (outcome, w') →
  storage w' = storage w ∧ uploads w' = uploads w
  ∧ ((outcome = Throw (TypeError "Invalid URL") ∧ events w' = events w)
     ∨ ∃ up request,
         upstreamURL w' = Some up
         ∧ events w' = events w ++ [Fetched request]
         ∧ outcome = fetch (requests_of (events w)) request
         ∧ protocol (url request) = protocol up
         ∧ hostname (url request) = hostname up
         ∧ Headers_get (requestHeaders request) "Accept" = Some "*/*"
         ∧ Headers_get (requestHeaders request) "Authorization"
             = Some ("Basic " +:+ REGISTRY_TOKEN env)
         ∧ ∀ name, lowercase name ≠ "accept" → lowercase name ≠ "authorization" →
                   Headers_get (requestHeaders request) name
                     = Headers_get (Headers_of init) name).
Proof.
  rewrite fetchFromRegistry_cases.
  destruct (match upstreamURL w with
            | Some up => Some up
            | None => URL_parse (UPSTREAM_REGISTRY env)
            end) as [up|].
  - destruct (URL_parse target) as [u|]; simpl.
    + intros [= <- <-]. simpl. split; [reflexivity |]. split; [reflexivity |].
      right. exists up, (upstream_request env up u init).
      repeat (split; [reflexivity |]). split; [|split].
      * unfold upstream_request. simpl. headers_get. reflexivity.
      * unfold upstream_request. simpl. headers_get. reflexivity.
      * intros name Ha Hb. unfold upstream_request. simpl.
        rewrite Headers_get_set_ne by (intros E; apply Hb; symmetry; exact E).
        rewrite Headers_get_set_ne by (intros E; apply Ha; symmetry; exact E).
        reflexivity.
    + intros [= <- <-]. destruct (upstreamURL w); simpl; auto.
  - intros [= <- <-]. auto.
Qed.

(** X5: the upstream base URL is parsed once.  While none is cached, a
    call parses [UPSTREAM_REGISTRY] and caches the result, before the
    request URL is looked at; if it does not parse, the call throws and
    nothing is cached.  Once a base is cached, [UPSTREAM_REGISTRY] is no
    longer read: two environments that differ only there behave alike. *)
Theorem fetchFromRegistry_upstream_cache token url init w :
  (∀ up upstream1 upstream2,
     upstreamURL w = Some up →
     fetchFromRegistry (mkEnv token upstream1) url init w
       = fetchFromRegistry (mkEnv token upstream2) url init w
     ∧ upstreamURL (fetchFromRegistry (mkEnv token upstream1) url init w).2 = Some up)
  ∧ (∀ upstream up,
       upstreamURL w = None → URL_parse upstream = Some up →
       upstreamURL (fetchFromRegistry (mkEnv token upstream) url init w).2 = Some up)
  ∧ (∀ upstream,
       upstreamURL w = None → URL_parse upstream = None →
       fetchFromRegistry (mkEnv token upstream) url init w
         = (Throw (TypeError "Invalid URL"), w)).
Proof.
  split; [|split].
  - intros up u1 u2 Hup. rewrite !fetchFromRegistry_cases, Hup. simpl.
    split; [reflexivity |]. destruct (URL_parse url); simpl; [reflexivity | exact Hup].
  - intros upstream up Hnone Hparse. rewrite fetchFromRegistry_cases, Hnone. simpl.
    rewrite Hparse. simpl. destruct (URL_parse url); reflexivity.
  - intros upstream Hnone Hparse. rewrite fetchFromRegistry_cases, Hnone. simpl.
    rewrite Hparse. reflexivity.
Qed.

End UpstreamClient.

Lemma fetchFromRegistry_one_request_witness :
  let P := Demo.platform (Demo.always (Demo.plain 200 [] None)) [] Demo.read_whole in
  let run := fetchFromRegistry Demo.env "https://registry/v2/app/blobs/sha256:abc"
               [("Range", "bytes=0-9"); ("Authorization", "Bearer other")]
               Demo.empty_world in
  ∃ request, events run.2 = [Fetched request]
    ∧ Headers_get (requestHeaders request) "Authorization" = Some "Basic token"
    ∧ Headers_get (requestHeaders request) "Range" = Some "bytes=0-9".
Proof.
  intros P run.
  destruct (fetchFromRegistry_one_request Demo.env "https://registry/v2/app/blobs/sha256:abc"
              [("Range", "bytes=0-9"); ("Authorization", "Bearer other")]
              Demo.empty_world run.1 run.2)
    as (_ & _ & [[Hthrow _] | (up & request & _ & Hev & _ & _ & _ & _ & Hauth & Hrest)]).
  - reflexivity.
  - vm_compute in Hthrow. discriminate Hthrow.
  - exists request. split; [exact Hev |]. split; [exact Hauth |].
    rewrite Hrest by (vm_compute; discriminate). vm_compute. reflexivity.
Defined.

Lemma fetchFromRegistry_upstream_cache_witness :
  let P := Demo.platform (Demo.always (Demo.plain 200 [] None)) [] Demo.read_whole in
  let up := mkURL "https:" "first.example" EmptyString "/" EmptyString in
  let w := mkWorld ∅ [] (Some up) [] in
  fetchFromRegistry (mkEnv "token" "https://second.example/") "https://registry/v2/a/b" [] w
    = fetchFromRegistry (mkEnv "token" "not a url") "https://registry/v2/a/b" [] w.
Proof.
  intros P up w.
  apply (proj1 (fetchFromRegistry_upstream_cache "token" "https://registry/v2/a/b" [] w)
           up "https://second.example/" "not a url" eq_refl).
Defined.

(** ** The import engine, further *)

Section ImportFurther.

Context {P : Platform}.

(** X6: [importManifest] by outcome of the upstream fetch.  A rejected
    fetch is rethrown; an answer that is not 2xx, or has no body, is
    returned as it is and the bucket is not touched.  A 2xx answer with
    a body is put under the manifest key with the digest's hash as
    checksum and with the content type and content encoding of the
    answer: when the bucket accepts it, the result has the stored body
    and the status and headers of the answer; when the checksum does
    not match, the import throws and nothing is stored. *)
Theorem importManifest_outcomes env name d w outcome w1 :
  fetchFromRegistry env (manifest_url name (digest d)) [] w = (outcome, w1) →
  let key := manifest_key name d in
  (∀ e, outcome = Throw e → importManifest env name d w = (Throw e, w1))
  ∧ (∀ res, outcome = Normal res → ok res = false ∨ body res = None →
       importManifest env name d w = (Normal res, w1))
  ∧ (∀ res text, outcome = Normal res → ok res = true → body res = Some text →
       importManifest env name d w =
         if sha256_matches (hash d) text
         then (Normal (newResponseFrom (Some text) res),
               mkWorld (<[key := mkStored text
                                   (mkMeta (Headers_get (headers res) "Content-Encoding")
                                           (Headers_get (headers res) "Content-Type"))]>
                          (storage w1))
                       (uploads w1) (upstreamURL w1)
                       (events w1 ++ [StoragePut key; StorageGet key]))
         else (Throw (StoreError "checksum mismatch"), log (StoragePut key) w1)).
Proof.
  intros Hf key. unfold importManifest. rewrite bind_run, Hf. split; [|split].
  - intros e ->. reflexivity.
  - intros res -> [Hok | Hb]; [rewrite Hok; reflexivity |].
    rewrite Hb. destruct (ok res); reflexivity.
  - intros res text -> Hok Hb. rewrite Hok, Hb, bind_run, storage_put_run. fold key.
    simpl. destruct (sha256_matches (hash d) text); [|reflexivity].
    erewrite reread_present by (simpl; apply lookup_insert_eq).
    unfold log. simpl. rewrite <- app_assoc. reflexivity.
Qed.

(** [importBlob] up to the choice between one put and a multipart upload. *)
Lemma importBlob_guard env name d w outcome w1 :
  fetchFromRegistry env (blob_url name d) [] w = (outcome, w1) →
  importBlob env name d w =
    match outcome with
    | Normal res =>
        match ok res, body res with
        | true, Some content =>
            bind (match contentLength_of res with
                  | Num contentLength =>
                      if partSize <? contentLength
                      then upload <- storage_createMultipartUpload (blob_key name d)
                                       (put_options d res) ;;
                           import_multipart env name d upload contentLength
                      else storage_put (blob_key name d) content (put_options d res)
                  | NaN => storage_put (blob_key name d) content (put_options d res)
                  end)
                 (λ _, reread (blob_key name d) res) w1
        | _, _ => (Normal res, w1)
        end
    | Throw e => (Throw e, w1)
    | OutOfFuel => (OutOfFuel, w1)
    end.
Proof.
  intros Hf. unfold importBlob. rewrite bind_run, Hf.
  destruct outcome as [res|e|]; try reflexivity.
  destruct (ok res), (body res); reflexivity.
Qed.

Lemma put_then_reread key content options res w :
  bind (storage_put key content options) (λ _, reread key res) w =
    if sha256_matches (opt_sha256 options) content
    then (Normal (newResponseFrom (Some content) res),
          mkWorld (<[key := mkStored content (opt_httpMetadata options)]> (storage w))
                  (uploads w) (upstreamURL w)
                  (events w ++ [StoragePut key; StorageGet key]))
    else (Throw (StoreError "checksum mismatch"), log (StoragePut key) w).
Proof.
  rewrite bind_run, storage_put_run.
  destruct (sha256_matches _ _); [|reflexivity].
  erewrite reread_present by (simpl; apply lookup_insert_eq).
  unfold log. simpl. rewrite <- app_assoc. reflexivity.
Qed.

(** [importBlob] when the length read off the answer does not exceed the
    part size. *)
Lemma importBlob_put_run env name d w res content w1 :
  fetchFromRegistry env (blob_url name d) [] w = (Normal res, w1) →
  ok res = true → body res = Some content →
  exceeds_part_size res = false →
  importBlob env name d w =
    if sha256_matches (hash d) content
    then (Normal (newResponseFrom (Some content) res),
          mkWorld (<[blob_key name d := mkStored content (opt_httpMetadata (put_options d res))]>
                     (storage w1))
                  (uploads w1) (upstreamURL w1)
                  (events w1 ++ [StoragePut (blob_key name d); StorageGet (blob_key name d)]))
    else (Throw (StoreError "checksum mismatch"), log (StoragePut (blob_key name d)) w1).
Proof.
  intros Hf Hok Hb Hsmall. rewrite (importBlob_guard _ _ _ _ _ _ Hf), Hok, Hb.
  unfold exceeds_part_size in Hsmall.
  destruct (contentLength_of res) as [|n]; [apply put_then_reread |].
  rewrite Hsmall. apply put_then_reread.
Qed.

(** X7: what [importBlob] does not store.  A rejected fetch is rethrown,
    and an upstream answer that is not 2xx, or has no body, is returned
    as it is; in both cases the only thing done is the fetch: no put, no
    multipart upload, no read of the bucket. *)
Theorem importBlob_nothing_to_store env name d w outcome w1 :
  fetchFromRegistry env (blob_url name d) [] w = (outcome, w1) →
  (∀ e, outcome = Throw e → importBlob env name d w = (Throw e, w1))
  ∧ (∀ res, outcome = Normal res → ok res = false ∨ body res = None →
       importBlob env name d w = (Normal res, w1))
  ∧ storage w1 = storage w ∧ uploads w1 = uploads w
  ∧ (events w1 = events w ∨ ∃ request, events w1 = events w ++ [Fetched request]).
Proof.
  intros Hf. rewrite (importBlob_guard _ _ _ _ _ _ Hf).
  split; [|split; [|split; [|split]]].
  - intros e ->. reflexivity.
  - intros res -> [Hok | Hb]; [rewrite Hok; reflexivity |].
    rewrite Hb. destruct (ok res); reflexivity.
  - eapply fetchFromRegistry_frame; eauto.
  - eapply fetchFromRegistry_frame; eauto.
  - revert Hf. rewrite fetchFromRegistry_cases.
    destruct (match upstreamURL w with Some up => Some up | None => _ end) as [up|].
    + destruct (URL_parse (blob_url name d)); simpl; intros [= _ <-]; simpl.
      * right. eauto.
      * left. destruct (upstreamURL w); reflexivity.
    + intros [= _ <-]. now left.
Qed.

(** X8: a Content-Length header that is not a number is no reason for a
    multipart upload: the comparison with the part size is false, and
    the blob is written with one put, however long it is. *)
Theorem importBlob_length_not_a_number env name d w res content w1 v :
  fetchFromRegistry env (blob_url name d) [] w = (Normal res, w1) →
  ok res = true → body res = Some content →
  Headers_get (headers res) "Content-Length" = Some v →
  Number v = NaN →
  importBlob env name d w =
    if sha256_matches (hash d) content
    then (Normal (newResponseFrom (Some content) res),
          mkWorld (<[blob_key name d := mkStored content (opt_httpMetadata (put_options d res))]>
                     (storage w1))
                  (uploads w1) (upstreamURL w1)
                  (events w1 ++ [StoragePut (blob_key name d); StorageGet (blob_key name d)]))
    else (Throw (StoreError "checksum mismatch"), log (StoragePut (blob_key name d)) w1).
Proof.
  intros Hf Hok Hb Hv Hnan. apply (importBlob_put_run _ _ _ _ _ _ _ Hf Hok Hb).
  unfold exceeds_part_size, contentLength_of.
  change (Headers_get (headers res) "content-length")
    with (Headers_get (headers res) "Content-Length").
  now rewrite Hv, Hnan.
Qed.

End ImportFurther.

Section MultipartFurther.

Context {P : Platform}.

(** [importBlob] once the multipart upload is created. *)
Lemma importBlob_multipart_start env name d w res content w1 n :
  fetchFromRegistry env (blob_url name d) [] w = (Normal res, w1) →
  ok res = true → body res = Some content →
  contentLength_of res = Num n → partSize < n →
  importBlob env name d w =
    bind (import_multipart env name d (List.length (uploads w1)) n)
         (λ _, reread (blob_key name d) res)
         (mkWorld (storage w1)
                  (uploads w1 ++ [mkUpload (blob_key name d)
                                           (opt_httpMetadata (put_options d res)) [] Open])
                  (upstreamURL w1)
                  (events w1 ++ [StorageCreateMultipartUpload (blob_key name d)
                                   (List.length (uploads w1))])).
Proof.
  intros Hf Hok Hb Hn Hbig. rewrite (importBlob_guard _ _ _ _ _ _ Hf), Hok, Hb, Hn.
  apply Z.ltb_lt in Hbig. rewrite Hbig.
  rewrite bind_run, bind_run, storage_createMultipartUpload_run. rewrite bind_run. reflexivity.
Qed.

(** The parts loop when the fetch of part [j] is rejected. *)
Lemma import_parts_rejected env name d id up u l j rest e : ∀ w parts upl before,
  URL_parse (blob_url name d) = Some u →
  upstreamURL w = Some up →
  uploads w !! id = Some upl → upload_state upl = Open →
  requests_of (events w) = before →
  parts_succeed before (part_request env up u) l →
  fetch (before ++ map (part_request env up u) l) (part_request env up u j) = Throw e →
  Forall (λ p, is_Some (part_body (partNumber p) (upload_parts upl))) parts →
  ∃ upl' w',
    import_parts env name d id (l ++ j :: rest) parts w = (Throw e, w')
    ∧ storage w' = storage w
    ∧ uploads w' = <[id := upl']> (uploads w)
    ∧ upload_state upl' = Open
    ∧ events w' = events w ++ part_events id (part_request env up u) l
                    ++ [Fetched (part_request env up u j)].
Proof.
  intros w parts upl before Hu Hup Hupl Hopen Hbefore Hok Hf Hparts.
  destruct (import_parts_success env name d id up u Hu l w parts upl before
              Hup Hupl Hopen Hbefore Hok Hparts)
    as (parts' & upl' & w' & Hrun & Hs & Hup' & Hups & Hst & _ & _ & _ & Hev & Hreq).
  rewrite import_parts_app, bind_run, Hrun. rewrite <- Hreq in Hf.
  simpl. rewrite bind_run, (fetchFromRegistry_cached _ _ _ _ _ _ Hup' Hu).
  fold (part_request env up u j). rewrite Hf.
  exists upl'. eexists. split; [reflexivity |]. simpl.
  rewrite Hs, Hups, Hev, <- app_assoc. auto.
Qed.

(** X9: a rejected fetch in the parts loop is cleaned up like a bad
    answer.  When the upstream answered the blob request 2xx with a body
    and a Content-Length [n] above the part size, the parts before [j]
    succeed and the fetch of part [j] is rejected with [e], [importBlob]
    aborts the multipart upload and then throws [e] itself: nothing was
    completed and the store holds what it held before. *)
Theorem importBlob_part_fetch_rejected env name d w res content w1 v n up u j e :
  fetchFromRegistry env (blob_url name d) [] w = (Normal res, w1) →
  ok res = true → body res = Some content →
  Headers_get (headers res) "Content-Length" = Some v → Number v = Num n →
  partSize < n →
  URL_parse (blob_url name d) = Some u → upstreamURL w1 = Some up →
  let key := blob_key name d in
  let id := List.length (uploads w) in
  let reqs := part_request env up u in
  let before := requests_of (events w1) in
  0 ≤ j < part_count n →
  parts_succeed before reqs (seqZ 0 j) →
  fetch (before ++ map reqs (seqZ 0 j)) (reqs j) = Throw e →
  ∃ w',
    importBlob env name d w = (Throw e, w')
    ∧ events w' =
        events w1 ++ [StorageCreateMultipartUpload key id]
          ++ part_events id reqs (seqZ 0 j)
          ++ [Fetched (reqs j); UploadAbort id]
    ∧ (∃ upl, uploads w' !! id = Some upl ∧ upload_state upl = Aborted)
    ∧ storage w' = storage w.
Proof.
  intros Hf Hok Hbody Hv Hn Hbig Hparse Hup key id reqs before Hj Hprefix Hfj.
  destruct (fetchFromRegistry_frame _ _ _ _ _ _ Hf) as [Hs Hu].
  assert (Hlen : contentLength_of res = Num n).
  { unfold contentLength_of.
    change (Headers_get (headers res) "content-length")
      with (Headers_get (headers res) "Content-Length"). now rewrite Hv. }
  rewrite (importBlob_multipart_start _ _ _ _ _ _ _ _ Hf Hok Hbody Hlen Hbig).
  assert (Hid : List.length (uploads w1) = id) by (unfold id; now rewrite Hu).
  rewrite Hid. fold key.
  set (upl0 := mkUpload key (opt_httpMetadata (put_options d res)) [] Open).
  set (w2 := mkWorld _ _ _ _).
  assert (Hupl2 : uploads w2 !! id = Some upl0).
  { subst w2. simpl. rewrite <- Hid. apply list_lookup_middle. reflexivity. }
  assert (Hbefore2 : requests_of (events w2) = before).
  { subst w2. simpl. rewrite requests_of_app. simpl. apply app_nil_r. }
  assert (Hlt : (id < List.length (uploads w2))%nat) by (eapply lookup_lt_Some; eauto).
  destruct (import_parts_rejected env name d id up u (seqZ 0 j) j
              (seqZ (j + 1) (part_count n - j - 1)) e w2 [] upl0 before
              Hparse Hup Hupl2 eq_refl Hbefore2 Hprefix Hfj (List.Forall_nil _))
    as (upl & w3 & Hrun & Hs3 & Hups3 & Hst3 & Hev3).
  assert (Hupl3 : uploads w3 !! id = Some upl).
  { rewrite Hups3. now apply list_lookup_insert_eq. }
  rewrite bind_run. unfold import_multipart, try_catch. rewrite bind_run.
  unfold part_indices. rewrite (seqZ_snoc_cons _ j Hj), Hrun.
  rewrite bind_run, (upload_abort_run _ _ _ Hupl3 Hst3). unfold throw.
  eexists. split; [reflexivity |]. simpl.
  split; [rewrite Hev3; subst w2; simpl; fold reqs; rewrite <- !app_assoc; reflexivity |].
  split.
  - eexists. split; [apply list_lookup_insert_eq; rewrite Hups3, length_insert; exact Hlt |].
    reflexivity.
  - rewrite Hs3. subst w2. simpl. exact Hs.
Qed.

(** X10: the parts cover the blob.  Every byte position below the
    declared length [n] lies in the range of exactly one of the
    [Math.ceil(n / partSize)] parts, part [i] ranging from [i * partSize]
    to [(i + 1) * partSize - 1]; only the range of the last part may
    reach past the end of the blob. *)
Theorem parts_cover_the_blob (n position : Z) :
  0 ≤ position < n →
  (∃ i, 0 ≤ i < part_count n
        ∧ i * partSize ≤ position ≤ (i + 1) * partSize - 1
        ∧ ∀ i', i' * partSize ≤ position ≤ (i' + 1) * partSize - 1 → i' = i)
  ∧ (∀ i, 0 ≤ i < part_count n - 1 → (i + 1) * partSize - 1 < n - 1)
  ∧ n - 1 ≤ part_count n * partSize - 1.
Proof.
  intros Hpos. pose proof (part_count_is_ceiling n) as Hceil.
  assert (Hps : 0 < partSize) by reflexivity.
  pose proof (Z.mul_div_le position partSize Hps) as Hle.
  pose proof (Z.mul_succ_div_gt position partSize Hps) as Hgt.
  pose proof (Z.div_pos position partSize ltac:(lia) Hps) as Hq.
  generalize dependent (part_count n). intros k Hceil.
  generalize dependent (position `div` partSize). intros q Hle Hgt Hq.
  generalize dependent partSize. intros ps Hps Hceil Hle Hgt.
  split; [|split].
  - exists q. split; [nia |]. split; [nia |]. intros i' Hi'. nia.
  - intros i Hi. nia.
  - lia.
Qed.

End MultipartFurther.

(** ** Serving from the store *)

Section Serving.

Context {P : Platform}.

Lemma getObject_HEAD_run req key hs w o :
  method req = "HEAD" →
  storage w !! key = Some o →
  getObject req key hs w =
    (Normal (Some (emptyResponse (mkInit None None (Some
       (Headers_set "content-length" (pretty (stored_size o))
          (Headers_set "etag" (etag_of (stored_body o))
             (Headers_set "accept-ranges" "bytes"
                (writeHttpMetadata (view o None None) hs)))))))),
     log (StorageHead key) w).
Proof.
  intros Hm%String.eqb_eq Ho. unfold getObject. rewrite Hm.
  rewrite bind_run, storage_head_run, Ho. reflexivity.
Qed.

(** X11: a HEAD of a stored object is answered from one [head] of the
    bucket: status 200, no body, the Content-Length of the whole object,
    its entity tag and [Accept-Ranges: bytes].  The headers of the
    request play no part: a Range or a condition changes nothing, and no
    Content-Range is added. *)
Theorem getObject_HEAD req key hs w o :
  method req = "HEAD" →
  storage w !! key = Some o →
  ∃ r, getObject req key hs w = (Normal (Some r), log (StorageHead key) w)
       ∧ status r = 200
       ∧ body r = None
       ∧ Headers_get (headers r) "Content-Length" = Some (pretty (stored_size o))
       ∧ Headers_get (headers r) "ETag" = Some (etag_of (stored_body o))
       ∧ Headers_get (headers r) "Accept-Ranges" = Some "bytes"
       ∧ Headers_get (headers r) "Content-Range" = Headers_get hs "Content-Range"
       ∧ ∀ requestHeaders',
           getObject (mkHonoRequest "HEAD" requestHeaders') key hs w
             = getObject req key hs w.
Proof.
  intros Hm Ho. eexists. split; [exact (getObject_HEAD_run _ _ _ _ _ Hm Ho) |].
  assert (Hm' := Hm).
  unfold emptyResponse, response, writeHttpMetadata.
  cbn [body status headers newResponse default from_option id init_status init_headers
       init_statusText].
  repeat (split; [headers_get; reflexivity |]).
  intros h'. rewrite (getObject_HEAD_run req key hs w o Hm Ho).
  now rewrite (getObject_HEAD_run (mkHonoRequest "HEAD" h') key hs w o eq_refl Ho).
Qed.

(** The headers [getObject] answers with, whatever the method. *)
Lemma getObject_served req key hs w r w' :
  getObject req key hs w = (Normal (Some r), w') →
  ∃ o, storage w !! key = Some o
       ∧ storage w' = storage w ∧ uploads w' = uploads w
       ∧ requests_of (events w') = requests_of (events w)
       ∧ ∀ name,
           lowercase name ≠ "content-length" → lowercase name ≠ "content-range" →
           lowercase name ≠ "docker-distribution-api-version" →
           Headers_get (headers r) name
             = Headers_get (Headers_set "accept-ranges" "bytes"
                 (Headers_set "etag" (etag_of (stored_body o))
                    (writeHttpMetadata (view o None None) hs))) name.
Proof.
  unfold getObject. destruct (String.eqb (method req) "HEAD").
  - rewrite bind_run, storage_head_run.
    destruct (storage w !! key) as [o|]; [|discriminate]. intros [= <- <-].
    exists o. split; [reflexivity |]. split; [reflexivity |]. split; [reflexivity |].
    split; [unfold log; simpl; rewrite requests_of_app; simpl; apply app_nil_r |].
    intros name H1 H2 H3. unfold emptyResponse, response.
    cbn [body status headers newResponse default from_option id init_status init_headers
         init_statusText].
    rewrite Headers_get_set_ne by (intros E; apply H3; symmetry; exact E).
    rewrite Headers_get_set_ne by (intros E; apply H1; symmetry; exact E).
    cbn [view httpEtag]. unfold Headers_get, Headers_set.
    rewrite (insert_insert_ne _ (lowercase "etag") (lowercase "accept-ranges"))
      by (vm_compute; discriminate).
    reflexivity.
  - rewrite bind_run, storage_get_with_run.
    destruct (storage w !! key) as [o|]; [|discriminate].
    destruct (conditional_read (reqHeaders req) o) as [rng b]. intros [= <- <-].
    exists o. split; [reflexivity |]. split; [reflexivity |]. split; [reflexivity |].
    split; [unfold log; simpl; rewrite requests_of_app; simpl; apply app_nil_r |].
    intros name H1 H2 H3.
    cbn [body status headers newResponse default from_option id init_status init_headers
         init_statusText].
    destruct (Headers_has (reqHeaders req) "range"), rng as [[[off|] [len|] sfx]|];
      cbn [range view objectSize httpEtag];
      rewrite ?(Headers_get_set_ne "content-length") by (intros E; apply H1; symmetry; exact E);
      rewrite ?(Headers_get_set_ne "content-range") by (intros E; apply H2; symmetry; exact E);
      reflexivity.
Qed.

(** X12: an answer served from the store on the manifest and blob
    routes carries [Docker-Content-Digest] with the digest asked for, the
    entity tag of the object, [Accept-Ranges: bytes], and as Content-Type
    and Content-Encoding exactly what was recorded with the object when
    it was stored (none when none was recorded).  Serving changes
    neither the store nor the uploads and sends nothing upstream. *)
Theorem getObject_served_headers req key d w r w' :
  getObject req key (route_headers d) w = (Normal (Some r), w') →
  ∃ o, storage w !! key = Some o
       ∧ Headers_get (headers r) "Docker-Content-Digest" = Some (digest d)
       ∧ Headers_get (headers r) "ETag" = Some (etag_of (stored_body o))
       ∧ Headers_get (headers r) "Accept-Ranges" = Some "bytes"
       ∧ Headers_get (headers r) "Content-Type" = contentType (stored_metadata o)
       ∧ Headers_get (headers r) "Content-Encoding" = contentEncoding (stored_metadata o)
       ∧ storage w' = storage w ∧ uploads w' = uploads w
       ∧ requests_of (events w') = requests_of (events w).
Proof.
  intros (o & Ho & Hs & Hu & Hreq & Hh)%getObject_served.
  exists o. split; [exact Ho |].
  rewrite !Hh by (vm_compute; discriminate).
  unfold writeHttpMetadata, route_headers, Headers_of. cbn [view httpMetadata fold_left fst snd].
  split; [headers_get; reflexivity |].
  split; [headers_get; reflexivity |].
  split; [headers_get; reflexivity |].
  split.
  { headers_get. destruct (contentEncoding (stored_metadata o)), (contentType (stored_metadata o));
      simpl; headers_get; reflexivity. }
  split.
  { headers_get. destruct (contentEncoding (stored_metadata o)), (contentType (stored_metadata o));
      simpl; headers_get; reflexivity. }
  auto.
Qed.

End Serving.

(** ** Routes *)

Section Routes.

Context {P : Platform}.

Lemma getObject_hit req key hs w o :
  storage w !! key = Some o → ∃ r w', getObject req key hs w = (Normal (Some r), w').
Proof.
  intros Ho. unfold getObject. destruct (String.eqb (method req) "HEAD").
  - rewrite bind_run, storage_head_run, Ho. eauto.
  - rewrite bind_run, storage_get_with_run, Ho.
    destruct (conditional_read (reqHeaders req) o). eauto.
Qed.

(** A hit is what the resolver returns, whatever the method. *)
Lemma pullThroughRegistry_hit {S} req (fromR2 : M S (option Response)) fromRegistry s o s1 :
  fromR2 s = (Normal (Some o), s1) →
  pullThroughRegistry req fromR2 fromRegistry s = (Normal o, s1).
Proof.
  intros H. unfold pullThroughRegistry.
  destruct (String.eqb (method req) "HEAD"); rewrite bind_run, H; reflexivity.
Qed.

Lemma serve_stored req key d (populate : Async Response) w o :
  storage w !! key = Some o →
  ∃ r w',
    pullThroughRegistry req (getObject req key (route_headers d)) populate w = (Normal r, w')
    ∧ storage w' = storage w ∧ uploads w' = uploads w
    ∧ requests_of (events w') = requests_of (events w)
    ∧ Headers_get (headers r) "Docker-Content-Digest" = Some (digest d).
Proof.
  intros Ho. destruct (getObject_hit req key (route_headers d) w o Ho) as (r & w' & Hg).
  exists r, w'. rewrite (pullThroughRegistry_hit _ _ _ _ _ _ Hg).
  destruct (getObject_served _ _ _ _ _ _ Hg) as (o' & _ & Hs & Hu & Hreq & Hh).
  repeat (split; [assumption || reflexivity |]).
  rewrite Hh by (vm_compute; discriminate).
  unfold writeHttpMetadata, route_headers, Headers_of. cbn [fold_left fst snd].
  headers_get. reflexivity.
Qed.

(** X13: a request for something that is in the store never reaches the
    upstream.  A blob whose key is stored, a manifest asked for by a
    digest whose key is stored, and a manifest asked for by a tag whose
    mapping and manifest are both stored, are answered with
    [Docker-Content-Digest] set to the digest, and with no request sent,
    the store and the uploads unchanged. *)
Theorem routes_hit_without_upstream req env name reference w :
  let served (run : Completion Response * World) (d : Digest) :=
    ∃ r w', run = (Normal r, w')
            ∧ storage w' = storage w ∧ uploads w' = uploads w
            ∧ requests_of (events w') = requests_of (events w)
            ∧ Headers_get (headers r) "Docker-Content-Digest" = Some (digest d) in
  (∀ d o, parseDigest reference = Some d → storage w !! blob_key name d = Some o →
          served (blobs_route req env name reference w) d)
  ∧ (∀ d o, parseDigest reference = Some d → storage w !! manifest_key name d = Some o →
            served (manifests_route req env name reference w) d)
  ∧ (∀ tag mapping d o,
       parseTag reference = Some tag →
       storage w !! tag_key name tag = Some mapping →
       parseDigest (stored_body mapping) = Some d →
       storage w !! manifest_key name d = Some o →
       served (manifests_route req env name reference w) d).
Proof.
  intros served. subst served. cbv beta. split; [|split].
  - intros d o Hd Ho. unfold blobs_route. rewrite Hd.
    now apply (serve_stored _ _ _ _ _ o).
  - intros d o Hd Ho. unfold manifests_route.
    rewrite (parseDigest_not_tag _ _ Hd), bind_run, Hd. unfold ret.
    now apply (serve_stored _ _ _ _ _ o).
  - intros tag mapping d o Ht Hm Hd Ho. unfold manifests_route.
    rewrite Ht, bind_run, (resolveTagToDigest_cached _ _ _ _ _ Hm), Hd.
    destruct (serve_stored req (manifest_key name d) d (importManifest env name d)
                (log (StorageGet (tag_key name tag)) w) o Ho)
      as (r & w' & Hrun & Hs & Hu & Hreq & Hh).
    exists r, w'. rewrite Hrun. split; [reflexivity |].
    split; [exact Hs |]. split; [exact Hu |]. split; [|exact Hh].
    rewrite Hreq. unfold log. simpl. rewrite requests_of_app. simpl. apply app_nil_r.
Qed.


End Routes.

(** ** Tags: resolution and import *)

Lemma parseDigest_digest s d : parseDigest s = Some d → parseDigest (digest d) = Some d.
Proof. intros H. destruct (parseDigest_Some_inv _ _ H) as [_ ->]. exact H. Qed.

Section Tags.

Context {P : Platform}.

(** X15: when a tag is not in the store and the upstream does not name
    a digest, nothing is written.  A rejected fetch is rethrown; an
    answer that is not 2xx, or has no [Docker-Content-Digest] header, or
    an empty one, makes [resolveTagToDigest] return null; in each case
    the store is as before and the only things done are the read of the
    tag key and the fetch. *)
Theorem resolveTagToDigest_nothing_to_store env name tag w outcome w1 :
  storage w !! tag_key name tag = None →
  fetchFromRegistry env (manifest_url name tag) [] (log (StorageGet (tag_key name tag)) w)
    = (outcome, w1) →
  storage w1 = storage w
  ∧ (∀ e, outcome = Throw e → resolveTagToDigest env name tag w = (Throw e, w1))
  ∧ (∀ res, outcome = Normal res →
       ok res = false
       ∨ Headers_get (headers res) "Docker-Content-Digest" = None
       ∨ Headers_get (headers res) "Docker-Content-Digest" = Some EmptyString →
       resolveTagToDigest env name tag w = (Normal None, w1)).
Proof.
  intros Hmiss Hf. split; [|split].
  - now destruct (fetchFromRegistry_frame _ _ _ _ _ _ Hf) as [-> _].
  - intros e ->. unfold resolveTagToDigest.
    rewrite bind_run, storage_get_run, Hmiss, bind_run, Hf. reflexivity.
  - intros res -> Hcase. unfold resolveTagToDigest.
    rewrite bind_run, storage_get_run, Hmiss, bind_run, Hf.
    destruct (ok res); [|reflexivity]. simpl.
    destruct Hcase as [Hok | [-> | ->]]; [discriminate | reflexivity | reflexivity].
Qed.

(** X16: a resolved tag is resolved from the store from then on.  After
    a miss on which the upstream named a digest that parses, the mapping
    is in the store and the digest is returned; every later resolution
    of the tag returns the same digest after one read of the store,
    without a request, on any platform: the upstream is not asked
    again, whatever it would answer now. *)
Theorem resolveTagToDigest_then_cached env name tag w res w1 v d :
  storage w !! tag_key name tag = None →
  fetchFromRegistry env (manifest_url name tag) [] (log (StorageGet (tag_key name tag)) w)
    = (Normal res, w1) →
  ok res = true →
  Headers_get (headers res) "Docker-Content-Digest" = Some v →
  parseDigest v = Some d →
  ∃ w',
    resolveTagToDigest env name tag w = (Normal (Some d), w')
    ∧ storage w' !! tag_key name tag = Some (mkStored v (mkMeta None None))
    ∧ ∀ (P' : Platform) env',
        @resolveTagToDigest P' env' name tag w'
          = (Normal (Some d), log (StorageGet (tag_key name tag)) w').
Proof.
  intros Hmiss Hf Hok Hv Hd.
  assert (Hne : v ≠ EmptyString) by (intros ->; discriminate Hd).
  eexists. split.
  - rewrite (resolveTagToDigest_miss _ _ _ _ _ _ _ Hmiss Hf Hok Hv Hne), Hd. reflexivity.
  - split; [simpl; apply lookup_insert_eq |].
    intros P' env'. erewrite (@resolveTagToDigest_cached P') by (simpl; apply lookup_insert_eq).
    simpl. now rewrite Hd.
Qed.

(** [import_route] once the reference is a tag and the upstream has
    answered. *)
Lemma import_route_run fuel env name reference tag w outcome w1 :
  parseTag reference = Some tag →
  fetchFromRegistry env (manifest_url name tag) [] w = (outcome, w1) →
  import_route fuel env name reference w =
    match outcome with
    | Normal res =>
        if ok res then
          match parseDigest
                  (default EmptyString (Headers_get (headers res) "Docker-Content-Digest")) with
          | None => (Normal (json (errors "MANIFEST_INVALID") (mkInit (Some 400) None None)), w1)
          | Some d =>
              match importAll fuel env name d w1 with
              | (Normal _, w2) =>
                  (Normal res,
                   mkWorld (<[tag_key name tag := mkStored (digest d) (mkMeta None None)]>
                              (storage w2))
                           (uploads w2) (upstreamURL w2)
                           (events w2 ++ [StoragePut (tag_key name tag)]))
              | (Throw e, w2) =>
                  (Normal (json (errors_with_message "INTERNAL_ERROR" (message e))
                                (mkInit (Some 500) None None)), w2)
              | (OutOfFuel, w2) => (OutOfFuel, w2)
              end
          end
        else (Normal res, w1)
    | Throw e => (Throw e, w1)
    | OutOfFuel => (OutOfFuel, w1)
    end.
Proof.
  intros Ht Hf. unfold import_route. rewrite Ht, bind_run, Hf.
  destruct outcome as [res|e|]; try reflexivity.
  destruct (ok res); [|reflexivity]. simpl. unfold try_catch.
  destruct (parseDigest _) as [d|]; [|reflexivity].
  rewrite bind_run. destruct (importAll fuel env name d w1) as [[[]|e|] w2]; try reflexivity.
Qed.


(** X18: a tag written by the import route resolves to the digest that
    was imported.  After an import that completed for the digest [d]
    named by the upstream, [resolveTagToDigest] on the same repository
    and tag returns [d] after one read of the store, without a request. *)
Theorem import_route_then_resolve fuel env name reference tag w res w1 d w2 :
  parseTag reference = Some tag →
  fetchFromRegistry env (manifest_url name tag) [] w = (Normal res, w1) →
  ok res = true →
  parseDigest (default EmptyString (Headers_get (headers res) "Docker-Content-Digest"))
    = Some d →
  importAll fuel env name d w1 = (Normal tt, w2) →
  ∃ w',
    import_route fuel env name reference w = (Normal res, w')
    ∧ resolveTagToDigest env name tag w'
        = (Normal (Some d), log (StorageGet (tag_key name tag)) w').
Proof.
  intros Ht Hf Hok Hd Hall. rewrite (import_route_run _ _ _ _ _ _ _ _ Ht Hf), Hok, Hd.
  cbv iota beta. rewrite Hall.
  eexists. split; [reflexivity |].
  erewrite resolveTagToDigest_cached by (simpl; apply lookup_insert_eq).
  simpl. now rewrite (parseDigest_digest _ _ Hd).
Qed.

End Tags.

(** ** The store only grows *)

Lemma keeps_keys_refl w : keeps_keys w w.
Proof. unfold keeps_keys. set_solver. Qed.

Lemma keeps_keys_trans w1 w2 w3 : keeps_keys w1 w2 → keeps_keys w2 w3 → keeps_keys w1 w3.
Proof. unfold keeps_keys. set_solver. Qed.

Lemma keeps_keys_same w w' : storage w' = storage w → keeps_keys w w'.
Proof. unfold keeps_keys. intros ->. set_solver. Qed.

Lemma keeps_keys_insert w w' key o :
  storage w' = <[key := o]> (storage w) → keeps_keys w w'.
Proof. unfold keeps_keys. intros ->. rewrite dom_insert_L. set_solver. Qed.

Lemma never_deletes_ret {A} (a : A) : never_deletes (ret a).
Proof. intros w c w' [= _ <-]. apply keeps_keys_refl. Qed.

Lemma never_deletes_throw {A} e : never_deletes (@throw World A e).
Proof. intros w c w' [= _ <-]. apply keeps_keys_refl. Qed.

Lemma never_deletes_lift {A} (c : Completion A) : never_deletes (lift c).
Proof. intros w c' w' [= _ <-]. apply keeps_keys_refl. Qed.

Lemma never_deletes_bind {A B} (m : Async A) (k : A → Async B) :
  never_deletes m → (∀ a, never_deletes (k a)) → never_deletes (bind m k).
Proof.
  intros Hm Hk w c w'. rewrite bind_run.
  destruct (m w) as [[a|e|] w1] eqn:E; pose proof (Hm _ _ _ E) as H1.
  - intros H2%Hk. eapply keeps_keys_trans; eauto.
  - intros [= _ <-]. exact H1.
  - intros [= _ <-]. exact H1.
Qed.

Lemma never_deletes_try_catch {A} (m : Async A) handler :
  never_deletes m → (∀ e, never_deletes (handler e)) → never_deletes (try_catch m handler).
Proof.
  intros Hm Hh w c w'. unfold try_catch.
  destruct (m w) as [[a|e|] w1] eqn:E; pose proof (Hm _ _ _ E) as H1.
  - intros [= _ <-]. exact H1.
  - intros H2%Hh. eapply keeps_keys_trans; eauto.
  - intros [= _ <-]. exact H1.
Qed.

Lemma never_deletes_for_each {A} (f : A → Async unit) l :
  (∀ x, never_deletes (f x)) → never_deletes (for_each f l).
Proof.
  intros Hf. induction l as [|x l IH]; simpl.
  - apply never_deletes_ret.
  - apply never_deletes_bind; auto.
Qed.

Section NeverDeletes.

Context {P : Platform}.

Lemma never_deletes_fetch env target init : never_deletes (fetchFromRegistry env target init).
Proof. intros w c w' [Hs _]%fetchFromRegistry_frame. now apply keeps_keys_same. Qed.

Lemma never_deletes_get key : never_deletes (storage_get key).
Proof. intros w c w'. rewrite storage_get_run. intros [= _ <-]. now apply keeps_keys_same. Qed.

Lemma never_deletes_head key : never_deletes (storage_head key).
Proof. intros w c w'. rewrite storage_head_run. intros [= _ <-]. now apply keeps_keys_same. Qed.

Lemma never_deletes_get_with key h : never_deletes (storage_get_with key h).
Proof.
  intros w c w'. rewrite storage_get_with_run. intros [= _ <-]. now apply keeps_keys_same.
Qed.

Lemma never_deletes_put key content options : never_deletes (storage_put key content options).
Proof.
  intros w c w'. rewrite storage_put_run. destruct (sha256_matches _ _); intros [= _ <-].
  - eapply keeps_keys_insert. reflexivity.
  - now apply keeps_keys_same.
Qed.

Lemma never_deletes_put_text key content : never_deletes (storage_put_text key content).
Proof.
  intros w c w'. rewrite storage_put_text_run. intros [= _ <-].
  eapply keeps_keys_insert. reflexivity.
Qed.

Lemma never_deletes_create key options :
  never_deletes (storage_createMultipartUpload key options).
Proof.
  intros w c w'. rewrite storage_createMultipartUpload_run. intros [= _ <-].
  now apply keeps_keys_same.
Qed.

Lemma never_deletes_uploadPart id n content : never_deletes (upload_uploadPart id n content).
Proof.
  intros w c w'. unfold upload_uploadPart, open_upload, bind, record, get_world, ret, throw.
  simpl. destruct (uploads w !! id) as [u|]; [|intros [= _ <-]; now apply keeps_keys_same].
  destruct (upload_state u); intros [= _ <-]; now apply keeps_keys_same.
Qed.

Lemma never_deletes_complete id parts : never_deletes (upload_complete id parts).
Proof.
  intros w c w'. unfold upload_complete, open_upload, bind, record, get_world, ret, throw.
  simpl. destruct (uploads w !! id) as [u|]; [|intros [= _ <-]; now apply keeps_keys_same].
  destruct (upload_state u); simpl; try (intros [= _ <-]; now apply keeps_keys_same).
  destruct (assemble _ _); intros [= _ <-].
  - eapply keeps_keys_insert. reflexivity.
  - now apply keeps_keys_same.
Qed.

Lemma never_deletes_abort id : never_deletes (upload_abort id).
Proof.
  intros w c w'. unfold upload_abort, open_upload, bind, record, get_world, ret, throw.
  simpl. destruct (uploads w !! id) as [u|]; [|intros [= _ <-]; now apply keeps_keys_same].
  destruct (upload_state u); intros [= _ <-]; now apply keeps_keys_same.
Qed.

Lemma never_deletes_reread key res : never_deletes (reread key res).
Proof.
  apply never_deletes_bind; [apply never_deletes_get |].
  intros [o|]; apply never_deletes_ret.
Qed.

Lemma never_deletes_import_parts env name d id l : ∀ parts,
  never_deletes (import_parts env name d id l parts).
Proof.
  induction l as [|idx rest IH]; intros parts; simpl.
  - apply never_deletes_ret.
  - apply never_deletes_bind; [apply never_deletes_fetch |]. intros res.
    destruct (ok res), (body res); try apply never_deletes_throw.
    apply never_deletes_bind; [apply never_deletes_uploadPart | intros part; apply IH].
Qed.

Lemma never_deletes_importBlob env name d : never_deletes (importBlob env name d).
Proof.
  apply never_deletes_bind; [apply never_deletes_fetch |]. intros res.
  destruct (ok res), (body res) as [content|]; try apply never_deletes_ret.
  apply never_deletes_bind; [|intros _; apply never_deletes_reread].
  assert (Hmulti : ∀ n,
    never_deletes (upload <- storage_createMultipartUpload (blob_key name d) (put_options d res) ;;
                   import_multipart env name d upload n)).
  { intros n. apply never_deletes_bind; [apply never_deletes_create |]. intros id.
    apply never_deletes_try_catch.
    - apply never_deletes_bind; [apply never_deletes_import_parts |].
      intros parts. apply never_deletes_complete.
    - intros e. apply never_deletes_bind; [apply never_deletes_abort |].
      intros _. apply never_deletes_throw. }
  destruct (contentLength_of res) as [|n]; [apply never_deletes_put |].
  destruct (partSize <? n); [apply Hmulti | apply never_deletes_put].
Qed.

Lemma never_deletes_importManifest env name d : never_deletes (importManifest env name d).
Proof.
  apply never_deletes_bind; [apply never_deletes_fetch |]. intros res.
  destruct (ok res), (body res) as [content|]; try apply never_deletes_ret.
  apply never_deletes_bind; [apply never_deletes_put | intros _; apply never_deletes_reread].
Qed.

Lemma never_deletes_import_blob_unless_stored env name d :
  never_deletes (import_blob_unless_stored env name d).
Proof.
  apply never_deletes_bind; [apply never_deletes_head |]. intros [o|].
  - apply never_deletes_ret.
  - apply never_deletes_bind; [apply never_deletes_importBlob | intros _; apply never_deletes_ret].
Qed.

Lemma never_deletes_descriptor_step invalid (k : Digest → Async unit) item :
  (∀ d, never_deletes (k d)) → never_deletes (descriptor_step invalid k item).
Proof.
  intros Hk. apply never_deletes_bind; [apply never_deletes_lift |]. intros v.
  destruct (parseDigest_value v); [apply Hk | apply never_deletes_throw].
Qed.

Lemma never_deletes_import_image env name content :
  never_deletes (import_image env name content).
Proof.
  apply never_deletes_bind; [apply never_deletes_lift |]. intros config.
  apply never_deletes_bind; [apply never_deletes_lift |]. intros cd.
  destruct (parseDigest_value cd) as [d|]; [|apply never_deletes_throw].
  apply never_deletes_bind; [apply never_deletes_import_blob_unless_stored |]. intros _.
  apply never_deletes_bind; [apply never_deletes_lift |]. intros layers.
  apply never_deletes_bind; [apply never_deletes_lift |]. intros items.
  apply never_deletes_for_each. intros layer.
  apply (never_deletes_descriptor_step InvalidLayerDigest (import_blob_unless_stored env name)).
  apply never_deletes_import_blob_unless_stored.
Qed.

Lemma never_deletes_importAll fuel : ∀ env name d, never_deletes (importAll fuel env name d).
Proof.
  induction fuel as [|fuel IH]; intros env name d; cbn [importAll].
  - apply never_deletes_lift.
  - apply never_deletes_bind; [apply never_deletes_importManifest |]. intros res.
    destruct (negb (ok res)); [apply never_deletes_throw |].
    apply never_deletes_bind.
    { unfold Response_json. destruct (body res) as [t|]; [|apply never_deletes_throw].
      destruct (JSON_parse t); [apply never_deletes_ret | apply never_deletes_throw]. }
    intros content. apply never_deletes_bind; [apply never_deletes_lift |]. intros mediaType.
    destruct (negb (truthy mediaType)); [apply never_deletes_throw |].
    destruct (is_index_mediaType mediaType).
    + apply never_deletes_bind; [apply never_deletes_lift |]. intros manifests.
      apply never_deletes_bind; [apply never_deletes_lift |]. intros items.
      apply never_deletes_for_each. intros item.
      apply (never_deletes_descriptor_step InvalidManifestDigest (importAll fuel env name)).
      intros d'. apply IH.
    + destruct (is_image_mediaType mediaType);
        [apply never_deletes_import_image | apply never_deletes_throw].
Qed.

Lemma never_deletes_resolve env name tag : never_deletes (resolveTagToDigest env name tag).
Proof.
  apply never_deletes_bind; [apply never_deletes_get |]. intros [o|].
  - apply never_deletes_ret.
  - apply never_deletes_bind; [apply never_deletes_fetch |]. intros res.
    destruct (negb (ok res)); [apply never_deletes_ret |].
    destruct (Headers_get _ _) as [[|c v]|]; try apply never_deletes_ret.
    apply never_deletes_bind; [apply never_deletes_put_text | intros _; apply never_deletes_ret].
Qed.

Lemma never_deletes_getObject req key hs : never_deletes (getObject req key hs).
Proof.
  unfold getObject. destruct (String.eqb (method req) "HEAD").
  - apply never_deletes_bind; [apply never_deletes_head |].
    intros [o|]; apply never_deletes_ret.
  - apply never_deletes_bind; [apply never_deletes_get_with |].
    intros [o|]; apply never_deletes_ret.
Qed.

Lemma never_deletes_pullThrough req fromR2 fromRegistry :
  never_deletes fromR2 → never_deletes fromRegistry →
  never_deletes (pullThroughRegistry req fromR2 fromRegistry).
Proof.
  intros H1 H2. unfold pullThroughRegistry. destruct (String.eqb (method req) "HEAD").
  - apply never_deletes_bind; [exact H1 |]. intros [o|]; [apply never_deletes_ret |].
    apply never_deletes_bind; [exact H2 |]. intros res.
    destruct (negb (ok res)); [apply never_deletes_ret |].
    apply never_deletes_bind; [exact H1 |]. intros [o|]; apply never_deletes_ret.
  - apply never_deletes_bind; [exact H1 |]. intros [o|]; [apply never_deletes_ret | exact H2].
Qed.

(** X19: the worker never removes an object.  However a request to the
    manifest, blob or import route ends (an answer, an exception, an
    aborted multipart upload), and however [importAll] ends, every key
    that was in the store before is in the store after. *)
Theorem worker_never_deletes fuel req env name reference d :
  never_deletes (manifests_route req env name reference)
  ∧ never_deletes (blobs_route req env name reference)
  ∧ never_deletes (import_route fuel env name reference)
  ∧ never_deletes (importAll fuel env name d).
Proof.
  split; [|split; [|split]].
  - unfold manifests_route. apply never_deletes_bind.
    + destruct (parseTag reference); [apply never_deletes_resolve | apply never_deletes_ret].
    + intros [d'|]; [|apply never_deletes_ret].
      apply never_deletes_pullThrough;
        [apply never_deletes_getObject | apply never_deletes_importManifest].
  - unfold blobs_route. destruct (parseDigest reference) as [d'|]; [|apply never_deletes_ret].
    apply never_deletes_pullThrough;
      [apply never_deletes_getObject | apply never_deletes_importBlob].
  - unfold import_route. destruct (parseTag reference) as [tag|]; [|apply never_deletes_ret].
    apply never_deletes_bind; [apply never_deletes_fetch |]. intros res.
    destruct (negb (ok res)); [apply never_deletes_ret |].
    apply never_deletes_try_catch; [|intros e; apply never_deletes_ret].
    destruct (parseDigest _) as [d'|]; [|apply never_deletes_ret].
    apply never_deletes_bind; [apply never_deletes_importAll |]. intros _.
    apply never_deletes_bind; [apply never_deletes_put_text | intros _; apply never_deletes_ret].
  - apply never_deletes_importAll.
Qed.

End NeverDeletes.

(** ** A miss, then a hit *)

Section MissThenHit.

Context {P : Platform}.

Lemma getObject_miss_run req key hs w :
  storage w !! key = None →
  getObject req key hs w
    = (Normal None,
       log (if String.eqb (method req) "HEAD" then StorageHead key else StorageGet key) w).
Proof.
  intros Ho. unfold getObject. destruct (String.eqb (method req) "HEAD").
  - rewrite bind_run, storage_head_run, Ho. reflexivity.
  - rewrite bind_run, storage_get_with_run, Ho. reflexivity.
Qed.

(** X20: a HEAD for a blob that is not in the store populates it and is
    then answered from the store.  When the upstream answers the one
    blob request 2xx with a body that fits one put and that the bucket
    accepts, the answer to the HEAD has status 200, no body, the
    Content-Length of the stored blob and the digest asked for, and the
    blob is in the store; the bucket was asked [head], [put], [get] (the
    re-read of the import) and [head] again. *)
Theorem blobs_route_HEAD_populates req env name reference d w res content w1 :
  method req = "HEAD" →
  parseDigest reference = Some d →
  storage w !! blob_key name d = None →
  fetchFromRegistry env (blob_url name d) [] (log (StorageHead (blob_key name d)) w)
    = (Normal res, w1) →
  ok res = true → body res = Some content →
  exceeds_part_size res = false →
  sha256_matches (hash d) content = true →
  let key := blob_key name d in
  ∃ r w',
    blobs_route req env name reference w = (Normal r, w')
    ∧ status r = 200
    ∧ body r = None
    ∧ Headers_get (headers r) "Content-Length"
        = Some (pretty (Z.of_nat (String.length content)))
    ∧ Headers_get (headers r) "Docker-Content-Digest" = Some (digest d)
    ∧ storage w' !! key = Some (mkStored content (opt_httpMetadata (put_options d res)))
    ∧ events w' = events w1 ++ [StoragePut key; StorageGet key; StorageHead key].
Proof.
  intros Hm Hd Hmiss Hf Hok Hb Hsmall Hsum key.
  unfold blobs_route. rewrite Hd. unfold pullThroughRegistry.
  replace (String.eqb (method req) "HEAD") with true
    by (symmetry; now apply String.eqb_eq).
  rewrite bind_run, (getObject_miss_run _ _ _ _ Hmiss).
  replace (String.eqb (method req) "HEAD") with true
    by (symmetry; now apply String.eqb_eq).
  rewrite bind_run, (importBlob_put_run _ _ _ _ _ _ _ Hf Hok Hb Hsmall), Hsum.
  replace (ok (newResponseFrom (Some content) res)) with true by (symmetry; exact Hok).
  cbn [negb]. rewrite bind_run. fold key.
  set (o := mkStored content (opt_httpMetadata (put_options d res))).
  set (w2 := mkWorld _ _ _ _).
  assert (Ho : storage w2 !! key = Some o) by (subst w2; simpl; apply lookup_insert_eq).
  rewrite (getObject_HEAD_run _ _ _ _ _ Hm Ho).
  eexists. eexists. split; [reflexivity |].
  unfold emptyResponse, response, writeHttpMetadata, route_headers, Headers_of.
  cbn [body status headers newResponse default from_option id init_status init_headers
       init_statusText fold_left fst snd].
  split; [reflexivity |]. split; [reflexivity |].
  split; [headers_get; reflexivity |].
  split; [headers_get; reflexivity |].
  split; [exact Ho |].
  subst w2. unfold log. simpl. rewrite <- app_assoc. reflexivity.
Qed.

(** X21: the first GET of a blob populates the store and the second is
    served from it.  For a GET without range or condition (the bucket
    hands out the whole object, as it came), of a blob that is not in the
    store:
    when the upstream answers 2xx with a body that fits one put and the
    bucket accepts it, the first answer has the body with the status and
    headers of the upstream answer; a second GET in the resulting world
    has the same body with status 200, and sends no request. *)
Theorem blobs_route_GET_twice req env name reference d w res content w1 :
  method req ≠ "HEAD" →
  Headers_has (reqHeaders req) "Range" = false →
  (∀ o, conditional_read (reqHeaders req) o = (None, Some (stored_body o))) →
  parseDigest reference = Some d →
  storage w !! blob_key name d = None →
  fetchFromRegistry env (blob_url name d) [] (log (StorageGet (blob_key name d)) w)
    = (Normal res, w1) →
  ok res = true → body res = Some content →
  exceeds_part_size res = false →
  sha256_matches (hash d) content = true →
  ∃ first w' second w'',
    blobs_route req env name reference w = (Normal first, w')
    ∧ body first = Some content
    ∧ status first = status res ∧ headers first = headers res
    ∧ blobs_route req env name reference w' = (Normal second, w'')
    ∧ body second = Some content
    ∧ status second = 200
    ∧ requests_of (events w'') = requests_of (events w')
    ∧ storage w'' = storage w'.
Proof.
  intros Hm Hrange Hread Hd Hmiss Hf Hok Hb Hsmall Hsum.
  change (Headers_has (reqHeaders req) "Range") with (Headers_has (reqHeaders req) "range")
    in Hrange.
  assert (Hm' := Hm). apply String.eqb_neq in Hm'.
  unfold blobs_route. rewrite Hd. unfold pullThroughRegistry. rewrite Hm'.
  rewrite bind_run, (getObject_miss_run _ _ _ _ Hmiss), Hm'.
  rewrite (importBlob_put_run _ _ _ _ _ _ _ Hf Hok Hb Hsmall), Hsum.
  set (o := mkStored content (opt_httpMetadata (put_options d res))).
  set (w2 := mkWorld _ _ _ _).
  assert (Ho : storage w2 !! blob_key name d = Some o) by (subst w2; simpl; apply lookup_insert_eq).
  eexists. exists w2. eexists. eexists.
  split; [reflexivity |]. split; [reflexivity |]. split; [reflexivity |].
  split; [reflexivity |].
  rewrite bind_run.
  rewrite (getObject_read_run _ _ _ _ _ _ _ Hm Ho (Hread o)).
  split; [reflexivity |]. split; [reflexivity |].
  split.
  - rewrite Hrange. reflexivity.
  - split; [|reflexivity]. unfold log. simpl. rewrite requests_of_app. simpl. apply app_nil_r.
Qed.

End MissThenHit.

(** ** Importing a graph, further *)

Section GraphFurther.

Context {P : Platform}.

(** A loop over blobs that are all stored only checks that each is there. *)
Lemma for_each_stored env name ds : ∀ w,
  Forall (λ d, is_Some (storage w !! blob_key name d)) ds →
  for_each (import_blob_unless_stored env name) ds w
    = (Normal tt,
       mkWorld (storage w) (uploads w) (upstreamURL w)
               (events w ++ map (λ d, StorageHead (blob_key name d)) ds)).
Proof.
  induction ds as [|d ds IH]; intros w Hall; simpl.
  - rewrite app_nil_r. destruct w; reflexivity.
  - apply Forall_cons in Hall as [[o Ho] Hall].
    rewrite bind_run, (import_blob_unless_stored_skip _ _ _ _ _ Ho).
    rewrite IH by exact Hall. unfold log. simpl. rewrite <- app_assoc. reflexivity.
Qed.

(** X22: importing an image whose blobs are all in the store asks the
    upstream for nothing but the manifest.  After [importManifest], when
    the document is a single-image manifest whose config and layers carry
    valid digests that are all stored, [importAll] completes with one
    [head] per blob, config first and the layers in order, and with no
    further request and no change to the store or the uploads. *)
Theorem importAll_image_already_stored fuel env name d w res w1 text content mediaType cdv cd
    items ds :
  importManifest env name d w = (Normal res, w1) →
  ok res = true → body res = Some text → JSON_parse text = Some content →
  get_prop (Some content) "mediaType" = Normal mediaType →
  is_image_mediaType mediaType = true →
  config_digest_value content = Normal cdv → parseDigest_value cdv = Some cd →
  listed content "layers" = Normal items →
  Forall2 (λ item d', descriptor_digest item = Some d') items ds →
  Forall (λ d', is_Some (storage w1 !! blob_key name d')) (cd :: ds) →
  importAll (S fuel) env name d w
    = (Normal tt,
       mkWorld (storage w1) (uploads w1) (upstreamURL w1)
               (events w1 ++ map (λ d', StorageHead (blob_key name d')) (cd :: ds))).
Proof.
  intros Hm Hok Hb Hj Hmt Himg Hcdv Hcd Hitems Hds Hall.
  rewrite (importAll_parsed fuel _ _ _ _ _ _ _ _ _ Hm Hok Hb Hj Hmt).
  rewrite (is_image_truthy _ Himg), (is_image_not_index _ Himg), Himg. cbn [negb].
  rewrite (import_image_run _ _ _ _ _ Hcdv), Hcd.
  rewrite <- (for_each_stored env name (cd :: ds) w1 Hall).
  cbn [for_each]. rewrite !bind_run.
  destruct (import_blob_unless_stored env name cd w1) as [[[]|e|] w2]; try reflexivity.
  rewrite bind_run. unfold lift. rewrite Hitems. now apply for_each_descriptors.
Qed.

(** X23: a manifest that is not a well-formed document ends the import
    before any blob is looked at.  After [importManifest] answered ok: a
    missing body or a body that is not JSON is a syntax error; the
    document [null] is a type error; an index whose [manifests] member is
    missing or is neither an array nor a string is a type error, while an
    empty array (or empty string) of manifests completes with nothing
    more done; an image manifest whose [config] member is missing or
    [null] is a type error.  In each case the world is as
    [importManifest] left it. *)
Theorem importAll_malformed_manifest fuel env name d w res w1 :
  importManifest env name d w = (Normal res, w1) →
  ok res = true →
  let run := importAll (S fuel) env name d w in
  (body res = None → run = (Throw SyntaxError, w1))
  ∧ (∀ text, body res = Some text → JSON_parse text = None → run = (Throw SyntaxError, w1))
  ∧ (∀ text, body res = Some text → JSON_parse text = Some JNull →
       ∃ what, run = (Throw (TypeError what), w1))
  ∧ (∀ text members,
       body res = Some text → JSON_parse text = Some (JObject members) →
       (is_index_mediaType (member "mediaType" members) = true →
          match member "manifests" members with
          | Some (JArray []) | Some (JString EmptyString) => run = (Normal tt, w1)
          | Some (JArray _) | Some (JString _) => True
          | _ => ∃ what, run = (Throw (TypeError what), w1)
          end)
       ∧ (is_image_mediaType (member "mediaType" members) = true →
          match member "config" members with
          | None | Some JNull => ∃ what, run = (Throw (TypeError what), w1)
          | _ => True
          end)).
Proof.
  intros Hm Hok run. subst run. split; [|split; [|split]].
  - intros Hb. cbn [importAll]. rewrite bind_run, Hm, Hok. cbn [negb].
    rewrite bind_run. unfold Response_json. rewrite Hb. reflexivity.
  - intros text Hb Hj. cbn [importAll]. rewrite bind_run, Hm, Hok. cbn [negb].
    rewrite bind_run. unfold Response_json. rewrite Hb, Hj. reflexivity.
  - intros text Hb Hj. cbn [importAll]. rewrite bind_run, Hm, Hok. cbn [negb].
    rewrite bind_run. unfold Response_json. rewrite Hb, Hj. eexists. reflexivity.
  - intros text members Hb Hj.
    rewrite (importAll_parsed fuel _ _ _ _ _ _ _ (JObject members) _ Hm Hok Hb Hj eq_refl).
    split.
    + intros Hidx. rewrite (is_index_truthy _ Hidx), Hidx. cbn [negb].
      rewrite bind_run. unfold lift, listed. cbn [get_prop].
      destruct (member "manifests" members) as [[| | |s|items|]|];
        try (eexists; reflexivity).
      * destruct s; [reflexivity | exact I].
      * destruct items; [reflexivity | exact I].
    + intros Himg. rewrite (is_image_truthy _ Himg), (is_image_not_index _ Himg), Himg.
      cbn [negb]. unfold import_image. rewrite bind_run. unfold lift at 1. cbn [get_prop].
      destruct (member "config" members) as [[| | | | |]|]; try exact I;
        eexists; reflexivity.
Qed.

End GraphFurther.

(** ** Manifests by a tag that does not resolve *)

Section UnresolvedTag.

Context {P : Platform}.


End UnresolvedTag.

(** ** The further properties on a concrete platform *)

Lemma importManifest_outcomes_witness :
  let P := Demo.platform
             (Demo.always (Demo.plain 200 [("Content-Type", "application/json")] (Some "{}")))
             [] Demo.read_whole in
  let d := mkDigest sha256 "abc" "sha256:abc" in
  let run := importManifest Demo.env "library/alpine" d Demo.empty_world in
  (∃ r, run.1 = Normal r ∧ body r = Some "{}" ∧ status r = 200)
  ∧ storage run.2 !! "library/alpine/manifests/sha256:abc"
      = Some (mkStored "{}" (mkMeta None (Some "application/json"))).
Proof.
  intros P d run. subst run.
  set (res := Demo.plain 200 [("Content-Type", "application/json")] (Some "{}")).
  set (w1 := (fetchFromRegistry Demo.env (manifest_url "library/alpine" (digest d)) []
                Demo.empty_world).2).
  destruct (importManifest_outcomes Demo.env "library/alpine" d Demo.empty_world (Normal res) w1)
    as (_ & _ & Hstored).
  - vm_compute. reflexivity.
  - rewrite (Hstored res "{}" eq_refl eq_refl eq_refl).
    split; [eexists; repeat split | vm_compute; reflexivity].
Defined.

Lemma importBlob_nothing_to_store_witness :
  let P := Demo.platform (Demo.always (Demo.plain 404 [] None)) [] Demo.read_whole in
  let d := mkDigest sha256 "abc" "sha256:abc" in
  let run := importBlob Demo.env "library/alpine" d Demo.empty_world in
  run.1 = Normal (Demo.plain 404 [] None) ∧ storage run.2 = ∅ ∧ uploads run.2 = [].
Proof.
  intros P d run. subst run.
  set (res := Demo.plain 404 [] None).
  set (w1 := (fetchFromRegistry Demo.env (blob_url "library/alpine" d) [] Demo.empty_world).2).
  destruct (importBlob_nothing_to_store Demo.env "library/alpine" d Demo.empty_world
              (Normal res) w1) as (_ & Hreturned & Hstore & Huploads & _).
  - vm_compute. reflexivity.
  - rewrite (Hreturned res eq_refl (or_introl eq_refl)).
    split; [reflexivity | split; [exact Hstore | exact Huploads]].
Defined.

Lemma importBlob_length_not_a_number_witness :
  let P := Demo.platform
             (Demo.always (Demo.plain 200 [("Content-Length", "chunked")] (Some "layer")))
             [] Demo.read_whole in
  let d := mkDigest sha256 "abc" "sha256:abc" in
  let run := importBlob Demo.env "library/alpine" d Demo.empty_world in
  uploads run.2 = []
  ∧ storage run.2 !! "library/alpine/blobs/sha256:abc" = Some (mkStored "layer" (mkMeta None None)).
Proof.
  intros P d run. subst run.
  set (res := Demo.plain 200 [("Content-Length", "chunked")] (Some "layer")).
  set (w1 := (fetchFromRegistry Demo.env (blob_url "library/alpine" d) [] Demo.empty_world).2).
  rewrite (importBlob_length_not_a_number Demo.env "library/alpine" d Demo.empty_world
             res "layer" w1 "chunked").
  - vm_compute. repeat split.
  - vm_compute. reflexivity.
  - reflexivity.
  - reflexivity.
  - vm_compute. reflexivity.
  - reflexivity.
Defined.

Lemma importBlob_part_fetch_rejected_witness :
  let first := Demo.plain 200 [("Content-Length", "300000000")] (Some "layer") in
  let server : list Request → Request → Completion Response :=
    λ _ req,
      match requestHeaders req !! "range" with
      | None => Normal first
      | Some r => if String.eqb r "bytes=262144000-524287999"
                  then Throw (NetworkError "connection reset")
                  else Normal (Demo.plain 206 [] (Some "chunk"))
      end in
  let P := Demo.platform server [] Demo.read_whole in
  let d := mkDigest sha256 "abc" "sha256:abc" in
  ∃ w', importBlob Demo.env "library/alpine" d Demo.empty_world
          = (Throw (NetworkError "connection reset"), w')
        ∧ (∃ upl, uploads w' !! 0%nat = Some upl ∧ upload_state upl = Aborted)
        ∧ storage w' = ∅.
Proof.
  intros first server P d.
  set (w1 := (fetchFromRegistry Demo.env (blob_url "library/alpine" d) [] Demo.empty_world).2).
  evar (up : URL). evar (u : URL).
  destruct (importBlob_part_fetch_rejected Demo.env "library/alpine" d Demo.empty_world
              first "layer" w1 "300000000" 300000000 up u 1 (NetworkError "connection reset"))
    as (w' & Hrun & _ & Hupl & Hstore).
  - vm_compute. reflexivity.
  - reflexivity.
  - reflexivity.
  - reflexivity.
  - vm_compute. reflexivity.
  - reflexivity.
  - vm_compute. reflexivity.
  - vm_compute. reflexivity.
  - split; [lia | vm_compute; reflexivity].
  - split; [|exact I]. exists (Demo.plain 206 [] (Some "chunk")), "chunk".
    repeat split.
  - vm_compute. reflexivity.
  - exists w'. split; [exact Hrun |]. split; [exact Hupl | exact Hstore].
Defined.

Lemma parts_cover_the_blob_witness :
  ∃ i, 0 ≤ i < part_count 300000000
       ∧ i * partSize ≤ 262144000 ≤ (i + 1) * partSize - 1
       ∧ ∀ i', i' * partSize ≤ 262144000 ≤ (i' + 1) * partSize - 1 → i' = i.
Proof.
  destruct (parts_cover_the_blob 300000000 262144000) as [Hone _]; [lia | exact Hone].
Defined.

Lemma getObject_HEAD_witness :
  let P := Demo.platform (Demo.always (Demo.plain 200 [] None)) [] (Demo.read_first 4) in
  let req := mkHonoRequest "HEAD" (Headers_of [("Range", "bytes=0-3")]) in
  let d := mkDigest sha256 "abc" "sha256:abc" in
  let w := Demo.world_with "library/alpine/blobs/sha256:abc" "hello world" in
  ∃ r, (getObject req "library/alpine/blobs/sha256:abc" (route_headers d) w).1
         = Normal (Some r)
       ∧ status r = 200
       ∧ body r = None
       ∧ Headers_get (headers r) "Content-Length" = Some "11"
       ∧ Headers_get (headers r) "Content-Range" = None.
Proof.
  intros P req d w.
  destruct (getObject_HEAD req "library/alpine/blobs/sha256:abc" (route_headers d) w
              (mkStored "hello world" (mkMeta None None)) eq_refl eq_refl)
    as (r & Hrun & Hstatus & Hbody & Hlength & _ & _ & Hrange & _).
  exists r. rewrite Hrun. split; [reflexivity |].
  split; [exact Hstatus |]. split; [exact Hbody |]. split; [exact Hlength |].
  rewrite Hrange. reflexivity.
Defined.

Lemma getObject_served_headers_witness :
  let P := Demo.platform (Demo.always (Demo.plain 200 [] None)) [] Demo.read_whole in
  let req := mkHonoRequest "GET" ∅ in
  let d := mkDigest sha256 "abc" "sha256:abc" in
  let key := "library/alpine/manifests/sha256:abc" in
  let w := mkWorld {[key := mkStored "{}" (mkMeta None (Some "application/json"))]} [] None [] in
  ∃ r, (getObject req key (route_headers d) w).1 = Normal (Some r)
       ∧ Headers_get (headers r) "Docker-Content-Digest" = Some "sha256:abc"
       ∧ Headers_get (headers r) "Content-Type" = Some "application/json"
       ∧ Headers_get (headers r) "Content-Encoding" = None.
Proof.
  intros P req d key w.
  set (run := getObject req key (route_headers d) w).
  set (r := match run.1 with Normal (Some r) => r | _ => Demo.plain 200 [] None end).
  destruct (getObject_served_headers req key d w r run.2)
    as (o & Ho & Hdigest & _ & _ & Htype & Hencoding & _).
  - vm_compute. reflexivity.
  - assert (o = mkStored "{}" (mkMeta None (Some "application/json"))) as ->.
    { apply (inj Some). rewrite <- Ho. reflexivity. }
    exists r. split; [vm_compute; reflexivity |].
    split; [exact Hdigest |]. split; [exact Htype | exact Hencoding].
Defined.

Lemma routes_hit_without_upstream_witness :
  let P := Demo.platform (Demo.always (Demo.plain 500 [] None)) [] Demo.read_whole in
  let req := mkHonoRequest "GET" ∅ in
  let w := Demo.world_with "library/alpine/blobs/sha256:abc" "layer" in
  ∃ r w', blobs_route req Demo.env "library/alpine" "sha256:abc" w = (Normal r, w')
          ∧ requests_of (events w') = []
          ∧ Headers_get (headers r) "Docker-Content-Digest" = Some "sha256:abc".
Proof.
  intros P req w.
  destruct (routes_hit_without_upstream req Demo.env "library/alpine" "sha256:abc" w)
    as (Hblob & _ & _).
  destruct (Hblob (mkDigest sha256 "abc" "sha256:abc") (mkStored "layer" (mkMeta None None)))
    as (r & w' & Hrun & _ & _ & Hrequests & Hdigest).
  - vm_compute. reflexivity.
  - reflexivity.
  - exists r, w'. split; [exact Hrun |]. split; [exact Hrequests | exact Hdigest].
Defined.


Lemma resolveTagToDigest_nothing_to_store_witness :
  let P := Demo.platform (Demo.always (Demo.plain 404 [] None)) [] Demo.read_whole in
  let run := resolveTagToDigest Demo.env "library/alpine" "latest" Demo.empty_world in
  run.1 = Normal None ∧ storage run.2 = ∅.
Proof.
  intros P run. subst run.
  set (res := Demo.plain 404 [] None).
  set (w1 := (fetchFromRegistry Demo.env (manifest_url "library/alpine" "latest") []
                (log (StorageGet (tag_key "library/alpine" "latest")) Demo.empty_world)).2).
  destruct (resolveTagToDigest_nothing_to_store Demo.env "library/alpine" "latest"
              Demo.empty_world (Normal res) w1) as (Hstore & _ & Hnull).
  - reflexivity.
  - vm_compute. reflexivity.
  - rewrite (Hnull res eq_refl (or_introl eq_refl)). split; [reflexivity | exact Hstore].
Defined.

Lemma resolveTagToDigest_then_cached_witness :
  let P := Demo.platform
             (Demo.always (Demo.plain 200 [("Docker-Content-Digest", "sha256:abc")] (Some "{}")))
             [] Demo.read_whole in
  let d := mkDigest sha256 "abc" "sha256:abc" in
  ∃ w', resolveTagToDigest Demo.env "library/alpine" "latest" Demo.empty_world
          = (Normal (Some d), w')
        ∧ resolveTagToDigest Demo.env "library/alpine" "latest" w'
            = (Normal (Some d), log (StorageGet (tag_key "library/alpine" "latest")) w').
Proof.
  intros P d.
  set (res := Demo.plain 200 [("Docker-Content-Digest", "sha256:abc")] (Some "{}")).
  set (w1 := (fetchFromRegistry Demo.env (manifest_url "library/alpine" "latest") []
                (log (StorageGet (tag_key "library/alpine" "latest")) Demo.empty_world)).2).
  destruct (resolveTagToDigest_then_cached Demo.env "library/alpine" "latest" Demo.empty_world
              res w1 "sha256:abc" d) as (w' & Hrun & _ & Hlater).
  - reflexivity.
  - vm_compute. reflexivity.
  - reflexivity.
  - vm_compute. reflexivity.
  - vm_compute. reflexivity.
  - exists w'. split; [exact Hrun | apply Hlater].
Defined.


Lemma import_route_then_resolve_witness :
  let P := Demo.platform
             (Demo.always (Demo.plain 200 [("Docker-Content-Digest", "sha256:abc")]
                             (Some "index")))
             [("index", JObject [("mediaType", JString "application/vnd.oci.image.index.v1+json");
                                 ("manifests", JArray [])])]
             Demo.read_whole in
  let d := mkDigest sha256 "abc" "sha256:abc" in
  ∃ w', (import_route 1 Demo.env "library/alpine" "latest" Demo.empty_world).2 = w'
        ∧ resolveTagToDigest Demo.env "library/alpine" "latest" w'
            = (Normal (Some d), log (StorageGet (tag_key "library/alpine" "latest")) w').
Proof.
  intros P d.
  set (res := Demo.plain 200 [("Docker-Content-Digest", "sha256:abc")] (Some "index")).
  set (w1 := (fetchFromRegistry Demo.env (manifest_url "library/alpine" "latest") []
                Demo.empty_world).2).
  set (w2 := (importAll 1 Demo.env "library/alpine" d w1).2).
  destruct (import_route_then_resolve 1 Demo.env "library/alpine" "latest" "latest"
              Demo.empty_world res w1 d w2) as (w' & Hrun & Hresolve).
  - vm_compute. reflexivity.
  - vm_compute. reflexivity.
  - reflexivity.
  - vm_compute. reflexivity.
  - vm_compute. reflexivity.
  - exists w'. rewrite Hrun. split; [reflexivity | exact Hresolve].
Defined.

Lemma blobs_route_HEAD_populates_witness :
  let P := Demo.platform (Demo.always (Demo.plain 200 [] (Some "layer"))) [] Demo.read_whole in
  let req := mkHonoRequest "HEAD" ∅ in
  ∃ r w', blobs_route req Demo.env "library/alpine" "sha256:abc" Demo.empty_world
            = (Normal r, w')
          ∧ status r = 200
          ∧ body r = None
          ∧ Headers_get (headers r) "Content-Length" = Some "5"
          ∧ storage w' !! "library/alpine/blobs/sha256:abc"
              = Some (mkStored "layer" (mkMeta None None)).
Proof.
  intros P req.
  set (res := Demo.plain 200 [] (Some "layer")).
  set (d := mkDigest sha256 "abc" "sha256:abc").
  set (w1 := (fetchFromRegistry Demo.env (blob_url "library/alpine" d) []
                (log (StorageHead (blob_key "library/alpine" d)) Demo.empty_world)).2).
  destruct (blobs_route_HEAD_populates req Demo.env "library/alpine" "sha256:abc" d
              Demo.empty_world res "layer" w1)
    as (r & w' & Hrun & Hstatus & Hbody & Hlength & _ & Hstored & _).
  - reflexivity.
  - vm_compute. reflexivity.
  - reflexivity.
  - vm_compute. reflexivity.
  - reflexivity.
  - reflexivity.
  - vm_compute. reflexivity.
  - reflexivity.
  - exists r, w'. split; [exact Hrun |]. split; [exact Hstatus |]. split; [exact Hbody |].
    split; [exact Hlength | exact Hstored].
Defined.

Lemma blobs_route_GET_twice_witness :
  let P := Demo.platform
             (Demo.always (Demo.plain 203 [("Content-Type", "application/octet-stream")]
                             (Some "layer")))
             [] Demo.read_whole in
  let req := mkHonoRequest "GET" ∅ in
  ∃ first w' second w'',
    blobs_route req Demo.env "library/alpine" "sha256:abc" Demo.empty_world = (Normal first, w')
    ∧ body first = Some "layer" ∧ status first = 203
    ∧ blobs_route req Demo.env "library/alpine" "sha256:abc" w' = (Normal second, w'')
    ∧ body second = Some "layer" ∧ status second = 200
    ∧ requests_of (events w'') = requests_of (events w').
Proof.
  intros P req.
  set (res := Demo.plain 203 [("Content-Type", "application/octet-stream")] (Some "layer")).
  set (d := mkDigest sha256 "abc" "sha256:abc").
  set (w1 := (fetchFromRegistry Demo.env (blob_url "library/alpine" d) []
                (log (StorageGet (blob_key "library/alpine" d)) Demo.empty_world)).2).
  destruct (blobs_route_GET_twice req Demo.env "library/alpine" "sha256:abc" d
              Demo.empty_world res "layer" w1)
    as (first & w' & second & w'' & Hfirst & Hbody1 & Hstatus1 & _ & Hsecond & Hbody2
        & Hstatus2 & Hrequests & _).
  - discriminate.
  - reflexivity.
  - intros o. reflexivity.
  - vm_compute. reflexivity.
  - reflexivity.
  - vm_compute. reflexivity.
  - reflexivity.
  - reflexivity.
  - vm_compute. reflexivity.
  - reflexivity.
  - exists first, w', second, w''. split; [exact Hfirst |]. split; [exact Hbody1 |].
    split; [exact Hstatus1 |]. split; [exact Hsecond |]. split; [exact Hbody2 |].
    split; [exact Hstatus2 | exact Hrequests].
Defined.

Lemma importAll_image_already_stored_witness :
  let P := Demo.platform (Demo.always (Demo.plain 200 [] (Some "image")))
             [("image", IndexExample.image_doc "sha256:config")] Demo.read_whole in
  let stored := mkStored "blob" (mkMeta None None) in
  let w := mkWorld {[ "app/blobs/sha256:config" := stored; "app/blobs/sha256:layer" := stored ]}
             [] None [] in
  let run := importAll 1 Demo.env "app" (mkDigest sha256 "m1" "sha256:m1") w in
  run.1 = Normal tt
  ∧ List.length (requests_of (events run.2)) = 1%nat
  ∧ List.tail (events run.2)
      = [StoragePut "app/manifests/sha256:m1"; StorageGet "app/manifests/sha256:m1";
         StorageHead "app/blobs/sha256:config"; StorageHead "app/blobs/sha256:layer"].
Proof.
  intros P stored w run. subst run.
  set (d := mkDigest sha256 "m1" "sha256:m1").
  set (res := (importManifest Demo.env "app" d w).1).
  set (w1 := (importManifest Demo.env "app" d w).2).
  rewrite (importAll_image_already_stored 0 Demo.env "app" d w
             (Demo.plain 200 [] (Some "image")) w1 "image"
             (IndexExample.image_doc "sha256:config")
             (Some (JString "application/vnd.oci.image.manifest.v1+json"))
             (Some (JString "sha256:config"))
             (mkDigest sha256 "config" "sha256:config")
             [JObject [("digest", JString "sha256:layer")]]
             [mkDigest sha256 "layer" "sha256:layer"]).
  - vm_compute. repeat split.
  - vm_compute. reflexivity.
  - reflexivity.
  - reflexivity.
  - reflexivity.
  - reflexivity.
  - reflexivity.
  - reflexivity.
  - vm_compute. reflexivity.
  - reflexivity.
  - repeat constructor.
  - repeat constructor; vm_compute; eexists; reflexivity.
Defined.

Lemma importAll_malformed_manifest_witness :
  let P := Demo.platform (Demo.always (Demo.plain 200 [] (Some "not a document")))
             [] Demo.read_whole in
  let d := mkDigest sha256 "abc" "sha256:abc" in
  (importAll 1 Demo.env "library/alpine" d Demo.empty_world).1 = Throw SyntaxError.
Proof.
  intros P d.
  set (res := Demo.plain 200 [] (Some "not a document")).
  set (w1 := (importManifest Demo.env "library/alpine" d Demo.empty_world).2).
  destruct (importAll_malformed_manifest 0 Demo.env "library/alpine" d Demo.empty_world res w1)
    as (_ & Hsyntax & _).
  - vm_compute. reflexivity.
  - reflexivity.
  - rewrite (Hsyntax "not a document" eq_refl eq_refl). reflexivity.
Defined.


Lemma worker_never_deletes_witness :
  let P := Demo.platform (Demo.always (Demo.plain 200 [] (Some "layer"))) [] Demo.read_whole in
  let w := Demo.world_with "library/alpine/tags/latest" "not a digest" in
  let run := blobs_route (mkHonoRequest "GET" ∅) Demo.env "library/alpine" "sha256:abc" w in
  keeps_keys w run.2.
Proof.
  intros P w run.
  destruct (worker_never_deletes 0 (mkHonoRequest "GET" ∅) Demo.env "library/alpine"
              "sha256:abc" (mkDigest sha256 "abc" "sha256:abc")) as (_ & Hblobs & _).
  apply (Hblobs w run.1 run.2). apply surjective_pairing.
Defined.
